(** * mrmd process supervisor: a shallow embedding of [src/mrmd/processes.py]

    The module under study is [ProcessManager]: three dictionaries keyed by
    the process name ([_processes], [_output_buffers], [_output_tasks]), the
    coroutines that start and stop children, and the per-process drain loop
    [_read_output].

    Python objects that are shared by reference (the asyncio [Process] held
    both by the registry and by its drain task, and the [Task] itself) live
    in two object tables indexed by a handle; the dictionaries store
    handles.  Every coroutine is a computation in a state-and-exception
    monad over the manager; what the operating system or the event loop
    decides (does the spawn succeed, does the child exit within the
    timeout, what does [readline] deliver) is an explicit argument.

    Two conventions bound what the development says.  A coroutine runs
    from its call to its return without another call of the manager in
    between; the drain tasks do progress meanwhile, between two calls
    (the step [Drain]) and, for the task of the name being stopped, while
    [stop] waits for the child (the field [drained]).  The part of [stop]
    that follows its first [await] is a definition of its own,
    [stop_from_wait], so that what happens when another call did run
    meanwhile can be stated.  And each primitive of the host fails in the
    ways given with it: the probe for [node] completes, times out, finds
    nothing or raises any other [Exception]; [terminate] and [kill] raise
    [ProcessLookupError], [wait_for] raises [TimeoutError]; the spawn and
    the callback may raise any [Exception], [readline] any exception at
    all.

    Around the manager the file embeds [find_package_path], the file API
    of [src/mrmd/server.py] ([list_files], [get_files], [create_file])
    over a documents directory given as a finite map from entry names to
    nodes, and [async_main] of [src/mrmd/cli.py], which drives the manager
    between a [try] and its [finally].  Strings are sequences of the code
    points below 256; what [pathlib] (joining and printing paths, what is
    found at a path and which call on it raises), the clock and the module
    [mrmd.project] decide is again an explicit argument. *)

From Stdlib Require Import ZArith QArith Ascii String List Lia.
From stdpp Require Import gmap strings list fin_maps pretty relations sorting.

(* ===================================================================== *)
(** ** Exceptions *)
(* ===================================================================== *)

(** The subclasses of [Exception] that the module can meet. *)
Inductive ExceptionKind :=
  | RuntimeError | ProcessLookupError | TimeoutError | KeyError
  | FileNotFoundError | PermissionError | OSError | ValueError.

Record Exception := mkException { exn_kind : ExceptionKind; exn_msg : string }.

(** [asyncio.CancelledError] derives from [BaseException], not from
    [Exception]: an [except Exception] clause does not catch it. *)
Inductive BaseException :=
  | CancelledError
  | Exc (e : Exception).

(* ===================================================================== *)
(** ** Objects and manager state *)
(* ===================================================================== *)

(** [collections.deque(maxlen=n)]. *)
Record deque := mkDeque { maxlen : nat; items : list string }.

(** [d.append(x)]: a full deque drops its leftmost item first. *)
Definition deque_append (x : string) (d : deque) : deque :=
  if decide (maxlen d = 0)%nat then d
  else if decide (length (items d) < maxlen d)%nat
       then mkDeque (maxlen d) (items d ++ [x])
       else mkDeque (maxlen d) (tail (items d) ++ [x]).

(** An [asyncio.subprocess.Process] object. *)
Record Process := mkProcess {
  pid : Z;
  returncode : option Z;
  p_cmd : list string;
  p_cwd : option string;
  p_env : gmap string string
}.

(** A caller-supplied [Callable[[str], None]]: [None] when the call
    returns, [Some e] when it raises [e]. *)
Definition Callback := string → option Exception.

Inductive TaskState := Running | Done.

(** The [asyncio.Task] wrapping [_read_output(name, process, callback)]. *)
Record Task := mkTask {
  t_name : string;
  t_process : nat;
  t_callback : option Callback;
  t_state : TaskState
}.

Inductive Level := INFO | WARNING | ERROR.

(** What the manager does to the outside world, in order. *)
Inductive Event :=
  | EvSpawn (h : nat)
  | EvTerminate (h : nat)
  | EvKill (h : nat)
  | EvWaitFor (h : nat) (timeout : Q)
  | EvWait (h : nat)
  | EvCancel (t : nat)
  | EvCallback (name line : string).

(** [self._max_output_lines], set once in [__init__] and never assigned
    again. *)
Definition _max_output_lines : nat := 1000.

Record ProcessManager := mkPM {
  _processes : gmap string nat;        (* name -> Process object *)
  _output_buffers : gmap string deque;
  _output_tasks : gmap string nat;     (* name -> Task object *)
  objects : list Process;              (* the Process objects, by handle *)
  loop_tasks : list Task;              (* the event loop's tasks, by handle *)
  log : list (Level * string);
  events : list Event
}.

(** [ProcessManager.__init__] *)
Definition __init__ : ProcessManager :=
  mkPM ∅ ∅ ∅ [] [] [] [].

(* ===================================================================== *)
(** ** The monad of coroutines *)
(* ===================================================================== *)

Inductive Result (A : Type) :=
  | Return (a : A)
  | Raise (e : BaseException).
Arguments Return {A} a.
Arguments Raise {A} e.

Definition M (A : Type) : Type := ProcessManager → Result A * ProcessManager.

#[global] Instance M_ret : MRet M := λ A a s, (Return a, s).
#[global] Instance M_bind : MBind M := λ A B f m s,
  match m s with
  | (Return a, s') => f a s'
  | (Raise e, s') => (Raise e, s')
  end.

Definition raise {A} (e : BaseException) : M A := λ s, (Raise e, s).
Definition gets {A} (f : ProcessManager → A) : M A := λ s, (Return (f s), s).
Definition modify (f : ProcessManager → ProcessManager) : M () :=
  λ s, (Return (), f s).

(** [try: body except ...: handler]; [handler e = None] when no clause
    matches [e], which then propagates. *)
Definition try_except {A} (body : M A) (handler : BaseException → option (M A))
  : M A := λ s,
  match body s with
  | (Return a, s') => (Return a, s')
  | (Raise e, s') =>
      match handler e with
      | Some h => h s'
      | None => (Raise e, s')
      end
  end.

Definition pass : M () := mret ().

(** *** Field updates *)

Definition set_processes (f : gmap string nat → gmap string nat)
  (s : ProcessManager) : ProcessManager :=
  mkPM (f (_processes s)) (_output_buffers s) (_output_tasks s)
       (objects s) (loop_tasks s) (log s) (events s).

Definition set_output_buffers (f : gmap string deque → gmap string deque)
  (s : ProcessManager) : ProcessManager :=
  mkPM (_processes s) (f (_output_buffers s)) (_output_tasks s)
       (objects s) (loop_tasks s) (log s) (events s).

Definition set_output_tasks (f : gmap string nat → gmap string nat)
  (s : ProcessManager) : ProcessManager :=
  mkPM (_processes s) (_output_buffers s) (f (_output_tasks s))
       (objects s) (loop_tasks s) (log s) (events s).

Definition set_objects (f : list Process → list Process)
  (s : ProcessManager) : ProcessManager :=
  mkPM (_processes s) (_output_buffers s) (_output_tasks s)
       (f (objects s)) (loop_tasks s) (log s) (events s).

Definition set_loop_tasks (f : list Task → list Task)
  (s : ProcessManager) : ProcessManager :=
  mkPM (_processes s) (_output_buffers s) (_output_tasks s)
       (objects s) (f (loop_tasks s)) (log s) (events s).

Definition set_log (f : list (Level * string) → list (Level * string))
  (s : ProcessManager) : ProcessManager :=
  mkPM (_processes s) (_output_buffers s) (_output_tasks s)
       (objects s) (loop_tasks s) (f (log s)) (events s).

Definition set_events (f : list Event → list Event)
  (s : ProcessManager) : ProcessManager :=
  mkPM (_processes s) (_output_buffers s) (_output_tasks s)
       (objects s) (loop_tasks s) (log s) (f (events s)).

Definition logger (lvl : Level) (msg : string) : M () :=
  modify (set_log (λ l, l ++ [(lvl, msg)])).

Definition emit (e : Event) : M () :=
  modify (set_events (λ l, l ++ [e])).

(** [del d[k]] raises [KeyError] when [k] is missing. *)
Definition del_processes (name : string) : M () := λ s,
  match _processes s !! name with
  | Some _ => (Return (), set_processes (delete name) s)
  | None => (Raise (Exc (mkException KeyError name)), s)
  end.

Definition del_output_tasks (name : string) : M () := λ s,
  match _output_tasks s !! name with
  | Some _ => (Return (), set_output_tasks (delete name) s)
  | None => (Raise (Exc (mkException KeyError name)), s)
  end.

(** Reading an attribute of the [Process] object behind a handle.  Handles
    come from the tables themselves, so the fallback is never taken in a
    state the manager can reach. *)
Definition get_returncode (h : nat) : M (option Z) :=
  gets (λ s, p ← objects s !! h; returncode p).

Definition get_pid (h : nat) : M Z :=
  gets (λ s, default 0%Z (pid <$> objects s !! h)).

Definition set_returncode (h : nat) (rc : Z) : M () :=
  modify (set_objects (λ ps,
    match ps !! h with
    | Some p => <[h := mkProcess (pid p) (Some rc) (p_cmd p) (p_cwd p) (p_env p)]> ps
    | None => ps
    end)).

Definition set_task_state (t : nat) (st : TaskState) : M () :=
  modify (set_loop_tasks (λ ts,
    match ts !! t with
    | Some k => <[t := mkTask (t_name k) (t_process k) (t_callback k) st]> ts
    | None => ts
    end)).

(* ===================================================================== *)
(** ** Locating Node.js *)
(* ===================================================================== *)

(** Outcome of [subprocess.run(["node", "--version"], timeout=5)]: the
    probe completes, or it raises.  [RunRaises] is any exception other
    than [subprocess.TimeoutExpired]: [FileNotFoundError] when no [node]
    is on the path, [PermissionError] when the one found may not be
    executed, another [OSError], ... *)
Inductive RunOutcome :=
  | Completed (rc : Z)
  | TimeoutExpired
  | FileNotFound
  | RunRaises (e : Exception).

(** Outcome of [asyncio.create_subprocess_exec]: a child with the given
    pid, or an exception (missing executable, permission denied, ...). *)
Inductive SpawnOutcome :=
  | SpawnOk (child_pid : Z)
  | SpawnRaises (e : Exception).

(** What one start call observes of its host. *)
Record Host := mkHost {
  nodejs_importable : bool;            (* [from nodejs import node] works *)
  node_version_run : RunOutcome;
  os_environ : gmap string string;
  sys_platform : string;
  sys_executable : string;
  exec_outcome : SpawnOutcome;
  path_join : string → string → string (* [str(Path(a) / b)] *)
}.

Definition node_not_found : Exception :=
  mkException RuntimeError
    "Node.js not found. Install nodejs-bin: pip install nodejs-bin
Or install Node.js from https://nodejs.org".

(** [get_node_executable()]: the bundled nodejs-bin first, then the
    system [node]; [inl] is the exception raised: the [RuntimeError] when
    neither is there, or what the probe raises and the clause
    [except (subprocess.TimeoutExpired, FileNotFoundError)] does not
    catch. *)
Definition get_node_executable (host : Host) : Exception + string :=
  if nodejs_importable host then inr "node"
  else
    match node_version_run host with
    | Completed rc => if decide (rc = 0%Z) then inr "node" else inl node_not_found
    | TimeoutExpired | FileNotFound => inl node_not_found
    | RunRaises e =>
        match exn_kind e with
        | FileNotFoundError => inl node_not_found
        | _ => inl e
        end
    end.

(* ===================================================================== *)
(** ** The drain loop *)
(* ===================================================================== *)

(** [str.isspace] on the code points below 256. *)
Definition is_space (c : ascii) : bool :=
  let n := nat_of_ascii c in
  ((9 <=? n) && (n <=? 13) || (28 <=? n) && (n <=? 32)
   || (n =? 133) || (n =? 160))%nat.

(** [str.rstrip()] *)
Fixpoint rstrip (s : string) : string :=
  match s with
  | EmptyString => EmptyString
  | String c r =>
      match rstrip r with
      | EmptyString => if is_space c then EmptyString else String c EmptyString
      | r' => String c r'
      end
  end.

(** One [await process.stdout.readline()].  [Line text] carries the bytes
    already decoded (decoding as utf-8 with errors=replace is total and
    maps the empty bytes, the end of the stream, to the empty string);
    [Fails e] is an exception surfacing at the await, among them the
    [CancelledError] that [Task.cancel()] delivers. *)
Inductive ReadResult :=
  | Line (text : string)
  | Fails (e : BaseException).

Definition readline (r : ReadResult) : M string :=
  match r with
  | Line text => mret text
  | Fails e => raise e
  end.

(** [self._output_buffers[name].append(line_str)] *)
Definition buffer_append (name line_str : string) : M () := λ s,
  match _output_buffers s !! name with
  | Some d =>
      (Return (), set_output_buffers (<[name := deque_append line_str d]>) s)
  | None => (Raise (Exc (mkException KeyError name)), s)
  end.

(** [callback(line_str)] *)
Definition call (cb : Callback) (name line_str : string) : M () :=
  emit (EvCallback name line_str);;
  match cb line_str with
  | None => mret ()
  | Some e => raise (Exc e)
  end.

(** Where the coroutine stands once the given reads are consumed. *)
Inductive LoopExit := Suspended | Returned.

(** The [while True] of [_read_output], run on the results of the
    successive [readline] calls; when they are used up the coroutine is
    suspended in the next [readline]. *)
Fixpoint read_loop (name : string) (callback : option Callback)
  (stream : list ReadResult) : M LoopExit :=
  match stream with
  | [] => mret Suspended
  | r :: rest =>
      line ← readline r;
      if decide (line = EmptyString) then mret Returned
      else
        let line_str := rstrip line in
        buffer_append name line_str;;
        match callback with
        | Some cb => call cb name line_str
        | None => mret ()
        end;;
        read_loop name callback rest
  end.

(** [_read_output(name, process, callback)]: the loop inside its
    [try ... except asyncio.CancelledError ... except Exception]. *)
Definition _read_output (name : string) (process : nat)
  (callback : option Callback) (stream : list ReadResult) : M LoopExit :=
  try_except (read_loop name callback stream)
    (λ e, match e with
          | CancelledError => Some (pass;; mret Returned)
          | Exc e =>
              Some (logger ERROR
                      ("Error reading output from " +:+ name +:+ ": " +:+ exn_msg e);;
                    mret Returned)
          end).

(** The event loop resumes task [t] and feeds it [stream]. *)
Definition resume (t : nat) (stream : list ReadResult) : M () := λ s,
  match loop_tasks s !! t with
  | Some k =>
      match t_state k with
      | Running =>
          match _read_output (t_name k) (t_process k) (t_callback k) stream s with
          | (Return Suspended, s') => (Return (), s')
          | (_, s') => set_task_state t Done s'
          end
      | Done => (Return (), s)
      end
  | None => (Return (), s)
  end.

(* ===================================================================== *)
(** ** Starting processes *)
(* ===================================================================== *)

(** [asyncio.create_subprocess_exec] on the command line [cmd], with
    [stdout=PIPE] and [stderr=STDOUT]. *)
Definition create_subprocess_exec (cmd : list string) (cwd : option string)
  (env : gmap string string) (host : Host) : M nat :=
  match exec_outcome host with
  | SpawnOk child_pid =>
      h ← gets (λ s, length (objects s));
      modify (set_objects (λ ps, ps ++ [mkProcess child_pid None cmd cwd env]));;
      emit (EvSpawn h);;
      mret h
  | SpawnRaises e => raise (Exc e)
  end.

(** [asyncio.create_task(self._read_output(name, process, on_output))] *)
Definition create_task (name : string) (process : nat)
  (on_output : option Callback) : M nat :=
  t ← gets (λ s, length (loop_tasks s));
  modify (set_loop_tasks (λ ts, ts ++ [mkTask name process on_output Running]));;
  mret t.

(** [os.environ.copy()] then [process_env.update(env)] when [env] is
    given and not empty. *)
Definition merge_env (host : Host) (env : option (gmap string string))
  : gmap string string :=
  match env with
  | Some e => e ∪ os_environ host
  | None => os_environ host
  end.

(** The [try] block that ends each of the three start coroutines (the
    three copies in the source are the same text).  The one [await] of the
    block, that of [create_subprocess_exec], is taken in one step. *)
Definition spawn_and_register (name : string) (cmd : list string)
  (cwd : option string) (process_env : gmap string string)
  (on_output : option Callback) (host : Host) : M bool :=
  try_except
    (process ← create_subprocess_exec cmd cwd process_env host;
     modify (set_processes (<[name := process]>));;
     modify (set_output_buffers (<[name := mkDeque _max_output_lines []]>));;
     task ← create_task name process on_output;
     modify (set_output_tasks (<[name := task]>));;
     child ← get_pid process;
     logger INFO ("Started " +:+ name +:+ " with PID " +:+ pretty child);;
     mret true)
    (λ e, match e with
          | Exc e =>
              Some (logger ERROR ("Failed to start " +:+ name +:+ ": " +:+ exn_msg e);;
                    mret false)
          | CancelledError => None
          end).

Definition start_node_process (name script_path : string)
  (args : option (list string)) (cwd : option string)
  (env : option (gmap string string)) (on_output : option Callback)
  (host : Host) : M bool :=
  procs ← gets _processes;
  if decide (is_Some (procs !! name)) then
    logger WARNING ("Process " +:+ name +:+ " already running");;
    mret false
  else
    match get_node_executable host with
    | inl e =>
        match exn_kind e with
        | RuntimeError => logger ERROR (exn_msg e);; mret false
        | _ => raise (Exc e)
        end
    | inr node =>
        let cmd := [node; script_path] ++ default [] args in
        let process_env := merge_env host env in
        logger INFO ("Starting " +:+ name +:+ ": " +:+ String.concat " " cmd);;
        spawn_and_register name cmd cwd process_env on_output host
    end.

Definition start_python_process (name module : string)
  (args : option (list string)) (cwd : option string)
  (env : option (gmap string string)) (venv : option string)
  (on_output : option Callback) (host : Host) : M bool :=
  procs ← gets _processes;
  if decide (is_Some (procs !! name)) then
    logger WARNING ("Process " +:+ name +:+ " already running");;
    mret false
  else
    let python :=
      match venv with
      | Some v =>
          if decide (sys_platform host = "win32")
          then path_join host (path_join host v "Scripts") "python.exe"
          else path_join host (path_join host v "bin") "python"
      | None => sys_executable host
      end in
    let cmd := [python; "-m"; module] ++ default [] args in
    let process_env := merge_env host env in
    logger INFO ("Starting " +:+ name +:+ ": " +:+ String.concat " " cmd);;
    spawn_and_register name cmd cwd process_env on_output host.

Definition start_npx_process (name package : string)
  (args : option (list string)) (cwd : option string)
  (env : option (gmap string string)) (on_output : option Callback)
  (host : Host) : M bool :=
  procs ← gets _processes;
  if decide (is_Some (procs !! name)) then
    logger WARNING ("Process " +:+ name +:+ " already running");;
    mret false
  else
    let npx_cmd := "npx" in
    let cmd := [npx_cmd; package] ++ default [] args in
    let process_env := merge_env host env in
    logger INFO ("Starting " +:+ name +:+ ": " +:+ String.concat " " cmd);;
    spawn_and_register name cmd cwd process_env on_output host.

(* ===================================================================== *)
(** ** Queries *)
(* ===================================================================== *)

(** [is_running(name)] *)
Definition is_running (name : string) (s : ProcessManager) : bool :=
  match _processes s !! name with
  | None => false
  | Some h => bool_decide ((p ← objects s !! h; returncode p) = None)
  end.

(** [l[start:]] on a Python list, for a start index of either sign. *)
Definition slice_from {A} (start : Z) (l : list A) : list A :=
  let n := Z.of_nat (length l) in
  let i := if (start <? 0)%Z then Z.max 0 (n + start) else Z.min start n in
  drop (Z.to_nat i) l.

(** [get_output(name, lines)] (the source defaults [lines] to 50). *)
Definition get_output (name : string) (lines : Z) (s : ProcessManager)
  : list string :=
  match _output_buffers s !! name with
  | None => []
  | Some buffer => slice_from (- lines) (items buffer)
  end.

Record Status := mkStatus {
  st_running : bool;
  st_pid : option Z;
  st_returncode : option Z
}.

(** [get_status()] *)
Definition get_status (s : ProcessManager) : gmap string Status :=
  map_imap (λ name h,
    let rc := p ← objects s !! h; returncode p in
    Some (mkStatus (is_running name s)
            (match rc with None => pid <$> objects s !! h | Some _ => None end)
            rc))
    (_processes s).

(* ===================================================================== *)
(** ** Stopping processes *)
(* ===================================================================== *)

(** What one [stop] call observes of the child and of the event loop. *)
Record StopEnv := mkStopEnv {
  terminate_vanished : bool;   (* [terminate()] raises ProcessLookupError *)
  drained : list ReadResult;   (* reads of the drain task while [stop] is
                                  suspended in [wait_for] *)
  exits_within : option Z;     (* [Some rc]: exit before the timeout;
                                  [None]: asyncio.TimeoutError *)
  kill_vanished : bool;        (* [kill()] raises ProcessLookupError *)
  exit_after_kill : Z
}.

Definition process_lookup_error : BaseException :=
  Exc (mkException ProcessLookupError EmptyString).

Definition terminate (h : nat) (w : StopEnv) : M () :=
  if terminate_vanished w then raise process_lookup_error
  else emit (EvTerminate h).

Definition kill (h : nat) (w : StopEnv) : M () :=
  if kill_vanished w then raise process_lookup_error
  else emit (EvKill h).

(** [await process.wait()] after the kill. *)
Definition wait (h : nat) (w : StopEnv) : M () :=
  emit (EvWait h);;
  set_returncode h (exit_after_kill w).

(** [await asyncio.wait_for(process.wait(), timeout=timeout)].  While the
    caller is suspended the event loop runs the drain task of [name]; what
    the other tasks and children do meanwhile is left to the steps before
    and after the call. *)
Definition wait_for_wait (name : string) (h : nat) (timeout : Q)
  (w : StopEnv) : M () :=
  emit (EvWaitFor h timeout);;
  tasks ← gets _output_tasks;
  match tasks !! name with
  | Some t => resume t (drained w)
  | None => pass
  end;;
  match exits_within w with
  | Some rc => set_returncode h rc
  | None => raise (Exc (mkException TimeoutError EmptyString))
  end.

(** [task.cancel()] *)
Definition cancel (t : nat) : M () := emit (EvCancel t).

(** [await task] on a task that has been cancelled: the loop throws
    [CancelledError] into the coroutine at its pending [readline]. *)
Definition await_task (t : nat) : M () := resume t [Fails CancelledError].

(** The part of [stop] that starts at its first [await]: the wait for
    the exit, the kill when it times out, the cancellation of the drain
    task and the removal of the registry entry.  The coroutine is
    suspended at the [await]s of this part, so another call of the manager
    may have run before it goes on. *)
Definition stop_from_wait (name : string) (process : nat) (timeout : Q)
  (w : StopEnv) : M bool :=
  (* Wait for graceful shutdown *)
  try_except (wait_for_wait name process timeout w)
    (λ e, match e with
          | Exc (mkException TimeoutError _) =>
              Some (logger WARNING
                      (name +:+ " didn't stop gracefully, sending SIGKILL");;
                    try_except (kill process w;; wait process w)
                      (λ e, match e with
                            | Exc (mkException ProcessLookupError _) =>
                                Some pass
                            | _ => None
                            end))
          | _ => None
          end);;
  (* Cancel output reader *)
  tasks ← gets _output_tasks;
  match tasks !! name with
  | Some t =>
      cancel t;;
      try_except (await_task t)
        (λ e, match e with
              | CancelledError => Some pass
              | _ => None
              end);;
      del_output_tasks name
  | None => pass
  end;;
  del_processes name;;
  logger INFO ("Stopped " +:+ name);;
  mret true.

(** [stop(name, timeout)] (the source defaults [timeout] to 5.0). *)
Definition stop (name : string) (timeout : Q) (w : StopEnv) : M bool :=
  procs ← gets _processes;
  match procs !! name with
  | None => mret true
  | Some process =>
      rc ← get_returncode process;
      match rc with
      | Some _ =>
          (* Already stopped *)
          del_processes name;;
          mret true
      | None =>
          child ← get_pid process;
          logger INFO ("Stopping " +:+ name +:+ " (PID " +:+ pretty child +:+ ")");;
          (* Send SIGTERM *)
          returned ←
            try_except (terminate process w;; mret false)
              (λ e, match e with
                    | Exc (mkException ProcessLookupError _) =>
                        Some (del_processes name;; mret true)
                    | _ => None
                    end);
          if (returned : bool) then mret true
          else stop_from_wait name process timeout w
      end
  end.

Fixpoint stop_each (names : list string) (timeout : Q)
  (w : string → StopEnv) : M () :=
  match names with
  | [] => mret ()
  | name :: rest => stop name timeout (w name);; stop_each rest timeout w
  end.

(** [stop_all(timeout)]: a snapshot of the keys, then one [stop] after the
    other.  (Python walks the keys in insertion order; the finite map
    does not record it and yields them in its own fixed order.) *)
Definition stop_all (timeout : Q) (w : string → StopEnv) : M () :=
  names ← gets (λ s, (map_to_list (_processes s)).*1);
  stop_each names timeout w.

(* ===================================================================== *)
(** ** Histories *)
(* ===================================================================== *)

(** The steps that change the manager: the calls of its clients, the
    progress of a drain task between two calls, and a child that exits on
    its own. *)
Inductive Op :=
  | StartNode (name script_path : string) (args : option (list string))
      (cwd : option string) (env : option (gmap string string))
      (on_output : option Callback) (host : Host)
  | StartPython (name module : string) (args : option (list string))
      (cwd : option string) (env : option (gmap string string))
      (venv : option string) (on_output : option Callback) (host : Host)
  | StartNpx (name package : string) (args : option (list string))
      (cwd : option string) (env : option (gmap string string))
      (on_output : option Callback) (host : Host)
  | Stop (name : string) (timeout : Q) (w : StopEnv)
  | StopAll (timeout : Q) (w : string → StopEnv)
  | Drain (t : nat) (stream : list ReadResult)
  | Exits (h : nat) (rc : Z).

Definition run_op (op : Op) (s : ProcessManager) : ProcessManager :=
  match op with
  | StartNode name script_path args cwd env on_output host =>
      (start_node_process name script_path args cwd env on_output host s).2
  | StartPython name module args cwd env venv on_output host =>
      (start_python_process name module args cwd env venv on_output host s).2
  | StartNpx name package args cwd env on_output host =>
      (start_npx_process name package args cwd env on_output host s).2
  | Stop name timeout w => (stop name timeout w s).2
  | StopAll timeout w => (stop_all timeout w s).2
  | Drain t stream => (resume t stream s).2
  | Exits h rc =>
      match objects s !! h with
      | Some (mkProcess _ None _ _ _) => (set_returncode h rc s).2
      | _ => s
      end
  end.

Definition run (ops : list Op) (s : ProcessManager) : ProcessManager :=
  foldl (λ s op, run_op op s) s ops.

(** Does the step stop [name]? *)
Definition stops (name : string) (op : Op) : bool :=
  match op with
  | Stop name' _ _ => bool_decide (name' = name)
  | StopAll _ _ => true
  | _ => false
  end.

(** The states the manager can be in. *)
Inductive reachable : ProcessManager → Prop :=
  | reachable_init : reachable __init__
  | reachable_step s op : reachable s → reachable (run_op op s).

(* ===================================================================== *)
(** ** Locating a package ([find_package_path]) *)
(* ===================================================================== *)

(** What [find_package_path] asks of [pathlib] and of the file system:
    paths are kept as the strings they print as. *)
Record PathLib := mkPathLib {
  module_file : string;                 (* [__file__] *)
  parent : string → string;             (* [Path.parent] *)
  joinpath : string → string → string;  (* the [/] operator *)
  path_exists : string → bool           (* [Path.exists()] *)
}.

(** [s.replace(old, new)] for a non-empty [old]: the occurrences are
    replaced from left to right, without overlap.  [skip] counts the
    characters of a match still to be dropped. *)
Fixpoint replace_from (old new : string) (skip : nat) (s : string) : string :=
  match s with
  | EmptyString => EmptyString
  | String c r =>
      match skip with
      | S k => replace_from old new k r
      | O =>
          if String.prefix old s
          then new +:+ replace_from old new (String.length old - 1) r
          else String c (replace_from old new 0 r)
      end
  end.

Definition replace (old new s : string) : string := replace_from old new 0 s.

(** [find_package_path(package_name)]; [environ] is [os.environ]. *)
Definition find_package_path (lib : PathLib) (environ : gmap string string)
  (package_name : string) : option string :=
  let bundled_path :=
    joinpath lib (joinpath lib (parent lib (module_file lib)) "bundled")
      (replace "mrmd-" EmptyString package_name) in
  if path_exists lib bundled_path then Some bundled_path
  else
    let dev_root :=
      parent lib (parent lib (parent lib (parent lib (module_file lib)))) in
    let sibling_path := joinpath lib dev_root package_name in
    if path_exists lib sibling_path then Some sibling_path
    else
      match environ !! "MRMD_PACKAGES_DIR" with
      | Some env_path =>
          if decide (env_path = EmptyString) then None
          else
            let env_package_path := joinpath lib env_path package_name in
            if path_exists lib env_package_path then Some env_package_path
            else None
      | None => None
      end.

(* ===================================================================== *)
(** ** The file API of the server ([create_app] of [src/mrmd/server.py]) *)
(* ===================================================================== *)

(** An entry of a directory.  An [Unreadable] entry is one whose [stat]
    raises [PermissionError]; [Other] is neither a file nor a directory. *)
Inductive Node :=
  | File (content : string) (st_mtime : Q)
  | Folder
  | Other
  | Unreadable.

(** The documents directory is a map from entry names to nodes;
    [docs_dir] itself may be missing, so the state of the file API is an
    [option (gmap string Node)].  File system calls on an existing
    directory succeed. *)

(** A line feed. *)
Definition newline : string := String "010" EmptyString.

(** [st_size] of a text file: the length of its UTF-8 encoding. *)
Fixpoint st_size (content : string) : Z :=
  match content with
  | EmptyString => 0
  | String c r =>
      (if (nat_of_ascii c <? 128)%nat then 1 else 2) + st_size r
  end.

(** A value of the JSON body: a string, or anything else. *)
Inductive Json :=
  | Str (s : string)
  | NotStr.

(** What a handler answers: its return value, the [HTTPException] it
    raises, or another exception, which it does not catch. *)
Inductive Response (A : Type) :=
  | Responds (a : A)
  | HTTPException (status_code : Z) (detail : string)
  | Unhandled (exception : string).
Arguments Responds {A} a.
Arguments HTTPException {A} status_code detail.
Arguments Unhandled {A} exception.

Record FileEntry := mkFileEntry {
  fe_name : string;
  fe_path : string;
  fe_type : string;
  fe_size : option Z;
  fe_modified : option Q
}.

(** *** Strings and path names *)

Fixpoint lstrip (s : string) : string :=
  match s with
  | EmptyString => EmptyString
  | String c r => if is_space c then lstrip r else s
  end.

(** [s.strip()] *)
Definition strip (s : string) : string := rstrip (lstrip s).

(** The characters of [s] that pass [f], in order. *)
Fixpoint keep (f : ascii → bool) (s : string) : string :=
  match s with
  | EmptyString => EmptyString
  | String c r => if f c then String c (keep f r) else keep f r
  end.

(** [c.isalnum() or c in "-_. "]; [isalnum] is the Unicode data base. *)
Definition allowed (isalnum : ascii → bool) (c : ascii) : bool :=
  isalnum c ||
  bool_decide (c ∈ ["-"; "_"; "."; " "]%char).

(** [s.rfind(c)], scanning from index [i] with [found] the last match so
    far. *)
Fixpoint rfind_from (c : ascii) (s : string) (i : nat) (found : option nat)
  : option nat :=
  match s with
  | EmptyString => found
  | String x r =>
      rfind_from c r (S i) (if Ascii.eqb x c then Some i else found)
  end.

Definition rfind (c : ascii) (s : string) : option nat := rfind_from c s 0 None.

(** [Path.suffix] and [Path.stem] of a name: the last dot splits the name
    unless it is its first or its last character. *)
Definition path_suffix (name : string) : string :=
  match rfind "." name with
  | Some i =>
      if (0 <? i)%nat && (i <? String.length name - 1)%nat
      then substring i (String.length name - i) name
      else EmptyString
  | None => EmptyString
  end.

Definition path_stem (name : string) : string :=
  match rfind "." name with
  | Some i =>
      if (0 <? i)%nat && (i <? String.length name - 1)%nat
      then substring 0 i name
      else name
  | None => name
  end.

(** *** [list_files] *)

(** An item of [sorted(target_dir.iterdir())]: its name, what
    [item.relative_to(base_dir)] prints as ([None]: it raises
    [ValueError]), what it is, and the exception that [is_dir], [is_file]
    or [stat] raise on it, if they raise ([OSError] on a failing disk,
    ...; [None]: they answer as [item_node] says). *)
Record Item := mkItem {
  item_name : string;
  item_relative : option string;
  item_node : Node;
  item_raises : option string
}.

(** The loop of [list_files] over the items still to visit; [entries] is
    the list built so far. *)
Fixpoint list_loop (items : list Item) (entries : list FileEntry)
  : Response (list FileEntry) :=
  match items with
  | [] => Responds entries
  | item :: rest =>
      if String.prefix "." (item_name item) then list_loop rest entries
      else
        match item_relative item with
        | None => Unhandled "ValueError"
        | Some rel_item_path =>
            match item_raises item with
            | Some e =>
                if decide (e = "PermissionError")
                then Responds entries              (* except PermissionError *)
                else Unhandled e
            | None =>
                match item_node item with
                | Unreadable => Responds entries   (* except PermissionError *)
                | Folder =>
                    list_loop rest
                      (entries ++ [mkFileEntry (item_name item) rel_item_path
                                     "directory" None None])
                | File content mtime =>
                    if decide (path_suffix (item_name item) = ".md")
                    then
                      list_loop rest
                        (entries ++ [mkFileEntry (path_stem (item_name item))
                                       rel_item_path "file"
                                       (Some (st_size content)) (Some mtime)])
                    else list_loop rest entries
                | Other => list_loop rest entries
                end
            end
        end
  end.

(** What [list_files] finds at [target_dir]: [exists()] raises (it is
    called outside the [try]), or answers [False]; or
    [sorted(target_dir.iterdir())] raises ([NotADirectoryError] when
    [target_dir] is a file, [PermissionError], ...), or gives the items. *)
Inductive Target :=
  | ExistsRaises (exception : string)
  | Missing
  | IterdirRaises (exception : string)
  | Listing (items : list Item).

(** [list_files(base_dir, rel_path)]. *)
Definition list_files (target : Target) : Response (list FileEntry) :=
  match target with
  | ExistsRaises e => Unhandled e
  | Missing => Responds []
  | IterdirRaises e =>
      if decide (e = "PermissionError")
      then Responds []                             (* except PermissionError *)
      else Unhandled e
  | Listing items => list_loop items []
  end.

(** Paths of one directory are ordered by their names. *)
Definition name_le (x y : string * Node) : Prop := String.leb x.1 y.1 = true.

#[global] Instance name_le_dec (x y : string * Node)
  : Decision (name_le x y) := decide (String.leb x.1 y.1 = true).

(** [sorted(docs_dir.iterdir())], seen from [docs_dir]. *)
Definition iterdir_sorted (d : gmap string Node) : list Item :=
  (λ x, mkItem x.1 (Some x.1) x.2 None) <$> merge_sort name_le (map_to_list d).

(** [GET /api/files?path=...].  A [path] that names a regular file of
    [docs_dir] cannot be listed; [subdir] is what is found at the other
    places that [path] may lead to. *)
Definition get_files (subdir : string → Target)
  (docs_dir path : string) (fs : option (gmap string Node))
  : Response (list FileEntry * string * string) * option (gmap string Node) :=
  let d := default ∅ fs in
  let target :=
    if decide (path = EmptyString) then Listing (iterdir_sorted d)
    else
      match d !! path with
      | Some (File _ _) => IterdirRaises "NotADirectoryError"
      | _ => subdir path
      end in
  (match list_files target with
   | Responds files => Responds (files, path, docs_dir)
   | HTTPException c m => HTTPException c m
   | Unhandled e => Unhandled e
   end, Some d).

(** *** [create_file] *)

(** The content [create_file] writes when the request gives none. *)
Definition default_content (safe_name : string) : string :=
  "# " +:+ safe_name +:+ newline +:+ newline +:+ "Start writing..." +:+ newline.

(** [POST /api/files] with the JSON object [request], at time [now]. *)
Definition create_file (isalnum : ascii → bool) (now : Q)
  (request : gmap string Json) (fs : option (gmap string Node))
  : Response (string * string) * option (gmap string Node) :=
  match default (Str EmptyString) (request !! "name") with
  | NotStr => (Unhandled "AttributeError", fs)
  | Str raw =>
      let name := strip raw in
      if decide (name = EmptyString)
      then (HTTPException 400 "Name is required", fs)
      else
        let safe_name := strip (keep (allowed isalnum) name) in
        if decide (safe_name = EmptyString)
        then (HTTPException 400 "Invalid filename", fs)
        else
          let d := default ∅ fs in
          let file_path := safe_name +:+ ".md" in
          if decide (is_Some (d !! file_path))
          then (HTTPException 409
                  ("File '" +:+ safe_name +:+ "' already exists"), Some d)
          else
            match default (Str (default_content safe_name))
                    (request !! "content") with
            | NotStr => (Unhandled "TypeError", Some d)
            | Str content =>
                (Responds (safe_name, file_path),
                 Some (<[file_path := File content now]> d))
            end
  end.

(* ===================================================================== *)
(** ** The command line entry ([async_main] of [src/mrmd/cli.py]) *)
(* ===================================================================== *)

(** The namespace that [parse_args] returns. *)
Record Args := mkArgs {
  docs : option string;
  port : Z;
  sync_port : Z;
  runtime_port : Z;
  no_browser : bool;
  no_runtime : bool;
  log_level : string
}.

(** What happens around the manager while the event loop runs other
    tasks: a drain task reads, a child exits. *)
Inductive Background :=
  | Reads (t : nat) (stream : list ReadResult)
  | ChildExits (h : nat) (rc : Z).

Definition background (b : Background) : Op :=
  match b with
  | Reads t stream => Drain t stream
  | ChildExits h rc => Exits h rc
  end.

(** What [async_main] meets outside the manager.  The module
    [mrmd.project] is not part of the sources: the results of its
    functions are given.  The banner and the records of the logger of
    [cli.py] are not recorded. *)
Record Session := mkSession {
  project_root : string;              (* [get_project_info()] at "root" *)
  find_docs_dir : string;             (* [find_docs_dir(project_root)] *)
  is_absolute : string → bool;        (* [Path(d).is_absolute()] *)
  under_root : string → string;       (* [str(project_root / Path(d))] *)
  path_str : string → string;         (* [str(Path(d))] *)
  setup_raises : option BaseException;    (* by a statement before [try] *)
  host_at_sync : Host;                (* the host when mrmd-sync starts *)
  while_sleeping : list Background;
  sleep_raises : option BaseException;
  host_at_runtime : Host;             (* the host when mrmd-python starts *)
  while_serving : list Background;
  serving_raises : option BaseException;  (* from the app, the browser, the
                                             server task or a cancellation *)
  final_print_raises : option BaseException;  (* by the [print()] that opens
                                                 the [finally] clause *)
  while_stopping : string → StopEnv
}.

(** An await that hands control to the event loop: [bs] happens, then
    the await returns or raises. *)
Definition suspend (bs : list Background) (ends : option BaseException)
  : M () :=
  modify (run (background <$> bs));;
  match ends with
  | Some e => raise e
  | None => mret ()
  end.

(** [try: body finally: final] *)
Definition try_finally {A} (body : M A) (final : M ()) : M A := λ s,
  match body s with
  | (r, s') =>
      match final s' with
      | (Return _, s'') => (r, s'')
      | (Raise e, s'') => (Raise e, s'')
      end
  end.

(** [print()]: it returns, or raises ([BrokenPipeError] when the
    standard output is closed, ...). *)
Definition print (raises : option BaseException) : M () :=
  match raises with
  | Some e => raise e
  | None => mret ()
  end.

(** The documents directory that [async_main] settles on, as
    [str(docs_dir)] passes it to [mrmd-sync]. *)
Definition docs_dir_of (args : Args) (env : Session) : string :=
  match docs args with
  | Some d =>
      if decide (d = EmptyString) then find_docs_dir env
      else if is_absolute env d then path_str env d else under_root env d
  | None => find_docs_dir env
  end.

(** The callbacks of [async_main] log at debug level and return. *)
Definition log_debug : Callback := λ _, None.

(** [async_main(args)]: its outcome and the manager it leaves. *)
Definition async_main (args : Args) (env : Session)
  : Result () * ProcessManager :=
  match setup_raises env with
  | Some e => (Raise e, __init__)
  | None =>
      let docs_dir := docs_dir_of args env in
      try_finally
        (start_npx_process "mrmd-sync" "mrmd-sync"
           (Some ["--port"; pretty (sync_port args); docs_dir])
           None None (Some log_debug) (host_at_sync env);;
         suspend (while_sleeping env) (sleep_raises env);;
         (if no_runtime args then mret ()
          else
            start_python_process "mrmd-python" "mrmd_python.cli"
              (Some ["--port"; pretty (runtime_port args)])
              (Some (project_root env)) None None (Some log_debug)
              (host_at_runtime env);;
            mret ());;
         suspend (while_serving env) (serving_raises env))
        (print (final_print_raises env);;
         stop_all 5 (while_stopping env))
        __init__
  end.

(* ===================================================================== *)
(** ** Vocabulary of the statements *)
(* ===================================================================== *)

(** Reading of a computation started in [s]: [Q] holds of a normal
    return, [E] of an exception. *)
Definition outcome {A} (m : M A) (s : ProcessManager)
  (Q : A → ProcessManager → Prop) (E : BaseException → ProcessManager → Prop)
  : Prop :=
  match m s with
  | (Return a, s') => Q a s'
  | (Raise e, s') => E e s'
  end.

Definition never : BaseException → ProcessManager → Prop := λ _ _, False.

(** [d] after the lines [ls] have been appended in turn. *)
Definition deque_extend (d : deque) (ls : list string) : deque :=
  foldl (λ d x, deque_append x d) d ls.

Definition extends (d d' : deque) : Prop := ∃ ls, d' = deque_extend d ls.

(** The same buffers, each one only appended to. *)
Definition buffers_extend (b b' : gmap string deque) : Prop :=
  ∀ m, option_Forall2 extends (b !! m) (b' !! m).

(** The last [n] items of a list. *)
Definition last_n {A} (n : nat) (l : list A) : list A :=
  drop (length l - n) l.

(** Every buffer is a deque of capacity 1000 that respects it. *)
Definition buffers_ok (s : ProcessManager) : Prop :=
  ∀ name d, _output_buffers s !! name = Some d →
    maxlen d = _max_output_lines ∧ (length (items d) ≤ maxlen d)%nat.

(** A stream whose first read delivers no line: there is none, or it
    fails, or it is the end of the stream (the empty bytes). *)
Definition quiet (stream : list ReadResult) : Prop :=
  match stream with
  | Line (String _ _) :: _ => False
  | _ => True
  end.

(** What a step that neither starts nor removes anything may change; when
    [q] holds the buffers are not even appended to. *)
Record frame (q : Prop) (s s' : ProcessManager) : Prop := mkFrame {
  frame_processes : _processes s' = _processes s;
  frame_tasks : _output_tasks s' = _output_tasks s;
  frame_objects : length (objects s') = length (objects s);
  frame_buffers : buffers_extend (_output_buffers s) (_output_buffers s');
  frame_quiet : q → _output_buffers s' = _output_buffers s
}.

(** What [stop name] may change. *)
Record stopped (name : string) (q : Prop) (s s' : ProcessManager) : Prop :=
  mkStopped {
  stopped_processes : _processes s' = delete name (_processes s);
  stopped_tasks : ∀ m, m ≠ name → _output_tasks s' !! m = _output_tasks s !! m;
  stopped_objects : length (objects s') = length (objects s);
  stopped_buffers : buffers_extend (_output_buffers s) (_output_buffers s');
  stopped_quiet : q → _output_buffers s' = _output_buffers s
}.

(** What a successful start of [name] changes. *)
Record started (name : string) (s s' : ProcessManager) : Prop := mkStarted {
  started_processes :
    _processes s' = <[name := length (objects s)]> (_processes s);
  started_buffers :
    _output_buffers s' =
    <[name := mkDeque _max_output_lines []]> (_output_buffers s);
  started_tasks :
    _output_tasks s' = <[name := length (loop_tasks s)]> (_output_tasks s);
  started_objects :
    ∃ p, objects s' = objects s ++ [p] ∧ returncode p = None;
  started_loop_tasks :
    ∃ cb, loop_tasks s' =
          loop_tasks s ++ [mkTask name (length (objects s)) cb Running];
  started_events : events s' = events s ++ [EvSpawn (length (objects s))]
}.

(** A failed start leaves only log lines behind, the last one a warning
    or an error. *)
Definition only_logged (s s' : ProcessManager) : Prop :=
  ∃ msgs lvl msg, s' = set_log (λ l, l ++ msgs ++ [(lvl, msg)]) s ∧
                  lvl ≠ INFO.

Definition already_running (name : string) : Level * string :=
  (WARNING, "Process " +:+ name +:+ " already running").

Definition read_error (name : string) (e : Exception) : Level * string :=
  (ERROR, "Error reading output from " +:+ name +:+ ": " +:+ exn_msg e).

(** The start calls among the steps, with the name they start. *)
Definition as_start (op : Op) : option (string * M bool) :=
  match op with
  | StartNode name script_path args cwd env on_output host =>
      Some (name, start_node_process name script_path args cwd env on_output host)
  | StartPython name module args cwd env venv on_output host =>
      Some (name, start_python_process name module args cwd env venv on_output host)
  | StartNpx name package args cwd env on_output host =>
      Some (name, start_npx_process name package args cwd env on_output host)
  | _ => None
  end.

Definition starts (name : string) (op : Op) : bool :=
  match as_start op with
  | Some (name', _) => bool_decide (name' = name)
  | None => false
  end.

Definition spawn_ok (host : Host) : bool :=
  match exec_outcome host with SpawnOk _ => true | SpawnRaises _ => false end.

Definition node_found (host : Host) : bool :=
  match get_node_executable host with inr _ => true | inl _ => false end.

(** The launch itself goes through: the executable is there and the
    operating system creates the child. *)
Definition launch_ok (op : Op) : bool :=
  match op with
  | StartNode _ _ _ _ _ _ host => node_found host && spawn_ok host
  | StartPython _ _ _ _ _ _ _ host => spawn_ok host
  | StartNpx _ _ _ _ _ _ host => spawn_ok host
  | _ => false
  end.

(** The exception [e] is the one that the probe of [start_node_process]
    raised and that neither [except] clause on its way catches: the
    bundled [nodejs] is not importable, [subprocess.run] raised, and what
    it raised is neither a [FileNotFoundError] ([get_node_executable]
    catches it) nor a [RuntimeError] ([start_node_process] does). *)
Definition probe_raises (op : Op) (e : BaseException) : Prop :=
  match op with
  | StartNode _ _ _ _ _ _ host =>
      nodejs_importable host = false ∧
      ∃ e0, node_version_run host = RunRaises e0 ∧ e = Exc e0 ∧
            exn_kind e0 ≠ FileNotFoundError ∧ exn_kind e0 ≠ RuntimeError
  | _ => False
  end.

(** The host that a start call runs on. *)
Definition host_of (op : Op) : option Host :=
  match op with
  | StartNode _ _ _ _ _ _ host => Some host
  | StartPython _ _ _ _ _ _ _ host => Some host
  | StartNpx _ _ _ _ _ _ host => Some host
  | _ => None
  end.

Definition needs_node (op : Op) : bool :=
  match op with StartNode _ _ _ _ _ _ _ => true | _ => false end.

(** Node.js is there: the bundled one, or a [node] on the path that
    answers [--version] with exit status 0. *)
Definition node_available (host : Host) : Prop :=
  nodejs_importable host = true ∨ node_version_run host = Completed 0.

(** Node.js is not there, in one of the ways [get_node_executable]
    provides for: nothing bundled, and the probe exits with an error,
    times out or finds no [node]. *)
Definition node_missing (host : Host) : Prop :=
  nodejs_importable host = false ∧
  match node_version_run host with
  | Completed rc => rc ≠ 0%Z
  | TimeoutExpired | FileNotFound => True
  | RunRaises e => exn_kind e = FileNotFoundError
  end.

(** One [stop] after the other, each with the same timeout. *)
Definition stop_in_turn (timeout : Q) (w : string → StopEnv)
  (names : list string) (s : ProcessManager) : ProcessManager :=
  foldl (λ s name, (stop name timeout (w name) s).2) s names.

(** *** Mutations *)

(** What a run of mutations is allowed to do: whose return code it may
    set, whose entries it may delete, which events it may emit. *)
Record Scope := mkScope {
  may_exit : nat → Prop;
  may_drop : string → Prop;
  may_emit : Event → Prop
}.

(** The single mutations that [stop] and the drain tasks perform. *)
Inductive touch (c : Scope) : ProcessManager → ProcessManager → Prop :=
  | touch_log f s : touch c s (set_log f s)
  | touch_event e s : may_emit c e → touch c s (set_events (λ l, l ++ [e]) s)
  | touch_append name text d s :
      _output_buffers s !! name = Some d →
      touch c s
        (set_output_buffers (<[name := deque_append (rstrip text) d]>) s)
  | touch_done t s : touch c s (set_task_state t Done s).2
  | touch_returncode h rc s :
      may_exit c h → touch c s (set_returncode h rc s).2
  | touch_del_process name s :
      may_drop c name → touch c s (set_processes (delete name) s)
  | touch_del_task name s :
      may_drop c name → touch c s (set_output_tasks (delete name) s).

(** [m] changes the state by such mutations only, whether it returns or
    raises. *)
Definition walks (c : Scope) {A} (m : M A) : Prop :=
  ∀ s0 s, rtc (touch c) s0 s →
    outcome m s (λ _ s', rtc (touch c) s0 s') (λ _ s', rtc (touch c) s0 s').

Definition is_callback (e : Event) : Prop :=
  match e with EvCallback _ _ => True | _ => False end.

(** The scope of a drain task. *)
Definition drain_scope : Scope :=
  mkScope (λ _, False) (λ _, False) is_callback.

(** [m] does so from the state [s0] on. *)
Definition walks_from (c : Scope) (s0 : ProcessManager) {A} (m : M A) : Prop :=
  ∀ s, rtc (touch c) s0 s →
    outcome m s (λ _ s', rtc (touch c) s0 s') (λ _ s', rtc (touch c) s0 s').

(** The event is a signal to the child that [name] is registered for in
    [s] ([terminate], [kill], a wait for its exit), or the cancellation of
    the drain task of [name]. *)
Definition aimed_at (name : string) (s : ProcessManager) (e : Event) : Prop :=
  match e with
  | EvTerminate h | EvKill h | EvWaitFor h _ | EvWait h =>
      _processes s !! name = Some h
  | EvCancel t => _output_tasks s !! name = Some t
  | EvSpawn _ | EvCallback _ _ => False
  end.

(** The scope of [stop name] called in [s]. *)
Definition stop_scope (name : string) (s : ProcessManager) : Scope :=
  mkScope (λ h, _processes s !! name = Some h) (λ n, n = name)
    (λ e, aimed_at name s e ∨ is_callback e).

Definition any_scope : Scope := mkScope (λ _, True) (λ _, True) (λ _, True).

Definition within (c c' : Scope) : Prop :=
  (∀ h, may_exit c h → may_exit c' h) ∧
  (∀ n, may_drop c n → may_drop c' n) ∧
  (∀ e, may_emit c e → may_emit c' e).

(** *** Invariants *)

(** How the three dictionaries and the two object tables hang together. *)
Record wf (s : ProcessManager) : Prop := mkWf {
  wf_handle : ∀ n h, _processes s !! n = Some h → is_Some (objects s !! h);
  wf_distinct : ∀ n1 n2 h,
    _processes s !! n1 = Some h → _processes s !! n2 = Some h → n1 = n2;
  wf_buffer : ∀ n,
    is_Some (_processes s !! n) → is_Some (_output_buffers s !! n);
  wf_task : ∀ n t,
    _output_tasks s !! n = Some t →
    ∃ k, loop_tasks s !! t = Some k ∧ t_name k = n;
  wf_task_process : ∀ n h t k,
    _processes s !! n = Some h → _output_tasks s !! n = Some t →
    loop_tasks s !! t = Some k → t_process k = h;
  wf_task_buffer : ∀ t k,
    loop_tasks s !! t = Some k → is_Some (_output_buffers s !! t_name k);
  wf_clean : ∀ n d x,
    _output_buffers s !! n = Some d → x ∈ items d → rstrip x = x
}.

(** Every registered name has its drain task entry. *)
Definition tidy (s : ProcessManager) : Prop :=
  ∀ n, is_Some (_processes s !! n) → is_Some (_output_tasks s !! n).

(** The callback, if any, returns normally on the stripped line. *)
Definition accepts (cb : option Callback) (line : string) : Prop :=
  line ≠ EmptyString ∧ ∀ f, cb = Some f → f (rstrip line) = None.

(** The events that reach a child or a task: all but the callback calls. *)
Definition is_signal (e : Event) : bool :=
  match e with EvCallback _ _ => false | _ => true end.

Definition signals (l : list Event) : list Event := List.filter is_signal l.

(** What [stop] sends after [terminate] when the child does not exit in
    time. *)
Definition escalation (h : nat) (w : StopEnv) : list Event :=
  match exits_within w with
  | Some _ => []
  | None => if kill_vanished w then [] else [EvKill h; EvWait h]
  end.

(** The return code the child is left with. *)
Definition exit_status (w : StopEnv) : option Z :=
  match exits_within w with
  | Some rc => Some rc
  | None => if kill_vanished w then None else Some (exit_after_kill w)
  end.

(** What a drain task leaves alone. *)
Record undisturbed (s s' : ProcessManager) : Prop := mkUndisturbed {
  und_signals : signals (events s') = signals (events s);
  und_objects : objects s' = objects s;
  und_processes : _processes s' = _processes s;
  und_tasks : _output_tasks s' = _output_tasks s
}.

(** *** The file API and the command line *)

(** [item] is listed as [e]: what one round of the loop of [list_files]
    appends for a readable item. *)
Definition lists (item : Item) (e : FileEntry) : Prop :=
  String.prefix "." (item_name item) = false ∧
  item_raises item = None ∧
  ∃ rel, item_relative item = Some rel ∧
    match item_node item with
    | Folder => e = mkFileEntry (item_name item) rel "directory" None None
    | File content mtime =>
        path_suffix (item_name item) = ".md" ∧
        e = mkFileEntry (path_stem (item_name item)) rel "file"
              (Some (st_size content)) (Some mtime)
    | _ => False
    end.

(** The two services as steps of the manager. *)
Definition session_sync (args : Args) (env : Session) : Op :=
  StartNpx "mrmd-sync" "mrmd-sync"
    (Some ["--port"; pretty (sync_port args); docs_dir_of args env])
    None None (Some log_debug) (host_at_sync env).

Definition session_runtime (args : Args) (env : Session) : Op :=
  StartPython "mrmd-python" "mrmd_python.cli"
    (Some ["--port"; pretty (runtime_port args)])
    (Some (project_root env)) None None (Some log_debug)
    (host_at_runtime env).

(** The steps of the manager that the body of the [try] amounts to. *)
Definition session_body (args : Args) (env : Session) : list Op :=
  session_sync args env :: (background <$> while_sleeping env) ++
  match sleep_raises env with
  | Some _ => []
  | None =>
      (if no_runtime args then [] else [session_runtime args env]) ++
      (background <$> while_serving env)
  end.

(** What the body of [async_main] ends with. *)
Definition session_result (env : Session) : Result () :=
  match sleep_raises env with
  | Some e => Raise e
  | None =>
      match serving_raises env with
      | Some e => Raise e
      | None => Return ()
      end
  end.

(** The children created so far: pid, command line and working
    directory, in the order of their creation. *)
Definition launched (s : ProcessManager)
  : list (Z * list string * option string) :=
  (λ p, (pid p, p_cmd p, p_cwd p)) <$> objects s.

(** The event of a child being created. *)
Definition is_spawn (e : Event) : Prop :=
  match e with EvSpawn _ => True | _ => False end.

(** The child behind handle [h] has a return code. *)
Definition exited (h : nat) (s : ProcessManager) : Prop :=
  ∃ p, objects s !! h = Some p ∧ is_Some (returncode p).

(** Every process object is registered under some name. *)
Definition covered (s : ProcessManager) : Prop :=
  ∀ h, is_Some (objects s !! h) → ∃ n, _processes s !! n = Some h.

(** The signals reach the child: neither [terminate] nor [kill] finds it
    gone. *)
Definition reaches (w : StopEnv) : Prop :=
  terminate_vanished w = false ∧ kill_vanished w = false.

(* ===================================================================== *)
(** ** Sample runs *)
(* ===================================================================== *)

(** [PurePosixPath.__truediv__] on the plain relative names of the
    samples. *)
Definition posix_join (a b : string) : string := a +:+ "/" +:+ b.

Definition host_ok : Host :=
  mkHost true FileNotFound ∅ "linux" "/usr/bin/python3" (SpawnOk 4242)
    posix_join.

(** No nodejs-bin, no [node] on the path, and nothing to execute. *)
Definition host_bare : Host :=
  mkHost false FileNotFound ∅ "linux" "/usr/bin/python3"
    (SpawnRaises (mkException FileNotFoundError "No such file or directory"))
    posix_join.

Definition permission_denied : Exception :=
  mkException PermissionError "[Errno 13] Permission denied: 'node'".

(** No nodejs-bin, and the [node] that the path leads to may not be
    executed. *)
Definition host_denied : Host :=
  mkHost false (RunRaises permission_denied) ∅ "linux" "/usr/bin/python3"
    (SpawnOk 4242) posix_join.

Definition start_sync (on_output : option Callback) : Op :=
  StartNpx "sync" "mrmd-sync" (Some ["--port"; "4444"; "docs"]) None None
    on_output host_ok.

Definition start_runtime (host : Host) : Op :=
  StartPython "runtime" "mrmd_python.cli" (Some ["--port"; "8000"])
    (Some "/project") None None None host.

Definition start_monitor (host : Host) : Op :=
  StartNode "monitor" "monitor.js" None None None None host.

(** [sync] has been started ... *)
Definition s_started : ProcessManager := run_op (start_sync None) __init__.

(** ... and has written two lines. *)
Definition s_two_lines : ProcessManager :=
  run_op (Drain 0 [Line "ready
"; Line "listening on 4444
"]) s_started.

(** The child has exited on its own; the drain task is still suspended in
    [readline] (a grandchild keeps the pipe open). *)
Definition s_exited : ProcessManager := run_op (Exits 0 0) s_two_lines.

(** [sync] and [runtime] both registered. *)
Definition s_both : ProcessManager :=
  run [start_sync None; start_runtime host_ok] __init__.

(** The child exits on SIGTERM within the timeout. *)
Definition graceful : StopEnv := mkStopEnv false [] (Some 0%Z) false (-9).


(** The child is gone when [terminate] is called. *)
Definition vanished : StopEnv := mkStopEnv true [] None false (-9).

(** The child ignores SIGTERM and has to be killed. *)
Definition stubborn : StopEnv := mkStopEnv false [] None false (-9).

(** A callback that fails on the line [boom]. *)
Definition fragile : Callback := λ line,
  if decide (line = "boom") then Some (mkException ValueError "bad line")
  else None.

Definition s_fragile : ProcessManager :=
  run_op (start_sync (Some fragile)) __init__.

(** A second start under the name [sync], through another coroutine. *)
Definition restart_sync : Op :=
  StartNode "sync" "sync.js" None None None None host_ok.

(** Steps that leave [sync] alone. *)
Definition busy : list Op :=
  [Drain 0 [Line "ready
"]; start_runtime host_ok; Exits 0 0; Stop "runtime" 5 stubborn].

(** The process object of [sync] in the sample runs. *)
Definition sync_child : Process :=
  mkProcess 4242 None ["npx"; "mrmd-sync"; "--port"; "4444"; "docs"] None ∅.

(** [str.isalnum] on the ASCII letters and digits. *)
Definition ascii_isalnum (c : ascii) : bool :=
  let n := nat_of_ascii c in
  ((48 <=? n) && (n <=? 57) || (65 <=? n) && (n <=? 90)
   || (97 <=? n) && (n <=? 122))%nat.

(** A request for a note whose name needs cleaning. *)
Definition new_note : gmap string Json :=
  {[ "name" := Str " week/1: plan " ]}.

(** A session with both services, one line of output and a shutdown. *)
Definition plain_args : Args :=
  mkArgs (Some "notes") 8080 4444 8765 true false "info".

Definition plain_session : Session :=
  mkSession "/project" "/project/docs" (λ _, false)
    (λ d, "/project/" +:+ d) (λ d, d) None host_ok [Reads 0 [Line "ready
"]] None host_ok [ChildExits 1 0] None None (λ _, graceful).

(** The same session on a terminal that is gone at shutdown. *)
Definition broken_pipe : BaseException :=
  Exc (mkException OSError "[Errno 32] Broken pipe").

Definition cut_off_session : Session :=
  mkSession "/project" "/project/docs" (λ _, false)
    (λ d, "/project/" +:+ d) (λ d, d) None host_ok [Reads 0 [Line "ready
"]] None host_ok [ChildExits 1 0] None (Some broken_pipe) (λ _, graceful).

(** A documents directory with two notes, a folder and a hidden file. *)
Definition notes_dir : gmap string Node :=
  {[ "b.md" := File "beta" 0; "img" := Folder; "a.md" := File "alpha" 0;
     ".draft.md" := File "" 0 ]}.

Definition notes_listing : list FileEntry :=
  [mkFileEntry "a" "a.md" "file" (Some 5%Z) (Some 0%Q);
   mkFileEntry "b" "b.md" "file" (Some 4%Z) (Some 0%Q);
   mkFileEntry "img" "img" "directory" None None].

(* ===================================================================== *)
(** ** Rules for [outcome] *)
(* ===================================================================== *)

Section Outcome.
Context {A B : Type}.
Implicit Types (Q : A → ProcessManager → Prop)
               (E : BaseException → ProcessManager → Prop).

Lemma outcome_ret (a : A) s Q E : Q a s → outcome (mret a) s Q E.
Proof. done. Qed.

Lemma outcome_raise e s Q E : E e s → outcome (raise e) s Q E.
Proof. done. Qed.

Lemma outcome_gets (f : ProcessManager → A) s Q E :
  Q (f s) s → outcome (gets f) s Q E.
Proof. done. Qed.

Lemma outcome_bind (m : M A) (f : A → M B) s (Q' : B → ProcessManager → Prop) E :
  outcome m s (λ a s', outcome (f a) s' Q' E) E → outcome (m ≫= f) s Q' E.
Proof.
  unfold outcome, mbind, M_bind. by destruct (m s) as [[a|e] s'].
Qed.

Lemma outcome_try (body : M A) handler s Q E :
  outcome body s Q
    (λ e s', match handler e with
             | Some k => outcome k s' Q E
             | None => E e s'
             end) →
  outcome (try_except body handler) s Q E.
Proof.
  unfold outcome, try_except. destruct (body s) as [[a|e] s']; [done|].
  by destruct (handler e).
Qed.

Lemma outcome_mono (m : M A) s Q Q' E E' :
  outcome m s Q E → (∀ a s', Q a s' → Q' a s') → (∀ e s', E e s' → E' e s') →
  outcome m s Q' E'.
Proof.
  unfold outcome. destruct (m s) as [[a|e] s']; auto.
Qed.

Lemma outcome_returns (m : M A) s Q :
  outcome m s Q never → ∃ a s', m s = (Return a, s') ∧ Q a s'.
Proof.
  unfold outcome, never. destruct (m s) as [[a|e] s']; [eauto|done].
Qed.
End Outcome.

Lemma outcome_modify f s (Q : () → ProcessManager → Prop) E :
  Q () (f s) → outcome (modify f) s Q E.
Proof. done. Qed.

(* ===================================================================== *)
(** ** Frames *)
(* ===================================================================== *)

Lemma extends_refl d : extends d d.
Proof. by exists []. Qed.

Lemma extends_trans d1 d2 d3 : extends d1 d2 → extends d2 d3 → extends d1 d3.
Proof.
  intros [l1 ->] [l2 ->]. exists (l1 ++ l2). unfold deque_extend.
  by rewrite foldl_app.
Qed.

Lemma buffers_extend_refl b : buffers_extend b b.
Proof.
  intros m. destruct (b !! m); constructor. apply extends_refl.
Qed.

Lemma buffers_extend_trans b1 b2 b3 :
  buffers_extend b1 b2 → buffers_extend b2 b3 → buffers_extend b1 b3.
Proof.
  intros H12 H23 m. specialize (H12 m). specialize (H23 m).
  destruct H12; inversion H23; subst; constructor.
  eauto using extends_trans.
Qed.

Lemma buffers_extend_append b name x d :
  b !! name = Some d → buffers_extend b (<[name := deque_append x d]> b).
Proof.
  intros Hd m. destruct (decide (name = m)) as [<-|Hne].
  - rewrite lookup_insert_eq, Hd. constructor. by exists [x].
  - rewrite lookup_insert_ne by done. destruct (b !! m); constructor.
    apply extends_refl.
Qed.

Lemma frame_refl q s : frame q s s.
Proof. split; auto using buffers_extend_refl. Qed.

Lemma frame_trans q s1 s2 s3 : frame q s1 s2 → frame q s2 s3 → frame q s1 s3.
Proof.
  intros [P1 T1 O1 B1 Q1] [P2 T2 O2 B2 Q2]. split; try congruence.
  - eauto using buffers_extend_trans.
  - intros Hq. rewrite Q2, Q1; auto.
Qed.

Lemma frame_weaken q s s' : frame True s s' → frame q s s'.
Proof. intros [P T O Bf Qf]. split; auto. Qed.

Lemma frame_set_log q f s : frame q s (set_log f s).
Proof. split; simpl; auto using buffers_extend_refl. Qed.

Lemma frame_set_events q f s : frame q s (set_events f s).
Proof. split; simpl; auto using buffers_extend_refl. Qed.

Lemma frame_set_loop_tasks q f s : frame q s (set_loop_tasks f s).
Proof. split; simpl; auto using buffers_extend_refl. Qed.

Lemma frame_set_returncode q h rc s : frame q s (set_returncode h rc s).2.
Proof.
  split; simpl; auto using buffers_extend_refl.
  destruct (objects s !! h); [|done]. by rewrite length_insert.
Qed.

Create HintDb frame.
#[local] Hint Resolve frame_refl frame_set_log frame_set_events
  frame_set_loop_tasks frame_set_returncode : frame.

(* ===================================================================== *)
(** ** The drain loop leaves the registry alone *)
(* ===================================================================== *)

Lemma frame_line q text rest s s' :
  text ≠ EmptyString →
  frame q s s' → frame (quiet (Line text :: rest)) s s'.
Proof. intros Ht [P T O Bf _]. split; auto. intros Hq. by destruct text. Qed.

(** The loop leaves alone everything but the buffers, the events and the
    log, and a quiet stream leaves the buffers alone too. *)
Lemma read_loop_frame name cb stream s :
  outcome (read_loop name cb stream) s
    (λ _ s', frame (quiet stream) s s') (λ _ s', frame (quiet stream) s s').
Proof.
  revert s. induction stream as [|r rest IH]; intros s.
  { apply outcome_ret. auto with frame. }
  cbn [read_loop]. apply outcome_bind.
  destruct r as [text|e]; [|apply outcome_raise; auto with frame].
  apply outcome_ret. destruct (decide (text = EmptyString)).
  { apply outcome_ret. auto with frame. }
  apply outcome_bind.
  unfold buffer_append, outcome at 1.
  destruct (_output_buffers s !! name) as [d|] eqn:Hd; [|auto with frame].
  set (s1 := set_output_buffers _ s).
  assert (frame False s s1) as F1.
  { split; simpl; auto; [|done]. by apply buffers_extend_append. }
  apply outcome_bind.
  assert (∀ s2, frame False s s2 →
    outcome (read_loop name cb rest) s2
      (λ _ s', frame (quiet (Line text :: rest)) s s')
      (λ _ s', frame (quiet (Line text :: rest)) s s')) as Hrest.
  { intros s2 F2. eapply outcome_mono; [apply IH| |]; cbv beta;
      intros ? s' F; (apply (frame_line False); [done|]);
      (eapply frame_trans; [exact F2|]); destruct F; by split. }
  destruct cb as [cb|].
  - unfold call. apply outcome_bind, outcome_modify.
    assert (frame False s (set_events (λ l, l ++ [EvCallback name (rstrip text)]) s1)) as F2.
    { eapply frame_trans; [exact F1|]. auto with frame. }
    destruct (cb (rstrip text)).
    + apply outcome_raise. by apply (frame_line False).
    + apply outcome_ret. by apply Hrest.
  - apply outcome_ret. by apply Hrest.
Qed.

Lemma resume_frame t stream s :
  outcome (resume t stream) s (λ _ s', frame (quiet stream) s s') never.
Proof.
  unfold outcome at 1, resume.
  destruct (loop_tasks s !! t) as [k|]; [|auto with frame].
  destruct (t_state k); [|auto with frame].
  pose proof (read_loop_frame (t_name k) (t_callback k) stream s) as Hl.
  unfold _read_output, try_except. unfold outcome in Hl.
  destruct (read_loop _ _ _ s) as [[[]|e] s1]; simpl.
  - done.
  - eapply frame_trans; [exact Hl|]. unfold set_task_state; simpl.
    destruct (loop_tasks s1 !! t); auto with frame.
  - destruct e as [|e]; simpl.
    + eapply frame_trans; [exact Hl|]. auto with frame.
    + eapply frame_trans; [exact Hl|].
      eapply frame_trans; [apply frame_set_log|]. auto with frame.
Qed.

(* ===================================================================== *)
(** ** Every path of [stop] *)
(* ===================================================================== *)

Lemma terminate_outcome q h w s :
  outcome (terminate h w) s (λ _ s', frame q s s')
    (λ e s', e = process_lookup_error ∧ s' = s).
Proof. unfold terminate. destruct (terminate_vanished w); [done|]. apply frame_set_events. Qed.

Lemma kill_outcome q h w s :
  outcome (kill h w) s (λ _ s', frame q s s')
    (λ e s', e = process_lookup_error ∧ s' = s).
Proof. unfold kill. destruct (kill_vanished w); [done|]. apply frame_set_events. Qed.

Lemma wait_outcome q h w s :
  outcome (wait h w) s (λ _ s', frame q s s') never.
Proof.
  unfold wait. apply outcome_bind, outcome_modify.
  eapply frame_trans; [apply frame_set_events|]. apply frame_set_returncode.
Qed.

Lemma wait_for_wait_outcome name h timeout w s :
  outcome (wait_for_wait name h timeout w) s
    (λ _ s', frame (quiet (drained w)) s s')
    (λ e s', e = Exc (mkException TimeoutError EmptyString) ∧
             frame (quiet (drained w)) s s').
Proof.
  unfold wait_for_wait. apply outcome_bind, outcome_modify.
  set (s1 := set_events _ s).
  assert (frame (quiet (drained w)) s s1) as F1 by apply frame_set_events.
  apply outcome_bind, outcome_gets, outcome_bind.
  assert (outcome
    (match _output_tasks s1 !! name with
     | Some t => resume t (drained w)
     | None => pass
     end) s1 (λ _ s', frame (quiet (drained w)) s s') never) as Hd.
  { destruct (_output_tasks s1 !! name) as [t|].
    - eapply outcome_mono; [apply resume_frame| |done].
      intros [] s' F. by eapply frame_trans.
    - done. }
  eapply outcome_mono; [exact Hd| |done].
  intros [] s2 F2. cbv beta.
  destruct (exits_within w) as [rc|].
  - eapply frame_trans; [exact F2|]. apply frame_set_returncode.
  - apply outcome_raise. done.
Qed.

Lemma del_processes_outcome name q s0 s :
  is_Some (_processes s0 !! name) → frame q s0 s →
  outcome (del_processes name) s
    (λ _ s', stopped name q s0 (set_output_tasks (delete name) s') ∧
             stopped name q s0 s') never.
Proof.
  intros [h Hh] [P T O Bf Qf]. unfold outcome, del_processes.
  rewrite P, Hh. split; split; simpl; auto; try congruence.
  intros m Hm. by rewrite lookup_delete_ne, T.
Qed.

Lemma frame_stopped name q f s s' :
  frame q s s' →
  stopped name q s (set_log f (set_processes (delete name) s')) ∧
  stopped name q s
    (set_log f (set_processes (delete name) (set_output_tasks (delete name) s'))).
Proof.
  intros [P T O Bf Qf]. split; split; simpl; auto; try congruence.
  intros m Hm. by rewrite lookup_delete_ne, T.
Qed.

(** [stop] returns [True] on every path, and on every path the entry of
    [name] is gone from the registry. *)
Lemma stop_outcome name timeout w s :
  outcome (stop name timeout w) s
    (λ b s', b = true ∧ stopped name (quiet (drained w)) s s') never.
Proof.
  set (q := quiet (drained w)).
  unfold stop, stop_from_wait. apply outcome_bind, outcome_gets.
  destruct (_processes s !! name) as [h|] eqn:Hn.
  2:{ apply outcome_ret. split; [done|]. split; auto using buffers_extend_refl.
      by rewrite delete_id. }
  assert (is_Some (_processes s !! name)) as Hsome by eauto.
  assert (∀ s1, frame q s s1 →
    outcome (del_processes name ;; mret true) s1
      (λ b s', b = true ∧ stopped name q s s') never) as Hdel.
  { intros s1 F1. apply outcome_bind.
    eapply outcome_mono; [by apply (del_processes_outcome name q s)| |done].
    intros [] s' [_ St]. by apply outcome_ret. }
  apply outcome_bind, outcome_gets.
  destruct (p ← objects s !! h; returncode p) as [rc|].
  { apply Hdel, frame_refl. }
  apply outcome_bind, outcome_gets, outcome_bind, outcome_modify.
  set (s0 := set_log _ s).
  assert (frame q s s0) as F0 by apply frame_set_log.
  apply outcome_bind with
    (m := try_except _ _), outcome_try.
  apply outcome_bind.
  eapply outcome_mono; [apply (terminate_outcome q)| |]; cbv beta.
  2:{ intros e s' [-> ->]. simpl.
      eapply outcome_mono; [by apply Hdel| |done].
      intros b s' [-> St]. by apply outcome_ret. }
  intros [] s1 F1. apply outcome_ret.
  assert (frame q s s1) as F1' by (by eapply frame_trans).
  clear F1. apply outcome_bind.
  (* the cleanup that follows the wait *)
  match goal with |- outcome _ _ ?Q1 _ =>
    assert (∀ s2, frame q s s2 → Q1 () s2) as Htail end.
  { intros s2 F2. apply outcome_bind, outcome_gets, outcome_bind.
    destruct (_output_tasks s2 !! name) as [t|] eqn:Ht.
    - apply outcome_bind, outcome_modify, outcome_bind, outcome_try.
      eapply outcome_mono; [apply resume_frame| |done].
      intros [] s3 F3. cbv beta.
      assert (frame q s s3) as F3'.
      { eapply frame_trans; [exact F2|].
        eapply frame_trans; [apply frame_set_events|].
        by apply frame_weaken. }
      assert (_output_tasks s3 !! name = Some t) as Ht3.
      { by rewrite (frame_tasks _ _ _ F3). }
      unfold outcome at 1, del_output_tasks. rewrite Ht3.
      apply outcome_bind. unfold outcome at 1, del_processes.
      cbn [_processes set_output_tasks].
      rewrite (frame_processes _ _ _ F3'), Hn.
      apply outcome_bind, outcome_modify, outcome_ret.
      split; [done|]. by apply frame_stopped.
    - apply outcome_ret, outcome_bind. unfold outcome at 1, del_processes.
      rewrite (frame_processes _ _ _ F2), Hn.
      apply outcome_bind, outcome_modify, outcome_ret.
      split; [done|]. by apply frame_stopped. }
  apply outcome_try.
  eapply outcome_mono; [apply wait_for_wait_outcome| |]; cbv beta.
  { intros [] s2 F2. apply Htail. by eapply frame_trans. }
  intros e s2 [-> F2]. simpl.
  apply outcome_bind, outcome_modify, outcome_try, outcome_bind.
  assert (frame q s (set_log (λ l, l ++ [(WARNING,
            name +:+ " didn't stop gracefully, sending SIGKILL")]) s2)) as F3.
  { eapply frame_trans; [exact F1'|]. eapply frame_trans; [exact F2|].
    apply frame_set_log. }
  eapply outcome_mono; [apply (kill_outcome q)| |]; cbv beta.
  - intros [] s4 F4. eapply outcome_mono; [apply (wait_outcome q)| |done].
    intros [] s5 F5. apply Htail.
    eapply frame_trans; [exact F3|]. by eapply frame_trans.
  - intros e s4 [-> ->]. simpl. apply outcome_ret. by apply Htail.
Qed.

Lemma bind_gets {A B} (f : ProcessManager → A) (k : A → M B) s :
  (gets f ≫= k) s = k (f s) s.
Proof. done. Qed.

Lemma bind_modify {B} f (k : () → M B) s : (modify f ≫= k) s = k () (f s).
Proof. done. Qed.

(** The two early returns, in full. *)
Lemma stop_vanished name timeout w s h :
  _processes s !! name = Some h →
  (p ← objects s !! h; returncode p) = None →
  terminate_vanished w = true →
  stop name timeout w s =
    (Return true,
     set_processes (delete name)
       (set_log (λ l, l ++ [(INFO, "Stopping " +:+ name +:+ " (PID " +:+
                   pretty (default 0%Z (pid <$> objects s !! h)) +:+ ")")]) s)).
Proof.
  intros Hn Hrc Hv.
  unfold stop, stop_from_wait, get_returncode, get_pid, logger.
  rewrite bind_gets, Hn, bind_gets, Hrc, bind_gets, bind_modify.
  unfold mbind at 1, M_bind, try_except, terminate. rewrite Hv.
  unfold mbind at 1, M_bind. simpl.
  unfold mbind at 1, M_bind, del_processes. simpl. by rewrite Hn.
Qed.

Lemma stop_exited name timeout w s h rc :
  _processes s !! name = Some h →
  (p ← objects s !! h; returncode p) = Some rc →
  stop name timeout w s = (Return true, set_processes (delete name) s).
Proof.
  intros Hn Hrc.
  unfold stop, stop_from_wait, get_returncode.
  rewrite bind_gets, Hn, bind_gets, Hrc.
  unfold mbind, M_bind, del_processes. by rewrite Hn.
Qed.

(** Awaiting a cancelled drain task ends it, whatever it was doing. *)
Lemma await_task_outcome t s :
  outcome (await_task t) s
    (λ _ s', frame True s s' ∧ events s' = events s ∧
             ∀ k, loop_tasks s' !! t = Some k → t_state k = Done) never.
Proof.
  unfold outcome, await_task, resume.
  destruct (loop_tasks s !! t) as [k|] eqn:Hk.
  2:{ split_and!; [apply frame_refl|done|]. intros k. by rewrite Hk. }
  destruct (t_state k) eqn:Hst.
  2:{ split_and!; [apply frame_refl|done|]. intros k'. rewrite Hk.
      by intros [= <-]. }
  simpl. rewrite Hk. split_and!.
  - split; simpl; auto using buffers_extend_refl.
  - done.
  - intros k'. simpl. rewrite list_lookup_insert_eq.
    + by intros [= <-].
    + by eapply lookup_lt_Some.
Qed.

(** On the path through the wait, [stop] cancels the drain task, awaits
    it, and drops its entry before it removes the registry entry. *)
Lemma stop_waited name timeout w s h t :
  _processes s !! name = Some h →
  (p ← objects s !! h; returncode p) = None →
  terminate_vanished w = false →
  _output_tasks s !! name = Some t →
  ∃ s', stop name timeout w s = (Return true, s') ∧
        _processes s' !! name = None ∧
        _output_tasks s' !! name = None ∧
        (∀ k, loop_tasks s' !! t = Some k → t_state k = Done) ∧
        EvCancel t ∈ events s'.
Proof.
  intros Hn Hrc Hv Ht.
  set (q := quiet (drained w)).
  enough (outcome (stop name timeout w) s
            (λ b s', b = true ∧ _processes s' !! name = None ∧
                     _output_tasks s' !! name = None ∧
                     (∀ k, loop_tasks s' !! t = Some k → t_state k = Done) ∧
                     EvCancel t ∈ events s') never) as Hout.
  { apply outcome_returns in Hout as (b & s' & Hs & -> & H). eauto. }
  unfold stop, stop_from_wait. apply outcome_bind, outcome_gets. rewrite Hn.
  apply outcome_bind, outcome_gets. rewrite Hrc.
  apply outcome_bind, outcome_gets, outcome_bind, outcome_modify.
  set (s0 := set_log _ s).
  apply outcome_bind with (m := try_except _ _), outcome_try.
  apply outcome_bind. unfold terminate. rewrite Hv.
  apply outcome_modify, outcome_ret.
  set (s1 := set_events _ s0).
  assert (frame q s s1) as F1.
  { eapply frame_trans; [apply frame_set_log|apply frame_set_events]. }
  apply outcome_bind.
  match goal with |- outcome _ _ ?Q1 _ =>
    assert (∀ s2, frame q s s2 → Q1 () s2) as Htail end.
  { intros s2 F2. apply outcome_bind, outcome_gets, outcome_bind.
    rewrite (frame_tasks _ _ _ F2), Ht.
    apply outcome_bind, outcome_modify, outcome_bind, outcome_try.
    eapply outcome_mono; [apply await_task_outcome| |done].
    intros [] s3 (F3 & Hev & Hdone). cbv beta.
    unfold outcome at 1, del_output_tasks.
    rewrite (frame_tasks _ _ _ F3). cbn [_output_tasks set_events].
    rewrite (frame_tasks _ _ _ F2), Ht.
    apply outcome_bind. unfold outcome at 1, del_processes.
    cbn [_processes set_output_tasks].
    rewrite (frame_processes _ _ _ F3). cbn [_processes set_events].
    rewrite (frame_processes _ _ _ F2), Hn.
    apply outcome_bind, outcome_modify, outcome_ret. simpl.
    rewrite !lookup_delete_eq, Hev. simpl. split_and!; try done.
    apply elem_of_app. right. by left. }
  apply outcome_try.
  eapply outcome_mono; [apply wait_for_wait_outcome| |]; cbv beta.
  { intros [] s2 F2. apply Htail. by eapply frame_trans. }
  intros e s2 [-> F2]. simpl.
  apply outcome_bind, outcome_modify, outcome_try, outcome_bind.
  assert (frame q s (set_log (λ l, l ++ [(WARNING,
            name +:+ " didn't stop gracefully, sending SIGKILL")]) s2)) as F3.
  { eapply frame_trans; [exact F1|]. eapply frame_trans; [exact F2|].
    apply frame_set_log. }
  eapply outcome_mono; [apply (kill_outcome q)| |]; cbv beta.
  - intros [] s4 F4. eapply outcome_mono; [apply (wait_outcome q)| |done].
    intros [] s5 F5. apply Htail.
    eapply frame_trans; [exact F3|]. by eapply frame_trans.
  - intros e s4 [-> ->]. simpl. apply outcome_ret. by apply Htail.
Qed.




(* ===================================================================== *)
(** ** The three start coroutines *)
(* ===================================================================== *)

Lemma spawn_and_register_outcome name cmd cwd env cb host s :
  outcome (spawn_and_register name cmd cwd env cb host) s
    (λ b s', if spawn_ok host then b = true ∧ started name s s'
             else b = false ∧ only_logged s s') never.
Proof.
  unfold spawn_and_register, create_subprocess_exec, spawn_ok, outcome.
  destruct (exec_outcome host) as [child|e]; simpl.
  - split; [done|]. split; simpl; eauto.
  - split; [done|]. exists [], ERROR. eexists. split; [reflexivity|done].
Qed.

(** [get_node_executable] raises its own [RuntimeError], or what the
    probe raised when that is no [FileNotFoundError]. *)
Lemma get_node_executable_error host e :
  get_node_executable host = inl e →
  e = node_not_found ∨
  nodejs_importable host = false ∧ node_version_run host = RunRaises e ∧
  exn_kind e ≠ FileNotFoundError.
Proof.
  unfold get_node_executable.
  destruct (nodejs_importable host); [done|].
  destruct (node_version_run host) as [rc| | |e0].
  - destruct (decide (rc = 0%Z)); intros; simplify_eq; auto.
  - intros; simplify_eq; auto.
  - intros; simplify_eq; auto.
  - destruct (exn_kind e0) eqn:K; intros; simplify_eq; auto;
      right; repeat split; congruence.
Qed.

Lemma started_after_log name f s s' :
  started name (set_log f s) s' → started name s s'.
Proof. intros []. by split. Qed.

Lemma only_logged_after_log line s s' :
  only_logged (set_log (λ l, l ++ [line]) s) s' → only_logged s s'.
Proof.
  intros (msgs & lvl & msg & -> & Hl). exists (line :: msgs), lvl, msg.
  split; [|done]. unfold set_log; simpl. by rewrite <- app_assoc.
Qed.

(** The three start coroutines behave alike: a name in use is refused
    with a warning and nothing else happens; otherwise the call succeeds
    exactly when the launch does, and a failed launch leaves log lines
    only.  The one exception that comes out is the one that the probe of
    [start_node_process] raised; the state is then as it was. *)
Lemma start_outcome op name m s :
  as_start op = Some (name, m) →
  outcome m s
    (λ b s',
       if decide (is_Some (_processes s !! name)) then
         b = false ∧ s' = set_log (λ l, l ++ [already_running name]) s
       else if launch_ok op then b = true ∧ started name s s'
       else b = false ∧ only_logged s s')
    (λ e s', _processes s !! name = None ∧ launch_ok op = false ∧ s' = s ∧
             probe_raises op e).
Proof.
  intros Hop.
  assert (∀ cmd cwd env cb host line,
    outcome (logger INFO line;; spawn_and_register name cmd cwd env cb host) s
      (λ b s', if spawn_ok host then b = true ∧ started name s s'
               else b = false ∧ only_logged s s') never) as Hlaunch.
  { intros. apply outcome_bind, outcome_modify.
    eapply outcome_mono; [apply spawn_and_register_outcome| |done].
    intros b s'. destruct (spawn_ok host); intros [-> H]; split; auto.
    - by eapply started_after_log.
    - by eapply only_logged_after_log. }
  destruct op; simplify_eq/=.
  - unfold start_node_process. apply outcome_bind, outcome_gets.
    destruct (decide (is_Some (_processes s !! name))) as [|Hfree]; [done|].
    unfold node_found.
    destruct (get_node_executable host) as [e|node] eqn:Hnode; simpl.
    + destruct (get_node_executable_error _ _ Hnode) as [->|(Hi & Hrun & Hk)].
      * simpl. apply outcome_bind, outcome_modify, outcome_ret.
        split; [done|]. exists [], ERROR, (exn_msg node_not_found). done.
      * destruct (exn_kind e) eqn:K;
          try (unfold outcome; simpl; split; [by apply eq_None_not_Some|];
               do 3 (split; [done|]); exists e; rewrite K; done).
        apply outcome_bind, outcome_modify, outcome_ret.
        split; [done|]. exists [], ERROR, (exn_msg e). done.
    + eapply outcome_mono; [apply Hlaunch|done|done].
  - unfold start_python_process. apply outcome_bind, outcome_gets.
    destruct (decide (is_Some (_processes s !! name))); [done|].
    eapply outcome_mono; [apply Hlaunch|done|done].
  - unfold start_npx_process. apply outcome_bind, outcome_gets.
    destruct (decide (is_Some (_processes s !! name))); [done|].
    eapply outcome_mono; [apply Hlaunch|done|done].
Qed.

(* ===================================================================== *)
(** ** A registered name stays registered *)
(* ===================================================================== *)

Lemma run_op_start op name m s :
  as_start op = Some (name, m) → run_op op s = (m s).2.
Proof. destruct op; intros; by simplify_eq/=. Qed.

Lemma stop_returns name timeout w s :
  ∃ s', stop name timeout w s = (Return true, s') ∧
        stopped name (quiet (drained w)) s s'.
Proof.
  destruct (outcome_returns _ _ _ (stop_outcome name timeout w s))
    as (b & s' & Hs & -> & St). eauto.
Qed.

Lemma start_returns op name m s :
  as_start op = Some (name, m) →
  ∃ r s', m s = (r, s') ∧
    if decide (is_Some (_processes s !! name)) then
      r = Return false ∧ s' = set_log (λ l, l ++ [already_running name]) s
    else if launch_ok op then r = Return true ∧ started name s s'
    else r ≠ Return true ∧ (s' = s ∨ only_logged s s').
Proof.
  intros Hop. pose proof (start_outcome op name m s Hop) as H.
  unfold outcome in H. destruct (m s) as [[b|e] s'] eqn:Hm.
  - exists (Return b), s'. split; [done|].
    destruct (decide (is_Some (_processes s !! name))).
    + by destruct H as [-> ->].
    + destruct (launch_ok op); destruct H as [-> H]; auto.
  - exists (Raise e), s'. split; [done|].
    destruct H as (Hfree & Hl & -> & _).
    destruct (decide (is_Some (_processes s !! name))) as [[h Hh]|_];
      [congruence|].
    rewrite Hl. auto.
Qed.

(** [start_python_process] and [start_npx_process] always return. *)
Lemma start_returns_bool op name m s :
  as_start op = Some (name, m) →
  needs_node op = false →
  ∃ b s', m s = (Return b, s') ∧
    if decide (is_Some (_processes s !! name)) then
      b = false ∧ s' = set_log (λ l, l ++ [already_running name]) s
    else if launch_ok op then b = true ∧ started name s s'
    else b = false ∧ only_logged s s'.
Proof.
  intros Hop Hnode. pose proof (start_outcome op name m s Hop) as H.
  unfold outcome in H. destruct (m s) as [[b|e] s']; [eauto|].
  destruct H as (_ & _ & _ & Hp). by destruct op.
Qed.

(** A step that does not stop [name] leaves its registry entry as it is. *)
Lemma run_op_keeps_entry name h op s :
  stops name op = false →
  _processes s !! name = Some h →
  _processes (run_op op s) !! name = Some h.
Proof.
  intros Hstop Hh.
  destruct (as_start op) as [[name' m]|] eqn:Hop.
  { rewrite (run_op_start _ _ _ _ Hop).
    destruct (start_returns _ _ _ s Hop) as (b & s' & -> & H). simpl.
    destruct (decide (is_Some (_processes s !! name'))) as [_|Hfree].
    - by destruct H as [_ ->].
    - destruct (launch_ok op).
      + destruct H as [_ St]. rewrite (started_processes _ _ _ St).
        rewrite lookup_insert_ne; [done|]. intros ->. apply Hfree. eauto.
      + by destruct H as [_ [->|(? & ? & ? & -> & _)]]. }
  destruct op; simplify_eq/=.
  - destruct (stop_returns name0 timeout w s) as (s' & -> & St).
    simpl. rewrite (stopped_processes _ _ _ _ St), lookup_delete_ne; [done|].
    intros ->. by rewrite bool_decide_eq_true_2 in Hstop.
  - destruct (outcome_returns _ _ _ (resume_frame t stream s))
      as ([] & s' & -> & F). simpl. by rewrite (frame_processes _ _ _ F).
  - destruct (objects s !! h0) as [[? [?|] ? ? ?]|]; done.
Qed.

Lemma run_keeps_entry name h ops s :
  Forall (λ op, stops name op = false) ops →
  _processes s !! name = Some h →
  _processes (run ops s) !! name = Some h.
Proof.
  intros Hops. revert s. induction Hops as [|op ops Hop _ IH]; intros s Hh.
  - done.
  - apply IH. by apply run_op_keeps_entry.
Qed.

(** C1.  Once a start of [n] has returned [True], and as long as no step
    stops [n] (neither [stop n] nor [stop_all]), any further start of [n]
    (whichever of the three coroutines) returns [False], changes nothing
    but the log, to which it adds the warning, so that no process object
    and no spawn event appear, and the registry still maps [n] to the
    process object that the first call created. *)
Theorem second_start_is_refused (s0 : ProcessManager) (first second : Op)
    (n : string) (m1 m2 : M bool) (ops : list Op) :
  as_start first = Some (n, m1) →
  (m1 s0).1 = Return true →
  Forall (λ op, stops n op = false) ops →
  as_start second = Some (n, m2) →
  let s1 := run_op first s0 in
  let s2 := run ops s1 in
  _processes s1 !! n = Some (length (objects s0)) ∧
  length (objects s1) = S (length (objects s0)) ∧
  m2 s2 = (Return false, set_log (λ l, l ++ [already_running n]) s2) ∧
  objects (run_op second s2) = objects s2 ∧
  events (run_op second s2) = events s2 ∧
  _processes (run_op second s2) !! n = Some (length (objects s0)).
Proof.
  intros H1 Hok Hops H2 s1 s2.
  assert (_processes s1 !! n = Some (length (objects s0)) ∧
          length (objects s1) = S (length (objects s0))) as [Hs1 Hlen].
  { subst s1. rewrite (run_op_start _ _ _ _ H1).
    destruct (start_returns _ _ _ s0 H1) as (b & s' & Hm & H).
    rewrite Hm in Hok |- *. simpl in *. simplify_eq.
    destruct (decide (is_Some (_processes s0 !! n))); [by destruct H|].
    destruct (launch_ok first); [|by destruct H].
    destruct H as [_ St]. rewrite (started_processes _ _ _ St).
    destruct (started_objects _ _ _ St) as (p & -> & _).
    rewrite lookup_insert_eq, length_app. simpl. split; [done|lia]. }
  assert (_processes s2 !! n = Some (length (objects s0))) as Hs2
    by (by apply run_keeps_entry).
  assert (m2 s2 = (Return false, set_log (λ l, l ++ [already_running n]) s2))
    as Hm2.
  { destruct (start_returns _ _ _ s2 H2) as (b & s' & -> & H).
    destruct (decide (is_Some (_processes s2 !! n))) as [_|Hno].
    - by destruct H as [-> ->].
    - destruct Hno. eauto. }
  rewrite (run_op_start _ _ _ _ H2), Hm2. done.
Qed.


(* ===================================================================== *)
(** ** Stopping everything *)
(* ===================================================================== *)

Lemma stop_in_turn_cons timeout w n names s :
  stop_in_turn timeout w (n :: names) s =
  stop_in_turn timeout w names (stop n timeout (w n) s).2.
Proof. done. Qed.

Lemma stop_each_in_turn timeout w names s :
  stop_each names timeout w s = (Return (), stop_in_turn timeout w names s).
Proof.
  revert s. induction names as [|n names IH]; intros s; [done|].
  rewrite stop_in_turn_cons. cbn [stop_each]. unfold mbind, M_bind.
  destruct (stop_returns n timeout (w n) s) as (s' & -> & _). apply IH.
Qed.

Lemma stop_in_turn_processes timeout w names s k :
  _processes (stop_in_turn timeout w names s) !! k =
  if decide (k ∈ names) then None else _processes s !! k.
Proof.
  revert s. induction names as [|n names IH]; intros s; [done|].
  rewrite stop_in_turn_cons, IH.
  destruct (stop_returns n timeout (w n) s) as (s' & -> & St). simpl.
  rewrite (stopped_processes _ _ _ _ St).
  destruct (decide (k ∈ names)) as [Hin|Hnin].
  - rewrite decide_True; [done|]. by right.
  - destruct (decide (k = n)) as [->|Hne].
    + rewrite lookup_delete_eq, decide_True; [done|]. by left.
    + rewrite lookup_delete_ne, decide_False; [done| |done].
      intros [?|?]%elem_of_cons; done.
Qed.

Lemma start_on_free_name op name m s :
  as_start op = Some (name, m) → _processes s !! name = None →
  launch_ok op = true → (m s).1 = Return true.
Proof.
  intros Hop Hfree Hok.
  destruct (start_returns _ _ _ s Hop) as (b & s' & -> & H).
  rewrite Hfree, Hok in H. rewrite decide_False in H by by intros [? ?].
  by destruct H as [-> _].
Qed.

Lemma registered_names s n :
  n ∈ (map_to_list (_processes s)).*1 ↔ is_Some (_processes s !! n).
Proof.
  rewrite list_elem_of_fmap. split.
  - intros ([n' h] & -> & Hin%elem_of_map_to_list). eauto.
  - intros [h Hh]. exists (n, h). by rewrite elem_of_map_to_list.
Qed.

Lemma stop_all_returns timeout w s :
  let s' := stop_in_turn timeout w (map_to_list (_processes s)).*1 s in
  stop_all timeout w s = (Return (), s') ∧ _processes s' = ∅.
Proof.
  intros s'. split.
  - unfold stop_all, mbind, M_bind, gets. apply stop_each_in_turn.
  - apply map_eq. intros k. subst s'.
    rewrite stop_in_turn_processes, lookup_empty.
    destruct (decide (k ∈ _)) as [|Hnin]; [done|].
    rewrite registered_names in Hnin. by apply eq_None_not_Some.
Qed.

(** C7.  [stop_all timeout] returns normally; its effect is that of
    [stop name timeout], run for one registered name after the other with
    the same timeout, each name once; afterwards the registry is empty,
    [get_status] is the empty mapping, and a start under any name goes
    through whenever its launch does. *)
Theorem stop_all_empties_registry (timeout : Q) (w : string → StopEnv)
    (s : ProcessManager) :
  let names := (map_to_list (_processes s)).*1 in
  let s' := stop_in_turn timeout w names s in
  stop_all timeout w s = (Return (), s') ∧
  NoDup names ∧
  (∀ n, n ∈ names ↔ is_Some (_processes s !! n)) ∧
  _processes s' = ∅ ∧
  get_status s' = ∅ ∧
  (∀ op n m, as_start op = Some (n, m) → launch_ok op = true →
             (m s').1 = Return true).
Proof.
  intros names s'. subst names s'.
  destruct (stop_all_returns timeout w s) as [Hall Hempty].
  split_and!.
  - done.
  - apply NoDup_fst_map_to_list.
  - apply registered_names.
  - done.
  - unfold get_status. rewrite Hempty. apply map_imap_empty.
  - intros op n m Hop Hok. apply (start_on_free_name op n); [done| |done].
    by rewrite Hempty.
Qed.

(** C6.  After [stop n t] has returned [True], [is_running n] is [False]
    and a start under the same name, by any of the three coroutines,
    returns [True] whenever its launch goes through (executable found,
    child created): the name is never what makes it fail. *)
Theorem stop_frees_the_name (n : string) (t : Q) (w : StopEnv)
    (s s' : ProcessManager) :
  stop n t w s = (Return true, s') →
  is_running n s' = false ∧
  ∀ op m, as_start op = Some (n, m) → launch_ok op = true →
          (m s').1 = Return true.
Proof.
  intros Hstop.
  destruct (stop_returns n t w s) as (s'' & Hs & St).
  rewrite Hs in Hstop. injection Hstop as ->.
  assert (_processes s' !! n = None) as Hfree.
  { by rewrite (stopped_processes _ _ _ _ St), lookup_delete_eq. }
  split.
  - unfold is_running. by rewrite Hfree.
  - intros op m Hop Hok. by apply (start_on_free_name op n).
Qed.


(* ===================================================================== *)
(** ** Names the registry does not hold *)
(* ===================================================================== *)

Lemma stop_unknown name timeout w s :
  _processes s !! name = None → stop name timeout w s = (Return true, s).
Proof.
  intros Hn. unfold stop, stop_from_wait, mbind, M_bind, gets. by rewrite Hn.
Qed.

Lemma run_op_keeps_unknown name op s :
  starts name op = false →
  _processes s !! name = None →
  _processes (run_op op s) !! name = None.
Proof.
  intros Hstart Hn. unfold starts in Hstart.
  destruct (as_start op) as [[name' m]|] eqn:Hop.
  { rewrite (run_op_start _ _ _ _ Hop).
    destruct (start_returns _ _ _ s Hop) as (b & s' & -> & H). simpl.
    destruct (decide (is_Some (_processes s !! name'))).
    - by destruct H as [_ ->].
    - destruct (launch_ok op).
      + destruct H as [_ St]. rewrite (started_processes _ _ _ St).
        rewrite lookup_insert_ne; [done|]. intros ->.
        by rewrite bool_decide_eq_true_2 in Hstart.
      + by destruct H as [_ [->|(? & ? & ? & -> & _)]]. }
  destruct op; simplify_eq/=.
  - destruct (stop_returns name0 timeout w s) as (s' & -> & St).
    simpl. rewrite (stopped_processes _ _ _ _ St), lookup_delete.
    by case_decide.
  - destruct (stop_all_returns timeout w s) as [-> He]. simpl.
    by rewrite He.
  - destruct (outcome_returns _ _ _ (resume_frame t stream s))
      as ([] & s' & -> & F). simpl. by rewrite (frame_processes _ _ _ F).
  - destruct (objects s !! h) as [[? [?|] ? ? ?]|]; done.
Qed.

Lemma run_keeps_unknown name ops s :
  Forall (λ op, starts name op = false) ops →
  _processes s !! name = None →
  _processes (run ops s) !! name = None.
Proof.
  intros Hops. revert s. induction Hops as [|op ops Hop _ IH]; intros s Hn.
  - done.
  - apply IH. by apply run_op_keeps_unknown.
Qed.

(** C8.  [stop n t] on a name that the registry does not hold returns
    [True] and leaves the whole state as it is: registry, buffers, drain
    tasks, process objects, log and events (so no signal is sent).  The
    registry does not hold [n] when no step of the history started [n],
    and when [n] has just been stopped. *)
Theorem stop_of_unknown_name_is_noop (n : string) (t : Q) (w : StopEnv) :
  (∀ s, _processes s !! n = None → stop n t w s = (Return true, s)) ∧
  (∀ ops, Forall (λ op, starts n op = false) ops →
     stop n t w (run ops __init__) = (Return true, run ops __init__)) ∧
  (∀ s t0 w0, stop n t w (stop n t0 w0 s).2 = (Return true, (stop n t0 w0 s).2)).
Proof.
  split_and!.
  - intros s. apply stop_unknown.
  - intros ops Hops. apply stop_unknown. by apply run_keeps_unknown.
  - intros s t0 w0. apply stop_unknown.
    destruct (stop_returns n t0 w0 s) as (s' & -> & St). simpl.
    by rewrite (stopped_processes _ _ _ _ St), lookup_delete_eq.
Qed.

Lemma start_collision op name m s :
  as_start op = Some (name, m) →
  is_Some (_processes s !! name) →
  m s = (Return false, set_log (λ l, l ++ [already_running name]) s).
Proof.
  intros Hop Hin. destruct (start_returns _ _ _ s Hop) as (r & s' & -> & H).
  rewrite decide_True in H by done. by destruct H as [-> ->].
Qed.

Lemma get_node_executable_available host :
  node_available host → get_node_executable host = inr "node".
Proof.
  unfold get_node_executable. intros [Hi|Hrun].
  - by rewrite Hi.
  - destruct (nodejs_importable host); [done|]. by rewrite Hrun.
Qed.

Lemma get_node_executable_missing host :
  node_missing host → get_node_executable host = inl node_not_found.
Proof.
  unfold get_node_executable. intros [-> Hrun].
  destruct (node_version_run host) as [rc| | |e]; try done.
  - by rewrite decide_False.
  - by rewrite Hrun.
Qed.

Lemma start_node_process_missing name script_path args cwd env cb host s :
  node_missing host →
  _processes s !! name = None →
  start_node_process name script_path args cwd env cb host s =
  (Return false, set_log (λ l, l ++ [(ERROR, exn_msg node_not_found)]) s).
Proof.
  intros Hm Hfree. unfold start_node_process.
  rewrite bind_gets, decide_False by (rewrite Hfree; by intros [? ?]).
  by rewrite (get_node_executable_missing _ Hm).
Qed.

Lemma start_node_process_probe name script_path args cwd env cb host e s :
  nodejs_importable host = false →
  node_version_run host = RunRaises e →
  exn_kind e ≠ FileNotFoundError →
  exn_kind e ≠ RuntimeError →
  _processes s !! name = None →
  start_node_process name script_path args cwd env cb host s = (Raise (Exc e), s).
Proof.
  intros Hi Hrun Hf Hr Hfree. unfold start_node_process.
  rewrite bind_gets, decide_False by (rewrite Hfree; by intros [? ?]).
  unfold get_node_executable. rewrite Hi, Hrun.
  by destruct (exn_kind e) eqn:K; rewrite ?K.
Qed.

Lemma set_log_twice a b s :
  set_log (λ l, l ++ [b]) (set_log (λ l, l ++ [a]) s) =
  set_log (λ l, l ++ [a; b]) s.
Proof. unfold set_log; simpl. by rewrite <- app_assoc. Qed.

Lemma spawn_and_register_fails name cmd cwd env cb host e s :
  exec_outcome host = SpawnRaises e →
  spawn_and_register name cmd cwd env cb host s =
  (Return false,
   set_log (λ l, l ++ [(ERROR, "Failed to start " +:+ name +:+ ": " +:+
                                exn_msg e)]) s).
Proof.
  intros Hx. unfold spawn_and_register, create_subprocess_exec, try_except.
  by rewrite Hx.
Qed.

(** A spawn that fails: the line that announces the start, the error,
    and [False]. *)
Lemma start_spawn_fails op name m host e s :
  as_start op = Some (name, m) →
  host_of op = Some host →
  (needs_node op = true → node_available host) →
  exec_outcome host = SpawnRaises e →
  _processes s !! name = None →
  ∃ line, m s =
    (Return false,
     set_log (λ l, l ++ [(INFO, line);
                         (ERROR, "Failed to start " +:+ name +:+ ": " +:+
                                 exn_msg e)]) s).
Proof.
  intros Hop Hh Hnode Hx Hfree.
  assert (¬ is_Some (_processes s !! name)) as Hno
    by (rewrite Hfree; by intros [? ?]).
  destruct op; simplify_eq/=.
  - unfold start_node_process. rewrite bind_gets, decide_False by done.
    rewrite (get_node_executable_available _ (Hnode eq_refl)).
    cbv zeta. unfold logger. rewrite bind_modify.
    rewrite (spawn_and_register_fails _ _ _ _ _ _ e) by done.
    eexists. by rewrite set_log_twice.
  - unfold start_python_process. rewrite bind_gets, decide_False by done.
    cbv zeta. unfold logger. rewrite bind_modify.
    rewrite (spawn_and_register_fails _ _ _ _ _ _ e) by done.
    eexists. by rewrite set_log_twice.
  - unfold start_npx_process. rewrite bind_gets, decide_False by done.
    cbv zeta. unfold logger. rewrite bind_modify.
    rewrite (spawn_and_register_fails _ _ _ _ _ _ e) by done.
    eexists. by rewrite set_log_twice.
Qed.

(** A start returns, or raises what the probe raised. *)
Lemma start_returns_or_probe op name m s :
  as_start op = Some (name, m) →
  (∃ b s', m s = (Return b, s')) ∨
  (∃ e, probe_raises op e ∧ _processes s !! name = None ∧ m s = (Raise e, s)).
Proof.
  intros Hop. pose proof (start_outcome op name m s Hop) as H.
  unfold outcome in H. destruct (m s) as [[b|e] s'].
  - left. eauto.
  - right. destruct H as (Hfree & _ & -> & Hp). eauto.
Qed.

(** When [stop] goes on after its [await] and finds the registry without
    the name and without its drain task (another [stop] of the name has
    run to its end meanwhile), the [del] of the registry entry raises. *)
Lemma stop_from_wait_unregistered name h timeout w s :
  _processes s !! name = None →
  _output_tasks s !! name = None →
  ∃ s', stop_from_wait name h timeout w s =
        (Raise (Exc (mkException KeyError name)), s').
Proof.
  intros Hn Ht.
  enough (outcome (stop_from_wait name h timeout w) s (λ _ _, False)
            (λ e _, e = Exc (mkException KeyError name))) as Hout.
  { unfold outcome in Hout.
    destruct (stop_from_wait name h timeout w s) as [[b|e] s']; [done|].
    subst e. eauto. }
  set (q := quiet (drained w)).
  unfold stop_from_wait. apply outcome_bind.
  match goal with |- outcome _ _ ?Q1 _ =>
    assert (∀ s2, frame q s s2 → Q1 () s2) as Htail end.
  { intros s2 F2. apply outcome_bind, outcome_gets, outcome_bind.
    rewrite (frame_tasks _ _ _ F2), Ht.
    apply outcome_ret, outcome_bind. unfold outcome at 1, del_processes.
    by rewrite (frame_processes _ _ _ F2), Hn. }
  apply outcome_try.
  eapply outcome_mono; [apply wait_for_wait_outcome| |]; cbv beta.
  { intros [] s2 F2. by apply Htail. }
  intros e s2 [-> F2]. simpl.
  apply outcome_bind, outcome_modify, outcome_try, outcome_bind.
  assert (frame q s (set_log (λ l, l ++ [(WARNING,
            name +:+ " didn't stop gracefully, sending SIGKILL")]) s2)) as F3.
  { eapply frame_trans; [exact F2|]. apply frame_set_log. }
  eapply outcome_mono; [apply (kill_outcome q)| |]; cbv beta.
  - intros [] s4 F4. eapply outcome_mono; [apply (wait_outcome q)| |done].
    intros [] s5 F5. apply Htail.
    eapply frame_trans; [exact F3|]. by eapply frame_trans.
  - intros e s4 [-> ->]. simpl. apply outcome_ret. by apply Htail.
Qed.

(** C9.  [start_node_process] lets through what the probe
    [subprocess.run(["node", "--version"])] raises when that is neither a
    timeout nor a [FileNotFoundError]: on a host where the [node] found on
    the path may not be executed the call raises [PermissionError], with
    nothing logged.  That is the one way in which a start coroutine that
    runs without another call for its name in between raises: it returns
    otherwise, [False] with the warning logged when the name is in use,
    [False] with the error of [get_node_executable] logged when Node.js is
    missing in one of the ways that function provides for, [False] with
    the failure logged when the spawn raises; [start_python_process] and
    [start_npx_process] always return.  [stop] and [stop_all], run in one
    piece, return normally, and a child that is gone when [terminate] is
    called makes [stop] return [True] with its entry removed and no signal
    sent.  A [stop] that resumes from its [await] after another [stop] of
    the same name has removed the entries raises [KeyError]. *)
Theorem start_node_process_lets_the_probe_raise :
  start_node_process "monitor" "monitor.js" None None None None
    host_denied s_started = (Raise (Exc permission_denied), s_started) ∧
  (∀ name script_path args cwd env cb host e s,
     nodejs_importable host = false →
     node_version_run host = RunRaises e →
     exn_kind e ≠ FileNotFoundError → exn_kind e ≠ RuntimeError →
     _processes s !! name = None →
     start_node_process name script_path args cwd env cb host s =
       (Raise (Exc e), s)) ∧
  (∀ op n m s, as_start op = Some (n, m) →
     (∃ b s', m s = (Return b, s')) ∨
     (∃ e, probe_raises op e ∧ _processes s !! n = None ∧
           m s = (Raise e, s))) ∧
  (∀ op n m s, as_start op = Some (n, m) →
     is_Some (_processes s !! n) →
     m s = (Return false, set_log (λ l, l ++ [already_running n]) s)) ∧
  (∀ name script_path args cwd env cb host s,
     node_missing host →
     _processes s !! name = None →
     start_node_process name script_path args cwd env cb host s =
       (Return false,
        set_log (λ l, l ++ [(ERROR, exn_msg node_not_found)]) s)) ∧
  (∀ op n m host e s, as_start op = Some (n, m) →
     host_of op = Some host →
     (needs_node op = true → node_available host) →
     exec_outcome host = SpawnRaises e →
     _processes s !! n = None →
     ∃ line, m s =
       (Return false,
        set_log (λ l, l ++ [(INFO, line);
                            (ERROR, "Failed to start " +:+ n +:+ ": " +:+
                                    exn_msg e)]) s)) ∧
  (∀ n t w s, ∃ s', stop n t w s = (Return true, s')) ∧
  (∀ t w s, ∃ s', stop_all t w s = (Return (), s')) ∧
  (∀ n t w s h,
     _processes s !! n = Some h →
     (p ← objects s !! h; returncode p) = None →
     terminate_vanished w = true →
     ∃ s', stop n t w s = (Return true, s') ∧ _processes s' !! n = None ∧
           events s' = events s) ∧
  (∀ n h t w s,
     _processes s !! n = None → _output_tasks s !! n = None →
     ∃ s', stop_from_wait n h t w s =
           (Raise (Exc (mkException KeyError n)), s')).
Proof.
  split_and!.
  - apply start_node_process_probe; by vm_compute.
  - intros. by apply start_node_process_probe.
  - intros op n m s Hop. by apply (start_returns_or_probe op).
  - intros op n m s Hop Hin. by apply (start_collision op).
  - intros. by apply start_node_process_missing.
  - intros op n m host e s Hop Hh Hnode Hx Hfree.
    by apply (start_spawn_fails op n m host e).
  - intros n t w s. destruct (stop_returns n t w s) as (s' & Hs & _). eauto.
  - intros t w s. destruct (stop_all_returns t w s) as [Hs _]. eauto.
  - intros n t w s h Hn Hrc Hv. eexists. split.
    + by apply (stop_vanished n t w s h).
    + simpl. by rewrite lookup_delete_eq.
  - intros n h t w s. apply stop_from_wait_unregistered.
Qed.


(* ===================================================================== *)
(** ** A callback that raises *)
(* ===================================================================== *)

Lemma read_loop_line name (cb : Callback) text rest s d :
  text ≠ EmptyString →
  _output_buffers s !! name = Some d →
  read_loop name (Some cb) (Line text :: rest) s =
    let s' := set_events (λ l, l ++ [EvCallback name (rstrip text)])
                (set_output_buffers (<[name := deque_append (rstrip text) d]>) s) in
    match cb (rstrip text) with
    | None => read_loop name (Some cb) rest s'
    | Some e => (Raise (Exc e), s')
    end.
Proof.
  intros Ht Hd. cbn [read_loop].
  unfold mbind at 1, M_bind, readline, mret at 1, M_ret.
  rewrite decide_False by done.
  unfold mbind at 1, M_bind, buffer_append. rewrite Hd.
  unfold mbind at 1, M_bind, call.
  unfold mbind at 1, M_bind, emit, modify.
  destruct (cb (rstrip text)); done.
Qed.

Lemma read_loop_line_quiet name (cb : option Callback) text rest s d :
  text ≠ EmptyString →
  _output_buffers s !! name = Some d →
  (∀ f, cb = Some f → f (rstrip text) = None) →
  ∃ s', read_loop name cb (Line text :: rest) s = read_loop name cb rest s' ∧
        _output_buffers s' =
          <[name := deque_append (rstrip text) d]> (_output_buffers s).
Proof.
  intros Ht Hd Hcb. destruct cb as [f|].
  - rewrite (read_loop_line _ _ _ _ _ d), (Hcb f) by done. eauto.
  - cbn [read_loop].
    unfold mbind at 1, M_bind, readline, mret at 1, M_ret.
    rewrite decide_False by done.
    unfold mbind at 1, M_bind, buffer_append. rewrite Hd.
    unfold mbind at 1, M_bind, mret at 1, M_ret. eauto.
Qed.

(** As long as the callback does not raise, the loop appends the lines
    to the buffer of [name] in the order it reads them, each one
    stripped, and goes back to waiting. *)
Lemma read_loop_lines name (cb : option Callback) lines s d :
  _output_buffers s !! name = Some d →
  Forall (λ l, l ≠ EmptyString ∧ ∀ f, cb = Some f → f (rstrip l) = None) lines →
  ∃ s', read_loop name cb (Line <$> lines) s = (Return Suspended, s') ∧
        _output_buffers s' !! name = Some (deque_extend d (rstrip <$> lines)).
Proof.
  intros Hd Hlines. revert s d Hd.
  induction Hlines as [|l lines [Hl Hcb] _ IH]; intros s d Hd.
  - by exists s.
  - cbn [fmap list_fmap].
    destruct (read_loop_line_quiet name cb l (Line <$> lines) s d)
      as (s1 & -> & Hb); [done..|].
    destruct (IH s1 (deque_append (rstrip l) d)) as (s' & -> & Hb').
    { rewrite Hb. apply lookup_insert_eq. }
    by exists s'.
Qed.

Lemma read_loop_until_failure name (cb : Callback) pre line post e s d :
  _output_buffers s !! name = Some d →
  Forall (λ l, l ≠ EmptyString ∧ cb (rstrip l) = None) pre →
  line ≠ EmptyString →
  cb (rstrip line) = Some e →
  ∃ s', read_loop name (Some cb) ((Line <$> pre) ++ Line line :: post) s =
          (Raise (Exc e), s') ∧
        _output_buffers s' !! name =
          Some (deque_extend d (rstrip <$> pre ++ [line])) ∧
        events s' = events s ++ (EvCallback name <$> (rstrip <$> pre ++ [line])) ∧
        log s' = log s.
Proof.
  intros Hd Hpre Hline He. revert s d Hd.
  induction Hpre as [|l pre [Hl Hcb] _ IH]; intros s d Hd.
  - cbn [fmap list_fmap app]. rewrite (read_loop_line _ _ _ _ _ d), He by done.
    eexists. split; [reflexivity|]. simpl. by rewrite lookup_insert_eq.
  - cbn [fmap list_fmap app]. rewrite (read_loop_line _ _ _ _ _ d), Hcb by done.
    cbv zeta.
    edestruct IH as (s' & -> & Hb & Hev & Hlog).
    { simpl. apply lookup_insert_eq. }
    exists s'. split; [done|]. rewrite Hb, Hev, Hlog. simpl.
    by rewrite <- app_assoc.
Qed.

(** C5, as the code has it.  When the callback raises on a line, the
    exception does not leave [_read_output]: it is logged as an error and
    the coroutine returns.  The lines up to and including that one are in
    the buffer and have been passed to the callback; whatever the stream
    holds after it ([post]) is not read. *)
Theorem callback_failure_ends_the_drain (name : string) (process : nat)
    (cb : Callback) (pre : list string) (line : string)
    (post : list ReadResult) (e : Exception) (s : ProcessManager) (d : deque) :
  _output_buffers s !! name = Some d →
  Forall (λ l, l ≠ EmptyString ∧ cb (rstrip l) = None) pre →
  line ≠ EmptyString →
  cb (rstrip line) = Some e →
  ∃ s', _read_output name process (Some cb)
          ((Line <$> pre) ++ Line line :: post) s = (Return Returned, s') ∧
        _output_buffers s' !! name =
          Some (deque_extend d (rstrip <$> pre ++ [line])) ∧
        events s' = events s ++ (EvCallback name <$> (rstrip <$> pre ++ [line])) ∧
        log s' = log s ++ [read_error name e].
Proof.
  intros Hd Hpre Hline He.
  destruct (read_loop_until_failure name cb pre line post e s d)
    as (s1 & Hloop & Hb & Hev & Hlog); [done..|].
  exists (set_log (λ l, l ++ [read_error name e]) s1). split.
  - unfold _read_output, try_except. by rewrite Hloop.
  - simpl. by rewrite Hlog.
Qed.

(* ===================================================================== *)
(** ** The buffers and [get_output] *)
(* ===================================================================== *)

Lemma last_n_length {A} n (l : list A) : length (last_n n l) = (length l `min` n)%nat.
Proof. unfold last_n. rewrite length_drop. lia. Qed.

Lemma last_n_all {A} n (l : list A) : (length l ≤ n)%nat → last_n n l = l.
Proof. intros H. unfold last_n. by replace (length l - n)%nat with 0%nat by lia. Qed.

Lemma last_n_app {A} n (l k : list A) :
  last_n n (last_n n l ++ k) = last_n n (l ++ k).
Proof.
  destruct (decide (length l ≤ n)%nat) as [Hle|Hgt].
  { by rewrite (last_n_all n l). }
  unfold last_n at 1 3. rewrite !length_app, last_n_length.
  replace (length l `min` n)%nat with n by lia.
  unfold last_n. rewrite !drop_app, drop_drop, length_drop.
  f_equal; f_equal; lia.
Qed.

Lemma deque_append_items x d :
  (length (items d) ≤ maxlen d)%nat →
  items (deque_append x d) = last_n (maxlen d) (items d ++ [x]) ∧
  maxlen (deque_append x d) = maxlen d.
Proof.
  intros Hle. unfold deque_append, last_n. rewrite length_app. simpl.
  destruct (decide (maxlen d = 0)%nat) as [H0|Hn0].
  { split; [|done]. destruct (items d); simpl in *; [|lia].
    by rewrite H0. }
  destruct (decide (length (items d) < maxlen d)%nat); simpl.
  - split; [|done]. by replace (_ - _)%nat with 0%nat by lia.
  - split; [|done]. replace (_ - _)%nat with 1%nat by lia.
    destruct (items d); simpl in *; [lia|done].
Qed.

Lemma deque_extend_items ls d :
  (length (items d) ≤ maxlen d)%nat →
  items (deque_extend d ls) = last_n (maxlen d) (items d ++ ls) ∧
  maxlen (deque_extend d ls) = maxlen d.
Proof.
  revert d. induction ls as [|x ls IH]; intros d Hle.
  { simpl. rewrite app_nil_r. split; [|done]. by rewrite last_n_all. }
  destruct (deque_append_items x d Hle) as [Hi Hm].
  cbn [deque_extend foldl]. fold (deque_extend (deque_append x d) ls).
  destruct (IH (deque_append x d)) as [Hi' Hm'].
  { rewrite Hi, Hm, last_n_length. lia. }
  rewrite Hi', Hm', Hi, Hm. split; [|done].
  by rewrite last_n_app, <- app_assoc.
Qed.

Lemma extends_ok d d' :
  extends d d' →
  maxlen d = _max_output_lines ∧ (length (items d) ≤ maxlen d)%nat →
  maxlen d' = _max_output_lines ∧ (length (items d') ≤ maxlen d')%nat.
Proof.
  intros [ls ->] [Hm Hle]. destruct (deque_extend_items ls d Hle) as [Hi Hm'].
  rewrite Hi, Hm', last_n_length. split; [done|lia].
Qed.

Lemma buffers_extend_ok s s' :
  buffers_extend (_output_buffers s) (_output_buffers s') →
  buffers_ok s → buffers_ok s'.
Proof.
  intros Hext Hok name d' Hd'. specialize (Hext name). rewrite Hd' in Hext.
  inversion Hext as [d ? Hdd' Hd|]; subst. symmetry in Hd.
  eapply extends_ok; eauto.
Qed.

Lemma stop_in_turn_buffers timeout w names s :
  buffers_extend (_output_buffers s)
    (_output_buffers (stop_in_turn timeout w names s)).
Proof.
  revert s. induction names as [|n names IH]; intros s.
  - apply buffers_extend_refl.
  - rewrite stop_in_turn_cons.
    eapply buffers_extend_trans; [|apply IH].
    destruct (stop_returns n timeout (w n) s) as (s' & -> & St).
    apply (stopped_buffers _ _ _ _ St).
Qed.

Lemma run_op_buffers_ok op s : buffers_ok s → buffers_ok (run_op op s).
Proof.
  intros Hok.
  destruct (as_start op) as [[name m]|] eqn:Hop.
  { rewrite (run_op_start _ _ _ _ Hop).
    destruct (start_returns _ _ _ s Hop) as (b & s' & -> & H). simpl.
    destruct (decide (is_Some (_processes s !! name))).
    - by destruct H as [_ ->].
    - destruct (launch_ok op).
      + destruct H as [_ St]. intros m' d.
        rewrite (started_buffers _ _ _ St), lookup_insert.
        case_decide; [|by apply Hok].
        intros [= <-]. simpl. unfold _max_output_lines. split; [done|lia].
      + by destruct H as [_ [->|(? & ? & ? & -> & _)]]. }
  destruct op; simplify_eq/=.
  - destruct (stop_returns name timeout w s) as (s' & -> & St).
    eapply buffers_extend_ok; [|done]. apply (stopped_buffers _ _ _ _ St).
  - destruct (stop_all_returns timeout w s) as [-> _].
    eapply buffers_extend_ok; [|done]. apply stop_in_turn_buffers.
  - destruct (outcome_returns _ _ _ (resume_frame t stream s))
      as ([] & s' & -> & F).
    eapply buffers_extend_ok; [|done]. apply (frame_buffers _ _ _ F).
  - destruct (objects s !! h) as [[? [?|] ? ? ?]|]; done.
Qed.

(** No buffer ever holds more than 1000 lines. *)
Lemma reachable_buffers_ok s : reachable s → buffers_ok s.
Proof.
  induction 1 as [|s op _ IH].
  - intros name d. simpl. by rewrite lookup_empty.
  - by apply run_op_buffers_ok.
Qed.

Lemma slice_from_recent {A} (k : Z) (l : list A) :
  (0 < k)%Z → slice_from (- k) l = last_n (Z.to_nat k) l.
Proof.
  intros Hk. unfold slice_from, last_n.
  destruct (- k <? 0)%Z eqn:Hlt; [|apply Z.ltb_ge in Hlt; lia].
  f_equal. lia.
Qed.

Lemma get_output_unknown name lines s :
  _output_buffers s !! name = None → get_output name lines s = [].
Proof. intros H. unfold get_output. by rewrite H. Qed.

Lemma get_output_recent name lines s d :
  _output_buffers s !! name = Some d → (0 < lines)%Z →
  get_output name lines s = last_n (Z.to_nat lines) (items d).
Proof.
  intros H Hk. unfold get_output. rewrite H. by apply slice_from_recent.
Qed.

(** With [lines = 0] the slice [[-0:]] is the whole list. *)
Lemma get_output_zero name s d :
  _output_buffers s !! name = Some d → get_output name 0 s = items d.
Proof.
  intros H. unfold get_output, slice_from. rewrite H. simpl.
  by rewrite Z.min_l by lia.
Qed.

(** What does hold of [get_output]: never more than 1000 lines, never
    more than a positive [lines], always a final segment of the buffer. *)
Lemma get_output_bounds name lines s :
  reachable s →
  (length (get_output name lines s) ≤ 1000)%nat ∧
  ((0 < lines)%Z → (length (get_output name lines s) ≤ Z.to_nat lines)%nat) ∧
  (∀ d, _output_buffers s !! name = Some d →
        get_output name lines s `suffix_of` items d).
Proof.
  intros Hs. pose proof (reachable_buffers_ok s Hs name) as Hok.
  unfold get_output, slice_from.
  destruct (_output_buffers s !! name) as [d|]; simpl.
  2:{ split_and!; [lia|lia|done]. }
  destruct (Hok d eq_refl) as [Hm Hle]. rewrite Hm in Hle.
  unfold _max_output_lines in Hle.
  split_and!.
  - rewrite length_drop. lia.
  - intros Hk. rewrite length_drop.
    destruct (- lines <? 0)%Z eqn:Hlt; [|apply Z.ltb_ge in Hlt; lia]. lia.
  - intros ? [= <-]. apply suffix_drop.
Qed.

(** After draining [ls] into a fresh buffer, the buffer holds the last
    1000 of them, in the order read. *)
Lemma fresh_buffer_items ls :
  items (deque_extend (mkDeque _max_output_lines []) ls) =
  last_n _max_output_lines ls.
Proof.
  destruct (deque_extend_items ls (mkDeque _max_output_lines [])) as [-> _];
    simpl; [lia|done].
Qed.



(* ===================================================================== *)
(** ** Where the code and the specification part *)
(* ===================================================================== *)

(** C2, at [lines = 0].  With two lines in the buffer of [sync],
    [get_output "sync" 0] returns both of them ([[-0:]] is the whole
    list), where [get_output "sync" 1] returns the last one. *)
Theorem get_output_zero_returns_whole_buffer :
  get_output "sync" 0 s_two_lines = ["ready"; "listening on 4444"] ∧
  (length (get_output "sync" 0 s_two_lines) > 0)%nat ∧
  get_output "sync" 1 s_two_lines = ["listening on 4444"].
Proof. vm_compute. split_and!; [done|lia|done]. Qed.

(** C3, on the two early returns.  When the child of [sync] has already
    exited, and when it is gone at [terminate], [stop] removes the
    registry entry and returns [True] with the drain task still
    registered in [_output_tasks], still running and never cancelled.
    The path through the wait does cancel it and drops its entry. *)
Theorem early_return_skips_drain_task :
  let exited := stop "sync" 5 graceful s_exited in
  let gone := stop "sync" 5 vanished s_two_lines in
  let usual := stop "sync" 5 graceful s_two_lines in
  (exited.1 = Return true ∧
   _processes exited.2 !! "sync" = None ∧
   _output_tasks exited.2 !! "sync" = Some 0%nat ∧
   t_state <$> loop_tasks exited.2 !! 0%nat = Some Running ∧
   events exited.2 = [EvSpawn 0]) ∧
  (gone.1 = Return true ∧
   _processes gone.2 !! "sync" = None ∧
   _output_tasks gone.2 !! "sync" = Some 0%nat ∧
   t_state <$> loop_tasks gone.2 !! 0%nat = Some Running ∧
   events gone.2 = [EvSpawn 0]) ∧
  (usual.1 = Return true ∧
   _processes usual.2 !! "sync" = None ∧
   _output_tasks usual.2 !! "sync" = None ∧
   t_state <$> loop_tasks usual.2 !! 0%nat = Some Done ∧
   events usual.2 = [EvSpawn 0; EvTerminate 0; EvWaitFor 0 5; EvCancel 0]).
Proof. vm_compute. split_and!; reflexivity. Qed.


(** The callback fails on the first line: the second one is never
    appended to the buffer nor passed to the callback, and the drain task
    is over. *)
Lemma drain_ends_at_callback_failure :
  let s' := run_op (Drain 0 [Line "boom
"; Line "after
"]) s_fragile in
  get_output "sync" 50 s' = ["boom"] ∧
  events s' = [EvSpawn 0; EvCallback "sync" "boom"] ∧
  t_state <$> loop_tasks s' !! 0%nat = Some Done ∧
  log s' = log s_fragile ++ [read_error "sync" (mkException ValueError "bad line")] ∧
  ("after" ∉ get_output "sync" 50 s') ∧
  (EvCallback "sync" "after" ∉ events s').
Proof.
  vm_compute. split_and!; try reflexivity.
  - intros H. repeat (apply elem_of_cons in H as [H|H]; [discriminate|]).
    by apply elem_of_nil in H.
  - intros H. repeat (apply elem_of_cons in H as [H|H]; [discriminate|]).
    by apply elem_of_nil in H.
Qed.

(* ===================================================================== *)
(** ** The statements at sample runs *)
(* ===================================================================== *)

Lemma second_start_is_refused_witness :
  Forall (λ op, stops "sync" op = false) busy ∧
  (start_node_process "sync" "sync.js" None None None None host_ok
     (run busy s_started)).1 = Return false ∧
  _processes (run_op restart_sync (run busy s_started)) !! "sync" = Some 0%nat.
Proof.
  assert (Forall (λ op, stops "sync" op = false) busy) as Hbusy
    by (repeat constructor).
  destruct (second_start_is_refused __init__ (start_sync None) restart_sync
              "sync"
              (start_npx_process "sync" "mrmd-sync"
                 (Some ["--port"; "4444"; "docs"]) None None None host_ok)
              (start_node_process "sync" "sync.js" None None None None host_ok)
              busy eq_refl)
    as (_ & _ & Hsecond & _ & _ & Hentry);
    [vm_compute; reflexivity | exact Hbusy | reflexivity |].
  split; [exact Hbusy|]. split; [|exact Hentry].
  fold s_started in Hsecond. by rewrite Hsecond.
Defined.


Lemma callback_failure_ends_the_drain_witness :
  ∃ s', _read_output "sync" 0 (Some fragile)
          ((Line <$> ["fine
"]) ++ Line "boom
" :: [Line "after
"]) s_fragile = (Return Returned, s') ∧
        _output_buffers s' !! "sync" =
          Some (deque_extend (mkDeque _max_output_lines [])
                  (rstrip <$> ["fine
"] ++ ["boom
"])) ∧
        events s' = events s_fragile ++
          (EvCallback "sync" <$> (rstrip <$> ["fine
"] ++ ["boom
"])) ∧
        log s' = log s_fragile ++
          [read_error "sync" (mkException ValueError "bad line")].
Proof.
  apply (callback_failure_ends_the_drain "sync" 0 fragile).
  - vm_compute. reflexivity.
  - constructor; [|constructor]. split; [discriminate|reflexivity].
  - discriminate.
  - reflexivity.
Defined.

Lemma stop_frees_the_name_witness :
  stop "sync" (1 # 10) stubborn s_two_lines =
    (Return true, (stop "sync" (1 # 10) stubborn s_two_lines).2) ∧
  is_running "sync" (stop "sync" (1 # 10) stubborn s_two_lines).2 = false ∧
  (start_npx_process "sync" "mrmd-sync" (Some ["--port"; "4444"; "docs"])
     None None None host_ok
     (stop "sync" (1 # 10) stubborn s_two_lines).2).1 = Return true.
Proof.
  assert (stop "sync" (1 # 10) stubborn s_two_lines =
          (Return true, (stop "sync" (1 # 10) stubborn s_two_lines).2)) as Hstop
    by (vm_compute; reflexivity).
  destruct (stop_frees_the_name "sync" (1 # 10) stubborn s_two_lines _ Hstop)
    as [Hrun Hstart].
  split; [exact Hstop|]. split; [exact Hrun|].
  exact (Hstart (start_sync None)
           (start_npx_process "sync" "mrmd-sync"
              (Some ["--port"; "4444"; "docs"]) None None None host_ok)
           eq_refl eq_refl).
Defined.

Lemma stop_all_empties_registry_witness :
  get_status (stop_all 5 (λ _, graceful) s_both).2 = ∅ ∧
  (start_python_process "runtime" "mrmd_python.cli" (Some ["--port"; "8000"])
     (Some "/project") None None None host_ok
     (stop_all 5 (λ _, graceful) s_both).2).1 = Return true.
Proof.
  destruct (stop_all_empties_registry 5 (λ _, graceful) s_both)
    as (Hall & _ & _ & _ & Hstatus & Hstart).
  rewrite Hall. split; [exact Hstatus|].
  exact (Hstart (start_runtime host_ok) "runtime"
           (start_python_process "runtime" "mrmd_python.cli"
              (Some ["--port"; "8000"]) (Some "/project") None None None host_ok)
           eq_refl eq_refl).
Defined.

Lemma stop_of_unknown_name_is_noop_witness :
  Forall (λ op, starts "runtime" op = false) [start_sync None] ∧
  stop "runtime" 5 graceful s_started = (Return true, s_started).
Proof.
  assert (Forall (λ op, starts "runtime" op = false) [start_sync None])
    as Hnever by (repeat constructor).
  split; [exact Hnever|].
  exact (proj1 (proj2 (stop_of_unknown_name_is_noop "runtime" 5 graceful))
           [start_sync None] Hnever).
Defined.

(* ===================================================================== *)
(** ** Mutation by mutation *)
(* ===================================================================== *)

Lemma touch_within c c' s s' : within c c' → touch c s s' → touch c' s s'.
Proof.
  intros (Hh & Hn & He) Ht. destruct Ht; econstructor; eauto.
Qed.

Lemma rtc_touch_within c c' s s' :
  within c c' → rtc (touch c) s s' → rtc (touch c') s s'.
Proof.
  intros Hw. apply rtc_subrel. intros ??. by apply touch_within.
Qed.

Lemma walks_within c c' {A} (m : M A) s :
  within c c' → walks c m →
  outcome m s (λ _ s', rtc (touch c') s s') (λ _ s', rtc (touch c') s s').
Proof.
  intros Hw Hm. eapply outcome_mono; [apply (Hm s s); constructor| |];
    cbv beta; eauto using rtc_touch_within.
Qed.

Lemma walks_ret c {A} (a : A) : walks c (mret a).
Proof. by intros s0 s H. Qed.

Lemma walks_raise c {A} e : walks c (raise e : M A).
Proof. by intros s0 s H. Qed.

Lemma walks_gets c {A} (f : ProcessManager → A) : walks c (gets f).
Proof. by intros s0 s H. Qed.

Lemma walks_modify c f : (∀ s, touch c s (f s)) → walks c (modify f).
Proof. intros Hf s0 s H. eapply rtc_r; eauto. Qed.

Lemma walks_bind c {A B} (m : M A) (f : A → M B) :
  walks c m → (∀ a, walks c (f a)) → walks c (m ≫= f).
Proof.
  intros Hm Hf s0 s H. apply outcome_bind.
  eapply outcome_mono; [by apply Hm| |done].
  intros a s' H'. by apply Hf.
Qed.

Lemma walks_try c {A} (body : M A) handler :
  walks c body → (∀ e k, handler e = Some k → walks c k) →
  walks c (try_except body handler).
Proof.
  intros Hb Hh s0 s H. apply outcome_try.
  eapply outcome_mono; [by apply Hb|done|].
  intros e s' H'. cbv beta. destruct (handler e) as [k|] eqn:Hk; [|done].
  by apply (Hh e k).
Qed.

Lemma walks_logger c lvl msg : walks c (logger lvl msg).
Proof. apply walks_modify. constructor. Qed.

Lemma walks_emit c e : may_emit c e → walks c (emit e).
Proof. intros He. apply walks_modify. by constructor. Qed.

Lemma walks_buffer_append c name text :
  walks c (buffer_append name (rstrip text)).
Proof.
  intros s0 s H. unfold outcome, buffer_append.
  destruct (_output_buffers s !! name) as [d|] eqn:Hd; [|done].
  eapply rtc_r; [done|]. by constructor.
Qed.

Lemma walks_del_processes c name : may_drop c name → walks c (del_processes name).
Proof.
  intros Hn s0 s H. unfold outcome, del_processes.
  destruct (_processes s !! name); [|done].
  eapply rtc_r; [done|]. by constructor.
Qed.

Lemma walks_del_output_tasks c name :
  may_drop c name → walks c (del_output_tasks name).
Proof.
  intros Hn s0 s H. unfold outcome, del_output_tasks.
  destruct (_output_tasks s !! name); [|done].
  eapply rtc_r; [done|]. by constructor.
Qed.

Lemma walks_set_returncode c h rc : may_exit c h → walks c (set_returncode h rc).
Proof.
  intros Hh s0 s H. unfold outcome.
  change (rtc (touch c) s0 (set_returncode h rc s).2).
  eapply rtc_r; [done|]. by constructor.
Qed.

Lemma walks_read_loop c name cb stream :
  (∀ e, is_callback e → may_emit c e) →
  walks c (read_loop name cb stream).
Proof.
  intros Hc. induction stream as [|r rest IH]; [apply walks_ret|].
  cbn [read_loop]. apply walks_bind.
  { destruct r; [apply walks_ret|apply walks_raise]. }
  intros line. destruct (decide (line = EmptyString)); [apply walks_ret|].
  apply walks_bind; [apply walks_buffer_append|]. intros _.
  apply walks_bind; [|by intros _].
  destruct cb as [cb|]; [|apply walks_ret].
  unfold call. apply walks_bind; [apply walks_emit, Hc; exact I|]. intros _.
  destruct (cb (rstrip line)); [apply walks_raise|apply walks_ret].
Qed.

Lemma walks_read_output c name process cb stream :
  (∀ e, is_callback e → may_emit c e) →
  walks c (_read_output name process cb stream).
Proof.
  intros Hc. apply walks_try; [by apply walks_read_loop|].
  intros [|e] k [= <-].
  - apply walks_bind; [apply walks_ret|]. intros _. apply walks_ret.
  - apply walks_bind; [apply walks_logger|]. intros _. apply walks_ret.
Qed.

Lemma walks_resume c t stream :
  (∀ e, is_callback e → may_emit c e) → walks c (resume t stream).
Proof.
  intros Hc s0 s H. unfold outcome at 1, resume.
  destruct (loop_tasks s !! t) as [k|]; [|done].
  destruct (t_state k); [|done].
  pose proof (walks_read_output c (t_name k) (t_process k) (t_callback k)
                stream Hc s0 s H) as Hr.
  unfold outcome in Hr.
  destruct (_read_output _ _ _ _ s) as [[[]|e] s1].
  - done.
  - change (rtc (touch c) s0 (set_task_state t Done s1).2).
    eapply rtc_r; [done|]. constructor.
  - change (rtc (touch c) s0 (set_task_state t Done s1).2).
    eapply rtc_r; [done|]. constructor.
Qed.

Lemma walks_terminate c h w : may_emit c (EvTerminate h) → walks c (terminate h w).
Proof.
  intros He. unfold terminate.
  destruct (terminate_vanished w); [apply walks_raise|by apply walks_emit].
Qed.

Lemma walks_kill c h w : may_emit c (EvKill h) → walks c (kill h w).
Proof.
  intros He. unfold kill.
  destruct (kill_vanished w); [apply walks_raise|by apply walks_emit].
Qed.

Lemma walks_wait c h w :
  may_emit c (EvWait h) → may_exit c h → walks c (wait h w).
Proof.
  intros He Hh. unfold wait. apply walks_bind; [by apply walks_emit|].
  intros _. by apply walks_set_returncode.
Qed.

Lemma walks_wait_for_wait c name h timeout w :
  may_emit c (EvWaitFor h timeout) →
  (∀ e, is_callback e → may_emit c e) → may_exit c h →
  walks c (wait_for_wait name h timeout w).
Proof.
  intros Hw He Hh. unfold wait_for_wait.
  apply walks_bind; [by apply walks_emit|]. intros _.
  apply walks_bind; [apply walks_gets|]. intros tasks.
  apply walks_bind.
  { destruct (tasks !! name); [by apply walks_resume|apply walks_ret]. }
  intros _. destruct (exits_within w); [by apply walks_set_returncode|].
  apply walks_raise.
Qed.

Lemma walks_from_of c s0 {A} (m : M A) : walks c m → walks_from c s0 m.
Proof. intros Hm s H. by apply Hm. Qed.

Lemma walks_from_bind c s0 {A B} (m : M A) (f : A → M B) :
  walks_from c s0 m → (∀ a, walks_from c s0 (f a)) → walks_from c s0 (m ≫= f).
Proof.
  intros Hm Hf s H. apply outcome_bind.
  eapply outcome_mono; [by apply Hm| |done].
  intros a s' H'. by apply Hf.
Qed.

(** What is read from the state is read from a state of the walk. *)
Lemma walks_from_gets c s0 {A B} (f : ProcessManager → A) (k : A → M B) :
  (∀ s, rtc (touch c) s0 s → walks_from c s0 (k (f s))) →
  walks_from c s0 (gets f ≫= k).
Proof.
  intros Hk s H. apply outcome_bind, outcome_gets. by apply Hk.
Qed.

(** A run of mutations adds no entry to the two dictionaries: one that is
    there at the end was there from the start. *)
Lemma rtc_touch_task_from c s s' n t :
  rtc (touch c) s s' →
  _output_tasks s' !! n = Some t → _output_tasks s !! n = Some t.
Proof.
  intros Ht. induction Ht as [|s1 s2 s3 H12 _ IH]; [done|].
  intros H3. specialize (IH H3). clear H3.
  destruct H12; try done.
  simpl in IH. by apply lookup_delete_Some in IH as [_ ?].
Qed.

(** [stop name] deletes no entry but those of [name], sets no return
    code but that of the process registered under [name], signals no
    child and cancels no task but those of [name], and otherwise only logs
    and lets the drain task run. *)
Lemma stop_touches name timeout w s :
  outcome (stop name timeout w) s
    (λ _ s', rtc (touch (stop_scope name s)) s s')
    (λ _ s', rtc (touch (stop_scope name s)) s s').
Proof.
  set (c := stop_scope name s).
  unfold stop, stop_from_wait. apply outcome_bind, outcome_gets.
  destruct (_processes s !! name) as [h|] eqn:Hn; [|constructor].
  assert (may_exit c h) as Hh by done.
  assert (may_drop c name) as Hname by done.
  assert (∀ e, aimed_at name s e → may_emit c e) as He by (by left).
  assert (∀ e, is_callback e → may_emit c e) as Hc by (by right).
  match goal with |- outcome ?m _ _ _ =>
    enough (walks_from c s m) as Hw by (apply Hw; constructor) end.
  apply walks_from_bind; [apply walks_from_of, walks_gets|]. intros [rc|].
  { apply walks_from_of.
    apply walks_bind; [by apply walks_del_processes|]. intros _.
    apply walks_ret. }
  apply walks_from_bind; [apply walks_from_of, walks_gets|]. intros child.
  apply walks_from_bind; [apply walks_from_of, walks_logger|]. intros _.
  apply walks_from_bind.
  { apply walks_from_of, walks_try.
    - apply walks_bind; [by apply walks_terminate, He|]. intros _.
      apply walks_ret.
    - intros [|[[] msg]] k [= <-].
      apply walks_bind; [by apply walks_del_processes|]. intros _.
      apply walks_ret. }
  intros [|]; [apply walks_from_of, walks_ret|].
  apply walks_from_bind.
  { apply walks_from_of, walks_try;
      [apply walks_wait_for_wait; [by apply He|done|done]|].
    intros [|[[] msg]] k [= <-].
    apply walks_bind; [apply walks_logger|]. intros _.
    apply walks_try.
    - apply walks_bind; [by apply walks_kill, He|]. intros _.
      apply walks_wait; [by apply He|done].
    - intros [|[[] msg']] k [= <-]. apply walks_ret. }
  intros _. apply walks_from_gets. intros s1 Hs1. apply walks_from_of.
  apply walks_bind.
  { destruct (_output_tasks s1 !! name) as [t|] eqn:Ht; [|apply walks_ret].
    apply walks_bind.
    { apply walks_emit, He. simpl. by eapply rtc_touch_task_from. }
    intros _.
    apply walks_bind; [|intros _; by apply walks_del_output_tasks].
    apply walks_try; [by apply walks_resume|].
    intros [|e] k [= <-]. apply walks_ret. }
  intros _. apply walks_bind; [by apply walks_del_processes|]. intros _.
  apply walks_bind; [apply walks_logger|]. intros _. apply walks_ret.
Qed.

Lemma stop_in_turn_touches timeout w names s :
  rtc (touch any_scope) s (stop_in_turn timeout w names s).
Proof.
  revert s. induction names as [|n names IH]; intros s; [constructor|].
  rewrite stop_in_turn_cons. etrans; [|apply IH].
  pose proof (stop_touches n timeout (w n) s) as Ht. unfold outcome in Ht.
  destruct (stop n timeout (w n) s) as [[b|e] s']; simpl;
    (eapply rtc_touch_within; [|exact Ht]); by repeat split.
Qed.

(** A step that is not a successful start is a run of mutations. *)
Lemma run_op_touches op s :
  (∀ name m, as_start op = Some (name, m) → (m s).1 ≠ Return true) →
  rtc (touch any_scope) s (run_op op s).
Proof.
  intros Hfail.
  destruct (as_start op) as [[name m]|] eqn:Hop.
  { rewrite (run_op_start _ _ _ _ Hop).
    specialize (Hfail name m eq_refl).
    destruct (start_returns _ _ _ s Hop) as (b & s' & Hm & H).
    rewrite Hm in Hfail |- *. simpl in *.
    destruct (decide (is_Some (_processes s !! name))).
    - destruct H as [_ ->]. apply rtc_once. constructor.
    - destruct (launch_ok op).
      + by destruct H as [-> _].
      + destruct H as [_ [->|(? & ? & ? & -> & _)]]; [done|]. apply rtc_once. constructor. }
  destruct op; simplify_eq/=.
  - pose proof (stop_touches name timeout w s) as Ht. unfold outcome in Ht.
    destruct (stop name timeout w s) as [[b|e] s']; simpl;
      (eapply rtc_touch_within; [|exact Ht]); by repeat split.
  - destruct (stop_all_returns timeout w s) as [-> _]. simpl.
    apply stop_in_turn_touches.
  - pose proof (walks_resume drain_scope t stream (λ e H, H) s s
                  (rtc_refl _ _)) as Ht.
    unfold outcome in Ht.
    destruct (resume t stream s) as [[b|e] s']; simpl;
      (eapply rtc_touch_within; [|exact Ht]); by repeat split.
  - destruct (objects s !! h) as [[? [?|] ? ? ?]|] eqn:Hh; try constructor.
    apply rtc_once. by apply (touch_returncode any_scope h rc s).
Qed.

(* ===================================================================== *)
(** ** What every reachable state satisfies *)
(* ===================================================================== *)

Lemma rstrip_idemp x : rstrip (rstrip x) = rstrip x.
Proof.
  induction x as [|c r IH]; [done|]. cbn [rstrip].
  destruct (rstrip r) as [|c' r'] eqn:Hr.
  - destruct (is_space c) eqn:Hc; [done|]. cbn [rstrip]. by rewrite Hc.
  - cbn [rstrip]. cbn [rstrip] in IH. rewrite IH. done.
Qed.

Lemma deque_append_elem x y d :
  x ∈ items (deque_append y d) → x = y ∨ x ∈ items d.
Proof.
  unfold deque_append. repeat case_decide; simpl; [by right|..];
    rewrite elem_of_app, list_elem_of_singleton; intros [Hx|Hx]; auto.
  right. destruct (items d); simpl in *; [done|]. by right.
Qed.

Lemma set_task_state_lookup t st s t' :
  loop_tasks (set_task_state t st s).2 !! t' =
  (λ k, mkTask (t_name k) (t_process k) (t_callback k)
          (if decide (t' = t) then st else t_state k))
    <$> loop_tasks s !! t'.
Proof.
  simpl. destruct (loop_tasks s !! t) as [k|] eqn:Hk.
  - destruct (decide (t' = t)) as [->|Hne].
    + rewrite list_lookup_insert_eq by (by eapply lookup_lt_Some).
      by rewrite Hk.
    + rewrite list_lookup_insert_ne by done.
      destruct (loop_tasks s !! t') as [[]|]; done.
  - destruct (decide (t' = t)) as [->|Hne].
    + by rewrite Hk.
    + destruct (loop_tasks s !! t') as [[]|]; done.
Qed.

Lemma set_returncode_lookup h rc s h' :
  objects (set_returncode h rc s).2 !! h' =
  (λ p, mkProcess (pid p) (if decide (h' = h) then Some rc else returncode p)
          (p_cmd p) (p_cwd p) (p_env p))
    <$> objects s !! h'.
Proof.
  simpl. destruct (objects s !! h) as [p|] eqn:Hp.
  - destruct (decide (h' = h)) as [->|Hne].
    + rewrite list_lookup_insert_eq by (by eapply lookup_lt_Some).
      by rewrite Hp.
    + rewrite list_lookup_insert_ne by done.
      destruct (objects s !! h') as [[]|]; done.
  - destruct (decide (h' = h)) as [->|Hne].
    + by rewrite Hp.
    + destruct (objects s !! h') as [[]|]; done.
Qed.

Lemma touch_wf c s s' : touch c s s' → wf s → wf s'.
Proof.
  intros Ht [Hh Hd Hb Htk Htp Htb Hcl]. destruct Ht.
  - by split.
  - by split.
  - split; simpl; auto.
    + intros n Hn. rewrite lookup_insert_is_Some.
      destruct (decide (name = n)); auto.
    + intros t k Hk. rewrite lookup_insert_is_Some.
      destruct (decide (name = t_name k)); eauto.
    + intros n d' x. rewrite lookup_insert. case_decide as Hn.
      * intros [= <-] [->|Hx]%deque_append_elem;
          [apply rstrip_idemp|subst; eauto].
      * eauto.
  - split; auto.
    + intros n t' Hn. rewrite set_task_state_lookup.
      destruct (Htk n t' Hn) as (k & -> & Hk). eauto.
    + intros n h t' k Hn Ht'. rewrite set_task_state_lookup.
      destruct (loop_tasks s !! t') as [k0|] eqn:Hk0; [|done].
      intros [= <-]. simpl. eauto.
    + intros t' k. rewrite set_task_state_lookup.
      destruct (loop_tasks s !! t') as [k0|] eqn:Hk0; [|done].
      intros [= <-]. simpl. eauto.
  - split; auto.
    intros n h' Hn. rewrite set_returncode_lookup.
    destruct (Hh n h' Hn) as [p ->]. eauto.
  - split; simpl; auto.
    + intros n h [_ Hn]%lookup_delete_Some. eauto.
    + intros n1 n2 h [_ H1]%lookup_delete_Some [_ H2]%lookup_delete_Some.
      eauto.
    + intros n [h [_ Hn]%lookup_delete_Some]. eauto.
    + intros n h t k [_ Hn]%lookup_delete_Some. eauto.
  - split; simpl; auto.
    + intros n t [_ Hn]%lookup_delete_Some. eauto.
    + intros n h t k Hn [_ Ht]%lookup_delete_Some. eauto.
Qed.

Lemma rtc_touch_wf c s s' : rtc (touch c) s s' → wf s → wf s'.
Proof. induction 1; eauto using touch_wf. Qed.

Lemma started_wf name s s' : started name s s' → wf s → wf s'.
Proof.
  intros [Hp Hbuf Ht (p & Ho & _) (cb & Hl) _] [Hh Hd Hb Htk Htp Htb Hcl].
  split.
  - intros n h. rewrite Hp, Ho, lookup_insert. case_decide.
    + intros [= <-]. rewrite lookup_app_r, Nat.sub_diag by done. eauto.
    + intros Hn. destruct (Hh n h Hn) as [q Hq].
      rewrite lookup_app_l by (by eapply lookup_lt_Some). eauto.
  - intros n1 n2 h. rewrite Hp, !lookup_insert.
    repeat case_decide; subst; try done.
    + intros [= <-] Hn. destruct (Hh _ _ Hn) as [q Hq%lookup_lt_Some]. lia.
    + intros Hn [= <-]. destruct (Hh _ _ Hn) as [q Hq%lookup_lt_Some]. lia.
    + eauto.
  - intros n. rewrite Hp, Hbuf. intros Hn.
    apply lookup_insert_is_Some in Hn. apply lookup_insert_is_Some.
    destruct Hn as [?|[? ?]]; auto.
  - intros n t. rewrite Ht, Hl, lookup_insert. case_decide.
    + intros [= <-]. rewrite lookup_app_r, Nat.sub_diag by done.
      simpl. eauto.
    + intros Hn. destruct (Htk n t Hn) as (k & Hk & Hname).
      exists k. by rewrite lookup_app_l by (by eapply lookup_lt_Some).
  - intros n h t k. rewrite Hp, Ht, Hl, !lookup_insert. case_decide.
    + intros [= <-] [= <-]. rewrite lookup_app_r, Nat.sub_diag by done.
      by intros [= <-].
    + intros Hn Hnt. destruct (Htk n t Hnt) as (k' & Hk' & _).
      rewrite lookup_app_l by (by eapply lookup_lt_Some). eauto.
  - intros t k. rewrite Hl, Hbuf. intros Hk.
    rewrite lookup_insert_is_Some.
    destruct (decide (t < length (loop_tasks s))%nat).
    + rewrite lookup_app_l in Hk by done.
      destruct (decide (name = t_name k)); [by left|right]. eauto.
    + rewrite lookup_app_r in Hk by lia.
      destruct (t - length (loop_tasks s))%nat; simpl in Hk; [|done].
      injection Hk as <-. by left.
  - intros n d x. rewrite Hbuf, lookup_insert. case_decide.
    + intros [= <-]. simpl. by intros ?%elem_of_nil.
    + eauto.
Qed.

(** Either a step is a successful start, or it is a run of mutations. *)
Lemma run_op_cases op s :
  (∃ name, started name s (run_op op s) ∧ _processes s !! name = None) ∨
  rtc (touch any_scope) s (run_op op s).
Proof.
  destruct (as_start op) as [[name m]|] eqn:Hop.
  2:{ right. apply run_op_touches. intros ??. by rewrite Hop. }
  destruct (start_returns _ _ _ s Hop) as (b & s' & Hm & H).
  destruct (decide (is_Some (_processes s !! name))) as [|Hfree].
  { right. apply run_op_touches. intros n' m' Hop'.
    rewrite Hop in Hop'. injection Hop' as <- <-. rewrite Hm.
    by destruct H as [-> _]. }
  destruct (launch_ok op).
  - left. exists name. rewrite (run_op_start _ _ _ _ Hop), Hm.
    destruct H as [_ St]. split; [done|]. by apply eq_None_not_Some.
  - right. apply run_op_touches. intros n' m' Hop'.
    rewrite Hop in Hop'. injection Hop' as <- <-. rewrite Hm.
    simpl. by destruct H as [? _].
Qed.

Lemma init_wf : wf __init__.
Proof.
  split; simpl; intros *; rewrite ?lookup_empty; try done.
Qed.

Lemma reachable_wf s : reachable s → wf s.
Proof.
  induction 1 as [|s op _ IH]; [apply init_wf|].
  destruct (run_op_cases op s) as [(name & St & _)|Ht].
  - by eapply started_wf.
  - by eapply rtc_touch_wf.
Qed.

Lemma rtc_touch_tidy_frame c s s' :
  rtc (touch c) s s' →
  (∀ n, may_drop c n → False) →
  _processes s' = _processes s ∧ _output_tasks s' = _output_tasks s.
Proof.
  intros Ht Hno. induction Ht as [|s1 s2 s3 H12 _ IH]; [done|].
  destruct IH as [-> ->]. destruct H12; simpl; try done; by edestruct Hno.
Qed.

Lemma run_op_tidy op s : tidy s → tidy (run_op op s).
Proof.
  intros Ht.
  destruct (as_start op) as [[name m]|] eqn:Hop.
  { rewrite (run_op_start _ _ _ _ Hop).
    destruct (start_returns _ _ _ s Hop) as (b & s' & -> & H). simpl.
    destruct (decide (is_Some (_processes s !! name))) as [|Hfree].
    - by destruct H as [_ ->].
    - destruct (launch_ok op).
      + destruct H as [_ St]. intros n.
        rewrite (started_processes _ _ _ St), (started_tasks _ _ _ St).
        intros Hn. apply lookup_insert_is_Some in Hn.
        apply lookup_insert_is_Some.
        destruct Hn as [?|[? ?]]; auto.
      + by destruct H as [_ [->|(? & ? & ? & -> & _)]]. }
  destruct op; simplify_eq/=.
  - destruct (stop_returns name timeout w s) as (s' & -> & St). simpl.
    intros n. rewrite (stopped_processes _ _ _ _ St).
    intros [h [Hne Hn]%lookup_delete_Some].
    rewrite (stopped_tasks _ _ _ _ St) by done. eauto.
  - destruct (stop_all_returns timeout w s) as [-> He]. simpl.
    intros n. rewrite He, lookup_empty. by intros [? ?].
  - destruct (outcome_returns _ _ _ (resume_frame t stream s))
      as ([] & s' & -> & F). simpl. intros n.
    rewrite (frame_processes _ _ _ F), (frame_tasks _ _ _ F). apply Ht.
  - destruct (objects s !! h) as [[? [?|] ? ? ?]|]; done.
Qed.

Lemma reachable_tidy s : reachable s → tidy s.
Proof.
  induction 1 as [|s op _ IH].
  - intros n. simpl. rewrite lookup_empty. by intros [? ?].
  - by apply run_op_tidy.
Qed.

(** X1.  In every state the manager can reach, a registered name has
    its process object, an output buffer under the same name, and a drain
    task entry whose task was created for that name and that process. *)
Theorem registered_name_is_complete (s : ProcessManager) (n : string) (h : nat) :
  reachable s →
  _processes s !! n = Some h →
  is_Some (objects s !! h) ∧
  is_Some (_output_buffers s !! n) ∧
  ∃ t k, _output_tasks s !! n = Some t ∧ loop_tasks s !! t = Some k ∧
         t_name k = n ∧ t_process k = h.
Proof.
  intros Hs Hn. pose proof (reachable_wf s Hs) as W.
  destruct (reachable_tidy s Hs n) as [t Ht]; [eauto|].
  destruct (wf_task s W n t Ht) as (k & Hk & Hname).
  split_and!.
  - by eapply wf_handle.
  - apply (wf_buffer s W). eauto.
  - exists t, k. split_and!; try done. by eapply wf_task_process.
Qed.

(** X2.  In every reachable state two registered names that map to
    the same process object are the same name: each successful start
    registers an object of its own. *)
Theorem names_do_not_share_a_process (s : ProcessManager) (n1 n2 : string)
    (h : nat) :
  reachable s →
  _processes s !! n1 = Some h → _processes s !! n2 = Some h → n1 = n2.
Proof. intros Hs. apply wf_distinct. by apply reachable_wf. Qed.

(** X3.  The lookup [self._output_buffers[name]] of [_read_output]
    never raises [KeyError]: in every reachable state each drain task ever
    created still has a buffer under its name, so the append goes
    through. *)
Theorem drain_task_finds_its_buffer (s : ProcessManager) (t : nat) (k : Task)
    (line_str : string) :
  reachable s →
  loop_tasks s !! t = Some k →
  ∃ d, _output_buffers s !! t_name k = Some d ∧
       buffer_append (t_name k) line_str s =
         (Return (),
          set_output_buffers (<[t_name k := deque_append line_str d]>) s).
Proof.
  intros Hs Hk.
  destruct (wf_task_buffer s (reachable_wf s Hs) t k Hk) as [d Hd].
  exists d. split; [done|]. unfold buffer_append. by rewrite Hd.
Qed.

(* ===================================================================== *)
(** ** What the queries report *)
(* ===================================================================== *)

Lemma rstrip_length x : (String.length (rstrip x) ≤ String.length x)%nat.
Proof.
  induction x as [|c r IH]; [done|]. cbn [rstrip].
  destruct (rstrip r); [destruct (is_space c)|]; simpl in *; lia.
Qed.

Lemma rstrip_snoc_space x c :
  is_space c = true → rstrip (x +:+ String c EmptyString) = rstrip x.
Proof.
  intros Hc. induction x as [|c' r IH]; simpl.
  - by rewrite Hc.
  - by rewrite IH.
Qed.

Lemma length_snoc x c :
  String.length (x +:+ String c EmptyString) = S (String.length x).
Proof. induction x as [|c' r IH]; simpl; [done|]. by rewrite IH. Qed.

(** A stripped line does not end in white space. *)
Lemma stripped_end x y c :
  rstrip x = x → x = y +:+ String c EmptyString → is_space c = false.
Proof.
  intros Hx ->. destruct (is_space c) eqn:Hc; [|done].
  rewrite rstrip_snoc_space in Hx by done.
  pose proof (rstrip_length y) as Hl.
  rewrite Hx, length_snoc in Hl. lia.
Qed.

(** X4.  Every line that [get_output] returns in a reachable state
    is right-stripped: stripping it again changes nothing, and its last
    character is not white space. *)
Theorem captured_lines_are_stripped (s : ProcessManager) (n : string) (k : Z)
    (x y : string) (c : ascii) :
  reachable s →
  x ∈ get_output n k s →
  rstrip x = x ∧ (x = y +:+ String c EmptyString → is_space c = false).
Proof.
  intros Hs Hx.
  assert (rstrip x = x) as Hstrip.
  { unfold get_output in Hx.
    destruct (_output_buffers s !! n) as [d|] eqn:Hd;
      [|by apply elem_of_nil in Hx].
    apply (wf_clean s (reachable_wf s Hs) n d x Hd).
    unfold slice_from in Hx. by eapply subseteq_drop. }
  split; [done|]. by apply stripped_end.
Qed.

Lemma get_status_lookup s n :
  get_status s !! n =
  (λ h, let rc := p ← objects s !! h; returncode p in
        mkStatus (is_running n s)
          (match rc with None => pid <$> objects s !! h | Some _ => None end)
          rc) <$> _processes s !! n.
Proof.
  unfold get_status. rewrite map_lookup_imap.
  by destruct (_processes s !! n).
Qed.

(** X5.  [get_status] has an entry exactly for the registered names;
    in a reachable state the field running of an entry is [is_running] of
    the name, and running holds iff the return code is [None] iff the pid
    is reported. *)
Theorem get_status_is_consistent (s : ProcessManager) (n : string) :
  reachable s →
  (get_status s !! n = None ↔ _processes s !! n = None) ∧
  ∀ st, get_status s !! n = Some st →
    st_running st = is_running n s ∧
    (st_running st = true ↔ st_returncode st = None) ∧
    (st_running st = true ↔ is_Some (st_pid st)).
Proof.
  intros Hs. rewrite get_status_lookup. split.
  { by destruct (_processes s !! n). }
  intros st. destruct (_processes s !! n) as [h|] eqn:Hn; [|done].
  intros [= <-]. simpl.
  destruct (wf_handle s (reachable_wf s Hs) n h Hn) as [p Hp].
  unfold is_running. rewrite Hn, Hp. simpl.
  destruct (returncode p) as [rc|]; simpl.
  - split_and!; [done|split; done|split; [done|by intros [? ?]]].
  - split_and!; [done|split; done|split; eauto].
Qed.

(** A run of mutations leaves alone the objects it may not touch. *)
Lemma rtc_touch_object c s s' h :
  rtc (touch c) s s' → ¬ may_exit c h → objects s' !! h = objects s !! h.
Proof.
  intros Ht Hno. induction Ht as [|s1 s2 s3 H12 _ IH]; [done|].
  rewrite IH. clear IH. destruct H12 as [| | | |h0 rc s Hh| |]; try done.
  rewrite set_returncode_lookup. case_decide; [by subst|].
  destruct (objects s !! h) as [[]|]; reflexivity.
Qed.

(** The events of a run of mutations are added at the end, and each of
    them is one that the scope allows. *)
Lemma rtc_touch_events c s s' :
  rtc (touch c) s s' →
  ∃ evs, events s' = events s ++ evs ∧ Forall (may_emit c) evs.
Proof.
  intros Ht. induction Ht as [|s1 s2 s3 H12 _ (evs & IH & Hevs)].
  { exists []. by rewrite app_nil_r. }
  destruct H12 as [|e s He| | | | |];
    try (exists evs; split; [exact IH|exact Hevs]).
  exists (e :: evs). split.
  - rewrite IH. simpl. by rewrite <- app_assoc.
  - by constructor.
Qed.

(** X6.  [stop n] leaves every other name [m] alone: the registry
    entry and the drain task entry of [m] are after the call what they
    were before, and every event that the call adds is a signal to the
    child of [n] ([terminate], [kill], a wait for its exit), the
    cancellation of the drain task of [n], or the call of a callback;
    none is aimed at the child or at the drain task of [m]. *)
Theorem stop_leaves_the_others_alone (s : ProcessManager) (n m : string)
    (t : Q) (w : StopEnv) :
  reachable s →
  m ≠ n →
  let s' := (stop n t w s).2 in
  _processes s' !! m = _processes s !! m ∧
  _output_tasks s' !! m = _output_tasks s !! m ∧
  ∃ evs, events s' = events s ++ evs ∧
         Forall (λ e, aimed_at n s e ∨ is_callback e) evs ∧
         Forall (λ e, ¬ aimed_at m s e) evs.
Proof.
  intros Hs Hne.
  destruct (stop_returns n t w s) as (s' & Hstop & St).
  pose proof (stop_touches n t w s) as Ht. unfold outcome in Ht.
  rewrite Hstop in Ht |- *. simpl.
  split_and!.
  - by rewrite (stopped_processes _ _ _ _ St), lookup_delete_ne.
  - by apply (stopped_tasks _ _ _ _ St).
  - destruct (rtc_touch_events _ _ _ Ht) as (evs & Hev & Hall).
    exists evs. split; [done|]. split; [exact Hall|].
    eapply Forall_impl; [exact Hall|]. simpl.
    pose proof (reachable_wf s Hs) as W.
    intros e [Hn|Hcb] Hm.
    + destruct e as [h|h|h|h q|h|k|]; simpl in Hn, Hm; try done;
        try (apply Hne; by eapply (wf_distinct s W)).
      destruct (wf_task s W _ _ Hn) as (k1 & Hk1 & <-).
      destruct (wf_task s W _ _ Hm) as (k2 & Hk2 & <-).
      apply Hne. congruence.
    + by destruct e.
Qed.

(** X7.  When a running child exits on its own its name stays
    registered: [is_running] turns [False], [get_status] reports running
    [False], no pid and the return code, and a start under the name is
    still refused. *)
Theorem exited_child_stays_registered (s : ProcessManager) (n : string)
    (h : nat) (p : Process) (rc : Z) (op : Op) (m : M bool) :
  _processes s !! n = Some h →
  objects s !! h = Some p →
  returncode p = None →
  as_start op = Some (n, m) →
  let s' := run_op (Exits h rc) s in
  is_running n s = true ∧
  is_running n s' = false ∧
  _processes s' !! n = Some h ∧
  get_status s' !! n = Some (mkStatus false None (Some rc)) ∧
  (m s').1 = Return false.
Proof.
  intros Hn Hp Hrc Hop s'.
  assert (s' = (set_returncode h rc s).2) as ->.
  { subst s'. simpl. rewrite Hp. destruct p. simpl in Hrc. by subst. }
  assert (_processes (set_returncode h rc s).2 !! n = Some h) as Hn' by done.
  assert (objects (set_returncode h rc s).2 !! h =
          Some (mkProcess (pid p) (Some rc) (p_cmd p) (p_cwd p) (p_env p)))
    as Hp'.
  { rewrite set_returncode_lookup, Hp. cbn [fmap option_fmap option_map].
    case_decide; done. }
  split_and!.
  - unfold is_running. rewrite Hn, Hp. simpl. by rewrite Hrc.
  - unfold is_running. by rewrite Hn', Hp'.
  - done.
  - rewrite get_status_lookup. unfold is_running. rewrite Hn'.
    cbn [fmap option_fmap option_map]. by rewrite Hp'.
  - destruct (start_returns _ _ _ (set_returncode h rc s).2 Hop)
      as (b & s2 & -> & H).
    rewrite decide_True in H by eauto. by destruct H as [-> _].
Qed.

(** X8.  A start that returns [True] found the name free; when it
    returns the registry maps the name to a process object that was not
    there before, the drain task entry of the name is a new task that
    reads that process under that name and has not ended, the output of
    the name is empty whatever count is asked for (a fresh buffer replaces
    older output), and every other name keeps its registry entry and its
    drain task entry. *)
Theorem successful_start_registers_afresh (s s' : ProcessManager) (op : Op)
    (n : string) (m : M bool) :
  as_start op = Some (n, m) →
  m s = (Return true, s') →
  _processes s !! n = None ∧
  (∃ h t k,
     _processes s' !! n = Some h ∧
     objects s !! h = None ∧ is_Some (objects s' !! h) ∧
     _output_tasks s' !! n = Some t ∧
     loop_tasks s !! t = None ∧ loop_tasks s' !! t = Some k ∧
     t_name k = n ∧ t_process k = h ∧ t_state k = Running) ∧
  (∀ k, get_output n k s' = []) ∧
  (∀ n', n' ≠ n →
     _processes s' !! n' = _processes s !! n' ∧
     _output_tasks s' !! n' = _output_tasks s !! n').
Proof.
  intros Hop Hm.
  destruct (start_returns _ _ _ s Hop) as (b & s2 & Hm' & H).
  rewrite Hm in Hm'. injection Hm' as <- <-.
  destruct (decide (is_Some (_processes s !! n))) as [|Hfree];
    [by destruct H|].
  destruct (launch_ok op); [|by destruct H].
  destruct H as [_ St].
  destruct (started_objects _ _ _ St) as (p & Ho & Hrc).
  destruct (started_loop_tasks _ _ _ St) as (cb & Hl).
  split_and!.
  - by apply eq_None_not_Some.
  - exists (length (objects s)), (length (loop_tasks s)),
      (mkTask n (length (objects s)) cb Running).
    split_and!; try done.
    + by rewrite (started_processes _ _ _ St), lookup_insert_eq.
    + by apply lookup_ge_None_2.
    + rewrite Ho, lookup_app_r, Nat.sub_diag by done. eauto.
    + by rewrite (started_tasks _ _ _ St), lookup_insert_eq.
    + by apply lookup_ge_None_2.
    + by rewrite Hl, lookup_app_r, Nat.sub_diag by done.
  - intros k. unfold get_output, slice_from.
    rewrite (started_buffers _ _ _ St), lookup_insert_eq. simpl.
    apply drop_nil.
  - intros n' Hne. split_and!.
    + by rewrite (started_processes _ _ _ St), lookup_insert_ne.
    + by rewrite (started_tasks _ _ _ St), lookup_insert_ne.
Qed.

(** X9.  For a name with a buffer, in a reachable state:
    [get_output n k] is the last [k] buffered lines when [k] is positive,
    all but the first [-k] lines when [k] is negative, never more than 1000
    lines, and always a suffix of the buffer. *)
Theorem get_output_window (s : ProcessManager) (n : string) (d : deque) (k : Z) :
  reachable s →
  _output_buffers s !! n = Some d →
  ((0 < k)%Z → get_output n k s = last_n (Z.to_nat k) (items d)) ∧
  ((k < 0)%Z → get_output n k s = drop (Z.to_nat (- k)) (items d)) ∧
  (length (get_output n k s) ≤ 1000)%nat ∧
  get_output n k s `suffix_of` items d.
Proof.
  intros Hs Hd.
  destruct (reachable_buffers_ok s Hs n d Hd) as [Hm Hle].
  rewrite Hm in Hle. unfold _max_output_lines in Hle.
  unfold get_output. rewrite Hd. split_and!.
  - intros Hk. by apply slice_from_recent.
  - intros Hk. unfold slice_from.
    destruct (- k <? 0)%Z eqn:Hlt; [apply Z.ltb_lt in Hlt; lia|].
    destruct (decide (- k ≤ Z.of_nat (length (items d)))%Z).
    + by rewrite Z.min_l by lia.
    + rewrite Z.min_r, Nat2Z.id by lia.
      rewrite !drop_ge; [done|lia..].
  - unfold slice_from. rewrite length_drop. lia.
  - apply suffix_drop.
Qed.

(* ===================================================================== *)
(** ** What the drain task captures *)
(* ===================================================================== *)

Lemma read_loop_accepted name (cb : option Callback) text s d :
  _output_buffers s !! name = Some d →
  accepts cb text →
  ∃ s', (∀ rest, read_loop name cb (Line text :: rest) s =
                 read_loop name cb rest s') ∧
        _output_buffers s' =
          <[name := deque_append (rstrip text) d]> (_output_buffers s) ∧
        log s' = log s ∧ loop_tasks s' = loop_tasks s.
Proof.
  intros Hd [Ht Hcb]. destruct cb as [f|].
  - eexists. split.
    + intros rest.
      rewrite (read_loop_line _ _ _ _ _ d), (Hcb f) by done. reflexivity.
    + done.
  - eexists. split.
    + intros rest. cbn [read_loop].
      unfold mbind at 1, M_bind, readline, mret at 1, M_ret.
      rewrite decide_False by done.
      unfold mbind at 1, M_bind, buffer_append. rewrite Hd.
      unfold mbind at 1, M_bind, mret at 1, M_ret. reflexivity.
    + done.
Qed.

(** The loop takes the accepted lines one after the other and goes on
    with what follows them. *)
Lemma read_loop_prefix name (cb : option Callback) lines s d :
  _output_buffers s !! name = Some d →
  Forall (accepts cb) lines →
  ∃ s', (∀ rest, read_loop name cb ((Line <$> lines) ++ rest) s =
                 read_loop name cb rest s') ∧
        _output_buffers s' =
          <[name := deque_extend d (rstrip <$> lines)]> (_output_buffers s) ∧
        log s' = log s ∧ loop_tasks s' = loop_tasks s.
Proof.
  intros Hd Hlines. revert s d Hd.
  induction Hlines as [|l lines Hl _ IH]; intros s d Hd.
  - exists s. split_and!; try done. simpl. by rewrite insert_id.
  - destruct (read_loop_accepted name cb l s d Hd Hl)
      as (s1 & Hstep & Hb1 & Hl1 & Ht1).
    destruct (IH s1 (deque_append (rstrip l) d)) as (s' & Hrest & Hb & Hl' & Ht').
    { rewrite Hb1. apply lookup_insert_eq. }
    exists s'. split_and!.
    + intros rest. cbn [fmap list_fmap app]. by rewrite Hstep, Hrest.
    + rewrite Hb, Hb1. by rewrite insert_insert_eq.
    + congruence.
    + congruence.
Qed.

(** X10.  After a successful start of [n], once its drain task has
    read non-empty lines that the callback accepts, [get_output n k] for a
    positive [k] is the last [k] of the last 1000 of these lines, each
    right-stripped, in the order of emission. *)
Theorem captured_output_is_the_recent_tail (s s1 : ProcessManager) (op : Op)
    (n : string) (m : M bool) (lines : list string) (k : Z) :
  as_start op = Some (n, m) →
  m s = (Return true, s1) →
  (∀ task, loop_tasks s1 !! length (loop_tasks s) = Some task →
           Forall (accepts (t_callback task)) lines) →
  (0 < k)%Z →
  let s2 := run_op (Drain (length (loop_tasks s)) (Line <$> lines)) s1 in
  get_output n k s2 =
    last_n (Z.to_nat k) (last_n 1000 (rstrip <$> lines)) ∧
  get_output n k s2 `suffix_of` (rstrip <$> lines).
Proof.
  intros Hop Hm Hcb Hk s2.
  destruct (start_returns _ _ _ s Hop) as (b & s' & Hm' & H).
  rewrite Hm in Hm'. injection Hm' as <- <-.
  destruct (decide (is_Some (_processes s !! n))); [by destruct H|].
  destruct (launch_ok op); [|by destruct H].
  destruct H as [_ St].
  destruct (started_loop_tasks _ _ _ St) as (cb & Hl).
  assert (loop_tasks s1 !! length (loop_tasks s) =
          Some (mkTask n (length (objects s)) cb Running)) as Ht.
  { by rewrite Hl, lookup_app_r, Nat.sub_diag by done. }
  assert (_output_buffers s1 !! n = Some (mkDeque _max_output_lines [])) as Hd.
  { by rewrite (started_buffers _ _ _ St), lookup_insert_eq. }
  destruct (read_loop_prefix n cb lines s1 _ Hd (Hcb _ Ht))
    as (s3 & Hloop & Hb & _ & _).
  assert (_output_buffers s2 !! n =
          Some (deque_extend (mkDeque _max_output_lines []) (rstrip <$> lines)))
    as Hd2.
  { subst s2. simpl. unfold resume. rewrite Ht. simpl.
    unfold _read_output, try_except.
    specialize (Hloop []). rewrite app_nil_r in Hloop. rewrite Hloop. simpl.
    rewrite Hb. apply lookup_insert_eq. }
  rewrite (get_output_recent _ _ _ _ Hd2 Hk), fresh_buffer_items.
  split; [done|]. unfold last_n.
  etrans; apply suffix_drop.
Qed.

(** X11.  The ways [_read_output] ends.  After the lines it accepted
    the coroutine is suspended in [readline]; an empty read and a
    [CancelledError] both end it silently, with the same buffer and log;
    any other exception of [readline] ends it with one error record; what
    the stream would deliver afterwards is never read. *)
Theorem drain_loop_endings (name : string) (process : nat)
    (cb : option Callback) (lines : list string) (post : list ReadResult)
    (s : ProcessManager) (d : deque) :
  _output_buffers s !! name = Some d →
  Forall (accepts cb) lines →
  ∃ s', _read_output name process cb (Line <$> lines) s =
          (Return Suspended, s') ∧
        _output_buffers s' !! name =
          Some (deque_extend d (rstrip <$> lines)) ∧
        log s' = log s ∧
        _read_output name process cb
          ((Line <$> lines) ++ Line EmptyString :: post) s =
          (Return Returned, s') ∧
        _read_output name process cb
          ((Line <$> lines) ++ Fails CancelledError :: post) s =
          (Return Returned, s') ∧
        ∀ e, _read_output name process cb
               ((Line <$> lines) ++ Fails (Exc e) :: post) s =
               (Return Returned,
                set_log (λ l, l ++ [read_error name e]) s').
Proof.
  intros Hd Hlines.
  destruct (read_loop_prefix name cb lines s d Hd Hlines)
    as (s' & Hloop & Hb & Hl & _).
  exists s'. unfold _read_output, try_except. split_and!.
  - specialize (Hloop []). rewrite app_nil_r in Hloop. by rewrite Hloop.
  - rewrite Hb. apply lookup_insert_eq.
  - done.
  - by rewrite Hloop.
  - by rewrite Hloop.
  - intros e. by rewrite Hloop.
Qed.

(** Once its coroutine has returned, a task takes no further input. *)
Lemma resume_done t stream s k :
  loop_tasks s !! t = Some k → t_state k = Done →
  resume t stream s = (Return (), s).
Proof. intros Hk Hd. unfold resume. by rewrite Hk, Hd. Qed.

(** X12.  [stop_all] on an empty registry changes nothing, and a
    second [stop_all] right after a first one changes nothing, whatever
    the children do. *)
Theorem stop_all_twice (t t' : Q) (w w' : string → StopEnv)
    (s : ProcessManager) :
  (_processes s = ∅ → stop_all t w s = (Return (), s)) ∧
  stop_all t' w' (stop_all t w s).2 = (Return (), (stop_all t w s).2).
Proof.
  assert (∀ s0, _processes s0 = ∅ → stop_all t' w' s0 = (Return (), s0) ∧
                                    stop_all t w s0 = (Return (), s0)) as He.
  { intros s0 H0. unfold stop_all, mbind, M_bind, gets.
    by rewrite H0, map_to_list_empty. }
  split.
  - intros H0. by apply He.
  - apply He. by destruct (stop_all_returns t w s) as [-> Hempty].
Qed.

(* ===================================================================== *)
(** ** The signals of [stop] *)
(* ===================================================================== *)

Lemma signals_snoc l e :
  signals (l ++ [e]) = signals l ++ (if is_signal e then [e] else []).
Proof. unfold signals. rewrite List.filter_app. simpl. by destruct (is_signal e). Qed.

Lemma touch_undisturbed s s' : touch drain_scope s s' → undisturbed s s'.
Proof.
  intros Ht. destruct Ht as [| e s He | | | h rc s [] | n s [] | n s []];
    split; try done.
  simpl. rewrite signals_snoc. destruct e; try done.
  simpl. by rewrite app_nil_r.
Qed.

Lemma rtc_touch_undisturbed s s' :
  rtc (touch drain_scope) s s' → undisturbed s s'.
Proof.
  induction 1 as [|s1 s2 s3 H12 _ IH]; [by split|].
  apply touch_undisturbed in H12. destruct H12, IH. split; congruence.
Qed.

(** Whatever a drain task reads, it sends no signal and touches neither
    the registry nor a process object. *)
Lemma resume_undisturbed t stream s :
  ∃ s', resume t stream s = (Return (), s') ∧ undisturbed s s'.
Proof.
  destruct (outcome_returns _ _ _ (resume_frame t stream s))
    as ([] & s' & Hr & _).
  exists s'. split; [done|].
  pose proof (walks_resume drain_scope t stream (λ e H, H) s s (rtc_refl _ _))
    as Hw.
  unfold outcome in Hw. rewrite Hr in Hw. by apply rtc_touch_undisturbed.
Qed.

(** The path of [stop] through the wait, signal by signal. *)
Lemma stop_running_child (s : ProcessManager) (n : string) (h t : nat)
    (p : Process) (timeout : Q) (w : StopEnv) :
  _processes s !! n = Some h →
  objects s !! h = Some p →
  returncode p = None →
  terminate_vanished w = false →
  _output_tasks s !! n = Some t →
  let s' := (stop n timeout w s).2 in
  signals (events s') =
    signals (events s) ++ [EvTerminate h; EvWaitFor h timeout] ++
    escalation h w ++ [EvCancel t] ∧
  (p' ← objects s' !! h; returncode p') = exit_status w.
Proof.
  intros Hn Hp Hrc Hv Ht.
  set (Q := λ (evs : list Event) (rc : option Z) (s' : ProcessManager),
    signals (events s') = signals (events s) ++ evs ∧
    (p' ← objects s' !! h; returncode p') = rc ∧
    is_Some (objects s' !! h) ∧
    _processes s' !! n = Some h ∧ _output_tasks s' !! n = Some t).
  assert (∀ evs rc f s1, Q evs rc s1 → Q evs rc (set_log f s1)) as Qlog
    by done.
  assert (∀ evs rc e s1, Q evs rc s1 → is_signal e = true →
            Q (evs ++ [e]) rc (set_events (λ l, l ++ [e]) s1)) as Qemit.
  { intros evs rc e s1 (Hs & Ho & Hi & Hpn & Htn) He. split_and!; try done.
    simpl. by rewrite signals_snoc, He, Hs, <- app_assoc. }
  assert (∀ evs rc t' stream s1, Q evs rc s1 →
            outcome (resume t' stream) s1 (λ _ s2, Q evs rc s2) never)
    as Qresume.
  { intros evs rc t' stream s1 (Hs & Ho & Hi & Hpn & Htn).
    destruct (resume_undisturbed t' stream s1) as (s2 & Hr & [U1 U2 U3 U4]).
    unfold outcome. rewrite Hr. unfold Q. by rewrite U1, U2, U3, U4. }
  assert (∀ evs rc0 rc s1, Q evs rc0 s1 →
            Q evs (Some rc) (set_returncode h rc s1).2) as Qrc.
  { intros evs rc0 rc s1 (Hs & Ho & [p1 Hp1] & Hpn & Htn).
    split_and!; try done; rewrite set_returncode_lookup, Hp1; simpl.
    - by rewrite decide_True.
    - eauto. }
  assert (Q [] None s) as Q0.
  { split_and!; [by rewrite app_nil_r|by rewrite Hp|eauto|done|done]. }
  enough (outcome (stop n timeout w) s
            (λ _ s', signals (events s') =
                       signals (events s) ++ [EvTerminate h; EvWaitFor h timeout]
                       ++ escalation h w ++ [EvCancel t] ∧
                     (p' ← objects s' !! h; returncode p') = exit_status w)
            never) as Hout.
  { apply outcome_returns in Hout as (b & s' & -> & H). exact H. }
  unfold stop, stop_from_wait. apply outcome_bind, outcome_gets. rewrite Hn.
  apply outcome_bind, outcome_gets. rewrite Hp. simpl. rewrite Hrc.
  apply outcome_bind, outcome_gets, outcome_bind, outcome_modify.
  apply outcome_bind with (m := try_except _ _), outcome_try.
  apply outcome_bind. unfold terminate. rewrite Hv.
  apply outcome_modify, outcome_ret.
  match goal with |- outcome _ ?s1 _ _ =>
    assert (Q [EvTerminate h] None s1) as Q1
      by (apply (Qemit []); [by apply Qlog|done]) end.
  apply outcome_bind.
  (* the cleanup *)
  match goal with |- outcome _ _ ?Q1 _ =>
    assert (∀ s2, Q ([EvTerminate h; EvWaitFor h timeout] ++ escalation h w)
                    (exit_status w) s2 → Q1 () s2) as Htail end.
  { intros s2 Q2. apply outcome_bind, outcome_gets, outcome_bind.
    destruct Q2 as (Hs2 & Ho2 & Hi2 & Hpn2 & Htn2). rewrite Htn2.
    apply outcome_bind, outcome_modify, outcome_bind, outcome_try.
    eapply outcome_mono;
      [apply (Qresume (([EvTerminate h; EvWaitFor h timeout] ++ escalation h w)
                         ++ [EvCancel t]) (exit_status w))| |done].
    - apply Qemit; [|done]. by split_and!.
    - intros [] s3 (Hs3 & Ho3 & Hi3 & Hpn3 & Htn3). cbv beta.
      unfold outcome at 1, del_output_tasks. rewrite Htn3.
      apply outcome_bind. unfold outcome at 1, del_processes.
      cbn [_processes set_output_tasks]. rewrite Hpn3.
      apply outcome_bind, outcome_modify, outcome_ret. simpl.
      split; [|done]. by rewrite Hs3, <- !app_assoc. }
  apply outcome_try. unfold wait_for_wait.
  apply outcome_bind, outcome_modify.
  match goal with |- outcome _ ?s1 _ _ =>
    assert (Q [EvTerminate h; EvWaitFor h timeout] None s1) as Q2
      by (by apply (Qemit [EvTerminate h])) end.
  apply outcome_bind, outcome_gets, outcome_bind.
  destruct Q2 as (Hs2 & Ho2 & Hi2 & Hpn2 & Htn2). cbn [_output_tasks set_events] in Htn2 |- *.
  rewrite Htn2.
  eapply outcome_mono;
    [apply (Qresume [EvTerminate h; EvWaitFor h timeout] None);
     by split_and!| |done].
  intros [] s3 Q3. cbv beta. unfold escalation, exit_status in Htail |- *.
  destruct (exits_within w) as [rc|].
  - unfold set_returncode at 1. apply outcome_modify, Htail.
    rewrite app_nil_r. exact (Qrc _ _ rc s3 Q3).
  - apply outcome_raise. simpl.
    apply outcome_bind, outcome_modify, outcome_try, outcome_bind.
    unfold kill. destruct (kill_vanished w).
    + apply outcome_raise. simpl. apply outcome_ret, Htail.
      rewrite app_nil_r. by apply Qlog.
    + apply outcome_modify. unfold wait.
      apply outcome_bind, outcome_modify.
      unfold set_returncode at 1. apply outcome_modify, Htail.
      apply (Qrc _ None).
      apply (Qemit [EvTerminate h; EvWaitFor h timeout; EvKill h]); [|done].
      apply (Qemit [EvTerminate h; EvWaitFor h timeout]); [|done].
      by apply Qlog.
Qed.


(* ===================================================================== *)
(** ** The child a start creates *)
(* ===================================================================== *)

Lemma spawn_and_register_object name cmd cwd env cb host child s :
  exec_outcome host = SpawnOk child →
  objects (spawn_and_register name cmd cwd env cb host s).2 =
  objects s ++ [mkProcess child None cmd cwd env].
Proof.
  intros Hx. unfold spawn_and_register, create_subprocess_exec, try_except.
  rewrite Hx. reflexivity.
Qed.

Lemma start_python_process_object name module args cwd env venv cb host child s :
  _processes s !! name = None →
  exec_outcome host = SpawnOk child →
  objects (start_python_process name module args cwd env venv cb host s).2 =
  objects s ++
  [mkProcess child None
     ([match venv with
       | Some v => if decide (sys_platform host = "win32")
                   then path_join host (path_join host v "Scripts") "python.exe"
                   else path_join host (path_join host v "bin") "python"
       | None => sys_executable host
       end; "-m"; module] ++ default [] args)
     cwd (merge_env host env)].
Proof.
  intros Hfree Hx.
  assert (¬ is_Some (_processes s !! name)) as Hno
    by (by rewrite Hfree; intros [? ?]).
  unfold start_python_process.
  rewrite bind_gets, decide_False by done.
  cbv zeta. unfold logger. rewrite bind_modify.
  by rewrite (spawn_and_register_object _ _ _ _ _ _ child).
Qed.

Lemma start_npx_process_object name package args cwd env cb host child s :
  _processes s !! name = None →
  exec_outcome host = SpawnOk child →
  objects (start_npx_process name package args cwd env cb host s).2 =
  objects s ++ [mkProcess child None (["npx"; package] ++ default [] args)
                  cwd (merge_env host env)].
Proof.
  intros Hfree Hx.
  assert (¬ is_Some (_processes s !! name)) as Hno
    by (by rewrite Hfree; intros [? ?]).
  unfold start_npx_process.
  rewrite bind_gets, decide_False by done.
  cbv zeta. unfold logger. rewrite bind_modify.
  by rewrite (spawn_and_register_object _ _ _ _ _ _ child).
Qed.

(* ===================================================================== *)
(** ** The candidates of [find_package_path] *)
(* ===================================================================== *)

(** X15.  [find_package_path] returns the first existing path among
    the bundled directory (named by the package name with every [mrmd-]
    removed), the sibling directory four levels up and the directory under
    [MRMD_PACKAGES_DIR], a variable that is ignored when unset or empty;
    the path it returns exists, and it returns [None] exactly when none
    exists. *)
Theorem find_package_path_first_match (lib : PathLib)
    (environ : gmap string string) (package_name : string) :
  let here := parent lib (module_file lib) in
  let candidates :=
    [joinpath lib (joinpath lib here "bundled")
       (replace "mrmd-" EmptyString package_name);
     joinpath lib (parent lib (parent lib (parent lib here))) package_name] ++
    match environ !! "MRMD_PACKAGES_DIR" with
    | Some env_path =>
        if decide (env_path = EmptyString) then []
        else [joinpath lib env_path package_name]
    | None => []
    end in
  find_package_path lib environ package_name =
    head (List.filter (path_exists lib) candidates) ∧
  (∀ p, find_package_path lib environ package_name = Some p →
        path_exists lib p = true ∧ p ∈ candidates) ∧
  (find_package_path lib environ package_name = None ↔
   Forall (λ p, path_exists lib p = false) candidates) ∧
  (∀ x, replace "mrmd-" EmptyString ("mrmd-" +:+ x) =
        replace "mrmd-" EmptyString x).
Proof.
  intros here candidates.
  assert (find_package_path lib environ package_name =
          head (List.filter (path_exists lib) candidates)) as Hfind.
  { unfold find_package_path, candidates, here. cbn [app List.filter].
    destruct (path_exists lib (joinpath lib (joinpath lib _ "bundled") _));
      [done|].
    destruct (path_exists lib (joinpath lib (parent lib _) package_name));
      [done|].
    destruct (environ !! "MRMD_PACKAGES_DIR") as [env_path|]; [|done].
    case_decide; [done|]. cbn [List.filter].
    by destruct (path_exists lib (joinpath lib env_path package_name)). }
  split_and!.
  - exact Hfind.
  - intros p. rewrite Hfind. intros Hp.
    assert (p ∈ List.filter (path_exists lib) candidates) as Hin.
    { destruct (List.filter (path_exists lib) candidates); simplify_eq/=.
      left. }
    apply list_elem_of_In, List.filter_In in Hin as [Hin Hex].
    split; [done|]. by apply list_elem_of_In.
  - rewrite Hfind. split.
    + intros Hnone. apply Forall_forall. intros p Hp.
      destruct (path_exists lib p) eqn:Hex; [|done].
      assert (p ∈ List.filter (path_exists lib) candidates) as Hin.
      { apply list_elem_of_In, List.filter_In. split; [|done].
        by apply list_elem_of_In. }
      destruct (List.filter (path_exists lib) candidates);
        [by apply elem_of_nil in Hin|done].
    + intros Hall.
      destruct (List.filter (path_exists lib) candidates) as [|p l] eqn:Hf;
        [done|].
      assert (In p (List.filter (path_exists lib) candidates)) as Hin
        by (rewrite Hf; left; done).
      apply List.filter_In in Hin as [Hin Hex].
      rewrite Forall_forall in Hall.
      apply list_elem_of_In, Hall in Hin. congruence.
  - intros x. by destruct x.
Qed.

(* ===================================================================== *)
(** ** The file API *)
(* ===================================================================== *)

(** *** Strings *)

Lemma rstrip_chars s c :
  c ∈ list_ascii_of_string (rstrip s) → c ∈ list_ascii_of_string s.
Proof.
  induction s as [|x r IH]; [done|]. cbn [rstrip].
  destruct (rstrip r) as [|y r'] eqn:Hr.
  - destruct (is_space x); simpl; [by intros ?%elem_of_nil|].
    intros ->%list_elem_of_singleton. left.
  - change (list_ascii_of_string (String x (String y r')))
      with (x :: list_ascii_of_string (String y r')).
    cbn [list_ascii_of_string] in IH |- *.
    rewrite (elem_of_cons _ c x). intros [->|Hc]; [left|right; auto].
Qed.

Lemma lstrip_chars s c :
  c ∈ list_ascii_of_string (lstrip s) → c ∈ list_ascii_of_string s.
Proof.
  induction s as [|x r IH]; [done|]. cbn [lstrip].
  destruct (is_space x); [|done].
  cbn [list_ascii_of_string]. rewrite elem_of_cons. auto.
Qed.

Lemma keep_chars f s c :
  c ∈ list_ascii_of_string (keep f s) → f c = true.
Proof.
  induction s as [|x r IH]; simpl; [by intros ?%elem_of_nil|].
  destruct (f x) eqn:Hx; [|done].
  cbn [list_ascii_of_string]. rewrite elem_of_cons. by intros [->|Hc]; auto.
Qed.

Lemma keep_sub f s c :
  c ∈ list_ascii_of_string (keep f s) → c ∈ list_ascii_of_string s.
Proof.
  induction s as [|x r IH]; [done|]. simpl.
  destruct (f x); cbn [list_ascii_of_string]; rewrite ?elem_of_cons;
    [intros [->|Hc]|]; auto.
Qed.

Lemma keep_id f s :
  (∀ c, c ∈ list_ascii_of_string s → f c = true) → keep f s = s.
Proof.
  induction s as [|x r IH]; [done|]. intros Hs. simpl.
  rewrite (Hs x) by left. rewrite IH; [done|].
  intros c Hc. apply Hs. by right.
Qed.

Lemma lstrip_head s :
  lstrip s = EmptyString ∨
  ∃ c r, lstrip s = String c r ∧ is_space c = false.
Proof.
  induction s as [|x r IH]; [by left|]. cbn [lstrip].
  destruct (is_space x) eqn:Hx; [done|]. right. eauto.
Qed.

Lemma rstrip_head c r :
  is_space c = false → ∃ r', rstrip (String c r) = String c r'.
Proof.
  intros Hc. cbn [rstrip]. destruct (rstrip r); [rewrite Hc|]; eauto.
Qed.

Lemma strip_stripped s :
  lstrip (strip s) = strip s ∧ rstrip (strip s) = strip s.
Proof.
  unfold strip. split; [|apply rstrip_idemp].
  destruct (lstrip_head s) as [->|(c & r & -> & Hc)]; [done|].
  destruct (rstrip_head c r Hc) as [r' ->]. simpl. by rewrite Hc.
Qed.

Lemma strip_id s : lstrip s = s → rstrip s = s → strip s = s.
Proof. unfold strip. by intros -> ->. Qed.

(** *** Path names *)

Lemma append_cons c a b : String c a +:+ b = String c (a +:+ b).
Proof. done. Qed.

Lemma append_nil_r s : s +:+ EmptyString = s.
Proof. induction s as [|c r IH]; [done|]. by rewrite append_cons, IH. Qed.

Lemma string_length_app x y :
  String.length (x +:+ y) = (String.length x + String.length y)%nat.
Proof. induction x as [|c r IH]; simpl; [done|]. by rewrite IH. Qed.

Lemma rfind_from_app c x y i found :
  rfind_from c (x +:+ y) i found =
  rfind_from c y (i + String.length x) (rfind_from c x i found).
Proof.
  revert i found. induction x as [|a r IH]; intros i found; simpl.
  - by rewrite Nat.add_0_r.
  - rewrite IH. f_equal. lia.
Qed.

Lemma substring_all s : substring 0 (String.length s) s = s.
Proof. induction s as [|c r IH]; simpl; [done|]. by rewrite IH. Qed.

Lemma substring_app_l x y : substring 0 (String.length x) (x +:+ y) = x.
Proof.
  induction x as [|c r IH]; simpl; [by destruct y|]. by rewrite IH.
Qed.

Lemma substring_app_r x y :
  substring (String.length x) (String.length y) (x +:+ y) = y.
Proof. induction x as [|c r IH]; simpl; [apply substring_all|done]. Qed.

Lemma substring_split s i :
  (i ≤ String.length s)%nat →
  substring 0 i s +:+ substring i (String.length s - i) s = s.
Proof.
  revert i. induction s as [|c r IH]; intros i Hi; simpl in *.
  - destruct i; [done|lia].
  - destruct i as [|i]; simpl.
    + by rewrite substring_all.
    + rewrite append_cons. f_equal. apply IH. lia.
Qed.

Lemma path_stem_suffix name_ : path_stem name_ +:+ path_suffix name_ = name_.
Proof.
  unfold path_stem, path_suffix. destruct (rfind "." name_) as [i|].
  - destruct ((0 <? i)%nat && (i <? String.length name_ - 1)%nat) eqn:Hi.
    + apply substring_split.
      apply andb_true_iff in Hi as [_ Hi%Nat.ltb_lt]. lia.
    + apply append_nil_r.
  - apply append_nil_r.
Qed.

Lemma path_md x :
  x ≠ EmptyString →
  path_suffix (x +:+ ".md") = ".md" ∧ path_stem (x +:+ ".md") = x.
Proof.
  intros Hx. unfold path_suffix, path_stem, rfind.
  rewrite rfind_from_app. cbn [rfind_from Ascii.eqb Bool.eqb].
  rewrite string_length_app. cbn [String.length].
  assert (0 < String.length x)%nat as Hl by (destruct x; simpl; [done|lia]).
  replace ((0 <? 0 + String.length x)%nat &&
           (0 + String.length x <? String.length x + 3 - 1)%nat) with true.
  2:{ symmetry. apply andb_true_iff. split; apply Nat.ltb_lt; lia. }
  replace (String.length x + 3 - (0 + String.length x))%nat
    with (String.length ".md") by (simpl; lia).
  simpl "+"%nat. split; [apply substring_app_r|apply substring_app_l].
Qed.

(** *** The loop of [list_files] *)

Lemma list_loop_sound items acc entries :
  list_loop items acc = Responds entries →
  ∃ more, entries = acc ++ more ∧
    ∀ e, e ∈ more → ∃ item, item ∈ items ∧ lists item e.
Proof.
  revert acc. induction items as [|item rest IH]; intros acc; simpl.
  { intros [= <-]. exists []. split; [by rewrite app_nil_r|].
    by intros e ?%elem_of_nil. }
  assert (∀ acc', list_loop rest acc' = Responds entries →
            (∃ more', acc' = acc ++ more' ∧
               ∀ e, e ∈ more' → lists item e) →
            ∃ more, entries = acc ++ more ∧
              ∀ e, e ∈ more → ∃ item0, item0 ∈ item :: rest ∧ lists item0 e)
    as Hstep.
  { intros acc' Hl (more' & -> & Hm).
    destruct (IH _ Hl) as (more & -> & Hmore).
    exists (more' ++ more). split; [by rewrite app_assoc|].
    intros e [He|He]%elem_of_app.
    - exists item. split; [left|auto].
    - destruct (Hmore e He) as (i & Hi & Hle). exists i. split; [by right|done]. }
  destruct (String.prefix "." (item_name item)) eqn:Hdot.
  { intros Hl. apply (Hstep acc Hl). exists []. split; [by rewrite app_nil_r|].
    by intros e ?%elem_of_nil. }
  destruct (item_relative item) as [rel|] eqn:Hrel; [|done].
  destruct (item_raises item) as [x|] eqn:Hx.
  { case_decide; [|done]. intros [= <-]. exists [].
    split; [by rewrite app_nil_r|]. by intros e ?%elem_of_nil. }
  destruct (item_node item) as [content mtime| | |] eqn:Hnode.
  - case_decide as Hmd.
    + intros Hl. apply (Hstep _ Hl). eexists. split; [done|].
      intros e ->%list_elem_of_singleton.
      split; [done|]. split; [done|].
      exists rel. split; [done|]. by rewrite Hnode.
    + intros Hl. apply (Hstep acc Hl). exists []. split; [by rewrite app_nil_r|].
      by intros e ?%elem_of_nil.
  - intros Hl. apply (Hstep _ Hl). eexists. split; [done|].
    intros e ->%list_elem_of_singleton.
    split; [done|]. split; [done|].
    exists rel. split; [done|]. by rewrite Hnode.
  - intros Hl. apply (Hstep acc Hl). exists []. split; [by rewrite app_nil_r|].
    by intros e ?%elem_of_nil.
  - intros [= <-]. exists []. split; [by rewrite app_nil_r|].
    by intros e ?%elem_of_nil.
Qed.

Lemma list_loop_complete items acc :
  Forall (λ item, item_node item ≠ Unreadable ∧
                  item_raises item = None ∧
                  is_Some (item_relative item)) items →
  ∃ more, list_loop items acc = Responds (acc ++ more) ∧
    ∀ item e, item ∈ items → lists item e → e ∈ more.
Proof.
  intros Hall. revert acc.
  induction Hall as [|item rest (Hread & Hok & [rel Hrel]) _ IH];
    intros acc; simpl.
  { exists []. split; [by rewrite app_nil_r|]. by intros ?? ?%elem_of_nil. }
  assert (∀ new, (∀ e, lists item e → e ∈ new) →
            ∃ more, list_loop rest (acc ++ new) = Responds (acc ++ more) ∧
              ∀ item0 e, item0 ∈ item :: rest → lists item0 e → e ∈ more)
    as Hstep.
  { intros new Hnew. destruct (IH (acc ++ new)) as (more & -> & Hmore).
    exists (new ++ more). split; [by rewrite app_assoc|].
    intros item0 e [->|Hin]%elem_of_cons Hl; apply elem_of_app; eauto. }
  destruct (String.prefix "." (item_name item)) eqn:Hdot.
  { destruct (Hstep []) as (more & Hl & Hmore).
    - intros e [He _]. congruence.
    - rewrite app_nil_r in Hl. eauto. }
  rewrite Hrel, Hok.
  destruct (item_node item) as [content mtime| | |] eqn:Hnode; [| | |done].
  - case_decide as Hmd.
    + apply Hstep. intros e (_ & _ & rel' & Hrel' & He). rewrite Hnode in He.
      destruct He as [_ ->]. rewrite Hrel in Hrel'. injection Hrel' as <-.
      by apply list_elem_of_singleton.
    + destruct (Hstep []) as (more & Hl & Hmore).
      * intros e (_ & _ & rel' & _ & He). rewrite Hnode in He. by destruct He.
      * rewrite app_nil_r in Hl. eauto.
  - apply Hstep. intros e (_ & _ & rel' & Hrel' & He). rewrite Hnode in He.
    subst e. rewrite Hrel in Hrel'. injection Hrel' as <-.
    by apply list_elem_of_singleton.
  - destruct (Hstep []) as (more & Hl & Hmore).
    + intros e (_ & _ & rel' & _ & He). by rewrite Hnode in He.
    + rewrite app_nil_r in Hl. eauto.
Qed.

Lemma iterdir_sorted_elem d item :
  item ∈ iterdir_sorted d ↔
  item_relative item = Some (item_name item) ∧
  item_raises item = None ∧
  d !! item_name item = Some (item_node item).
Proof.
  unfold iterdir_sorted. rewrite list_elem_of_fmap. split.
  - intros ([n node] & -> & Hin). simpl. split; [done|]. split; [done|].
    rewrite merge_sort_Permutation in Hin. by apply elem_of_map_to_list in Hin.
  - intros (Hrel & Hok & Hd). exists (item_name item, item_node item). split.
    + destruct item. simpl in *. by rewrite Hrel, Hok.
    + rewrite merge_sort_Permutation. by apply elem_of_map_to_list.
Qed.

(** *** [create_file] *)

(** The cases in which [create_file] answers with a name. *)
Lemma create_file_responds isalnum now request fs name_ path_ fs' :
  create_file isalnum now request fs = (Responds (name_, path_), fs') →
  ∃ raw content,
    default (Str EmptyString) (request !! "name") = Str raw ∧
    name_ = strip (keep (allowed isalnum) (strip raw)) ∧
    name_ ≠ EmptyString ∧
    path_ = name_ +:+ ".md" ∧
    default ∅ fs !! path_ = None ∧
    default (Str (default_content name_)) (request !! "content") = Str content ∧
    fs' = Some (<[path_ := File content now]> (default ∅ fs)).
Proof.
  unfold create_file.
  destruct (default (Str EmptyString) (request !! "name")) as [raw|]; [|done].
  cbv zeta. case_decide; [done|]. case_decide as Hsafe; [done|].
  case_decide as Hex; [done|].
  destruct (default _ (request !! "content")) as [content|] eqn:Hc; [|done].
  intros [= <- <- <-]. exists raw, content. split_and!; try done.
  by apply eq_None_not_Some.
Qed.

Lemma safe_name_fixed isalnum raw :
  let safe_name := strip (keep (allowed isalnum) (strip raw)) in
  strip (keep (allowed isalnum) (strip safe_name)) = safe_name.
Proof.
  intros safe_name.
  destruct (strip_stripped (keep (allowed isalnum) (strip raw))) as [Hl Hr].
  fold safe_name in Hl, Hr.
  rewrite (strip_id safe_name) by done.
  rewrite keep_id; [by apply strip_id|].
  intros c Hc. unfold safe_name, strip in Hc.
  apply rstrip_chars, lstrip_chars in Hc. by apply keep_chars in Hc.
Qed.

Lemma chars_app x y c :
  c ∈ list_ascii_of_string (x +:+ y) →
  c ∈ list_ascii_of_string x ∨ c ∈ list_ascii_of_string y.
Proof.
  induction x as [|a r IH]; [by right|]. rewrite append_cons.
  cbn [list_ascii_of_string]. rewrite !elem_of_cons.
  intros [->|Hc]; [by left; left|]. destruct (IH Hc); auto.
Qed.

Lemma prefix_dot_md x :
  x ≠ EmptyString → String.prefix "." (x +:+ ".md") = String.prefix "." x.
Proof. destruct x as [|c r]; [done|]. intros _. simpl. by destruct r. Qed.

Lemma slash_is_plain :
  ("/"%char ∉ ["-"; "_"; "."; " "]%char) ∧
  ("/"%char ∉ list_ascii_of_string ".md").
Proof.
  split; intros H; simpl in H;
    repeat (apply elem_of_cons in H as [H|H]; [discriminate|]);
    by apply elem_of_nil in H.
Qed.

(** X16.  [create_file] never overwrites or removes an entry of the
    documents directory.  An answer 400 leaves the file system as it is
    (the directory is not even created); an answer 409 is given only when
    the file of the safe name exists, and creates at most the directory;
    an exception other than [HTTPException] leaves every file as it
    is. *)
Theorem create_file_keeps_existing_files (isalnum : ascii → bool) (now : Q)
    (request : gmap string Json) (fs : option (gmap string Node)) :
  let r := (create_file isalnum now request fs).1 in
  let fs' := (create_file isalnum now request fs).2 in
  (∀ f x, default ∅ fs !! f = Some x → default ∅ fs' !! f = Some x) ∧
  (∀ c m, r = HTTPException c m →
     (c = 400%Z ∧ fs' = fs) ∨
     (c = 409%Z ∧ fs' = Some (default ∅ fs) ∧
      ∃ safe_name, m = "File '" +:+ safe_name +:+ "' already exists" ∧
                   is_Some (default ∅ fs !! (safe_name +:+ ".md")))) ∧
  (∀ e, r = Unhandled e → default ∅ fs' = default ∅ fs).
Proof.
  unfold create_file.
  destruct (default (Str EmptyString) (request !! "name")) as [raw|];
    cbv zeta; [|by split_and!].
  case_decide; [split_and!; try done; intros ?? [= <- <-]; by left|].
  case_decide; [split_and!; try done; intros ?? [= <- <-]; by left|].
  case_decide as Hex.
  { split_and!; try done. intros ?? [= <- <-]. right. eauto. }
  destruct (default _ (request !! "content")) as [content|];
    [|by split_and!].
  simpl. split_and!; try done.
  intros f x Hf. rewrite lookup_insert_ne; [done|].
  intros <-. apply Hex. eauto.
Qed.

(** X17.  When [create_file] answers with a name, the path is the name
    followed by [.md]; the name is not empty, has no white space at either
    end and is made of characters of the requested name that are
    alphanumeric or one of [-], [_], [.] and the space, so that the path
    holds no [/]; the path did not exist, and the file now holds the
    requested content, or the default text when none was given. *)
Theorem created_file_name_is_safe (isalnum : ascii → bool) (now : Q)
    (request : gmap string Json) (fs fs' : option (gmap string Node))
    (name_ path_ : string) :
  create_file isalnum now request fs = (Responds (name_, path_), fs') →
  path_ = name_ +:+ ".md" ∧
  name_ ≠ EmptyString ∧
  lstrip name_ = name_ ∧ rstrip name_ = name_ ∧
  (∀ c, c ∈ list_ascii_of_string name_ →
        (isalnum c = true ∨ c ∈ ["-"; "_"; "."; " "]%char) ∧
        ∃ raw, request !! "name" = Some (Str raw) ∧
               c ∈ list_ascii_of_string raw) ∧
  (isalnum "/"%char = false → "/"%char ∉ list_ascii_of_string path_) ∧
  default ∅ fs !! path_ = None ∧
  ∃ content,
    fs' = Some (<[path_ := File content now]> (default ∅ fs)) ∧
    match request !! "content" with
    | Some v => v = Str content
    | None => content = default_content name_
    end.
Proof.
  intros (raw & content & Hraw & Hname & Hne & -> & Hfree & Hc & ->)
    %create_file_responds.
  destruct (strip_stripped (keep (allowed isalnum) (strip raw))) as [Hl Hr].
  rewrite <- Hname in Hl, Hr.
  assert (∀ c, c ∈ list_ascii_of_string name_ →
               (isalnum c = true ∨ c ∈ ["-"; "_"; "."; " "]%char) ∧
               c ∈ list_ascii_of_string raw) as Hchars.
  { intros c Hin. rewrite Hname in Hin. unfold strip in Hin at 1.
    apply rstrip_chars, lstrip_chars in Hin. split.
    - apply keep_chars in Hin. unfold allowed in Hin.
      apply orb_true_iff in Hin as [?|?%bool_decide_eq_true]; auto.
    - apply keep_sub in Hin. unfold strip in Hin.
      by apply rstrip_chars, lstrip_chars in Hin. }
  split_and!; try done.
  - intros c Hin. destruct (Hchars c Hin) as [Hok Hin']. split; [done|].
    destruct (request !! "name") as [[raw'|]|] eqn:Hreq; simplify_eq/=;
      first [by apply elem_of_nil in Hin'|eauto].
  - intros Hslash [Hin|Hin]%chars_app.
    + destruct (Hchars _ Hin) as [[?|Hin']  _]; [congruence|].
      by apply (proj1 slash_is_plain).
    + by apply (proj2 slash_is_plain).
  - exists content. split; [done|].
    destruct (request !! "content") as [v|]; simpl in Hc; congruence.
Qed.

(** X18.  Repeating a request that [create_file] has served, or asking
    for the safe name it returned, is answered 409 and changes nothing:
    cleaning a clean name gives the same name. *)
Theorem repeated_create_file_conflicts (isalnum : ascii → bool) (now now' : Q)
    (request request' : gmap string Json)
    (fs fs' : option (gmap string Node)) (name_ path_ : string) :
  create_file isalnum now request fs = (Responds (name_, path_), fs') →
  request' !! "name" = request !! "name" ∨
  request' !! "name" = Some (Str name_) →
  create_file isalnum now' request' fs' =
    (HTTPException 409 ("File '" +:+ name_ +:+ "' already exists"), fs').
Proof.
  intros (raw & content & Hraw & Hname & Hne & -> & Hfree & Hc & ->)
    %create_file_responds Hreq.
  assert (∃ raw', default (Str EmptyString) (request' !! "name") = Str raw' ∧
                  strip (keep (allowed isalnum) (strip raw')) = name_)
    as (raw' & Hraw' & Hname').
  { destruct Hreq as [->| ->].
    - by exists raw.
    - exists name_. split; [done|]. rewrite Hname. apply safe_name_fixed. }
  unfold create_file. rewrite Hraw'. cbv zeta. rewrite Hname'.
  assert (strip raw' ≠ EmptyString) as Hraw0.
  { intros H0. rewrite H0 in Hname'. by subst. }
  rewrite decide_False by done. rewrite decide_False by done.
  simpl. rewrite decide_True; [done|].
  rewrite lookup_insert_eq. eauto.
Qed.

(** X19.  Round trip.  After [create_file] has answered with a name,
    [get_files] at the root of a readable documents directory lists the
    new file under that name, with its path, size and time, unless the
    name starts with a dot: such a file is created and never listed. *)
Theorem created_file_is_listed (isalnum : ascii → bool) (now : Q)
    (request : gmap string Json) (fs : option (gmap string Node))
    (d' : gmap string Node) (name_ path_ docs_dir : string)
    (subdir : string → Target) :
  create_file isalnum now request fs = (Responds (name_, path_), Some d') →
  (∀ f, d' !! f ≠ Some Unreadable) →
  ∃ files content,
    get_files subdir docs_dir EmptyString (Some d') =
      (Responds (files, EmptyString, docs_dir), Some d') ∧
    d' !! path_ = Some (File content now) ∧
    (String.prefix "." name_ = false →
       mkFileEntry name_ path_ "file" (Some (st_size content)) (Some now)
         ∈ files) ∧
    (String.prefix "." name_ = true → ∀ e, e ∈ files → fe_path e ≠ path_).
Proof.
  intros (raw & content & Hraw & Hname & Hne & -> & Hfree & Hc & [= ->])
    %create_file_responds Hread.
  set (d' := <[name_ +:+ ".md" := File content now]> (default ∅ fs)) in *.
  assert (d' !! (name_ +:+ ".md") = Some (File content now)) as Hd
    by apply lookup_insert_eq.
  destruct (list_loop_complete (iterdir_sorted d') []) as (files & Hl & Hall).
  { apply Forall_forall. intros item (Hrel & Hok & Hnode)%iterdir_sorted_elem.
    split_and!; [|done|by rewrite Hrel]. intros Hu. rewrite Hu in Hnode.
    by apply (Hread (item_name item)). }
  exists files, content. unfold get_files. simpl. rewrite Hl. simpl.
  split_and!; try done.
  - intros Hdot.
    apply (Hall (mkItem (name_ +:+ ".md") (Some (name_ +:+ ".md"))
                   (File content now) None)).
    + by apply iterdir_sorted_elem.
    + destruct (path_md name_ Hne) as [Hsuf Hstem].
      split; simpl; [by rewrite prefix_dot_md|]. split; [done|].
      eexists. split; [done|]. by rewrite Hsuf, Hstem.
  - intros Hdot e He Hpath.
    destruct (list_loop_sound _ _ _ Hl) as (more & Hmore & Hsound).
    simpl in Hmore. subst more.
    destruct (Hsound e He)
      as (item & [Hrel _]%iterdir_sorted_elem & Hno & _ & rel & Hrel' & Hitem).
    assert (fe_path e = rel) as Hp.
    { destruct (item_node item); try done; [by destruct Hitem as [_ ->]|by subst]. }
    rewrite Hrel in Hrel'. injection Hrel' as <-.
    rewrite <- Hp, Hpath, prefix_dot_md in Hno by done. congruence.
Qed.

(** X20.  [list_files] raises no [HTTPException].  The exceptions it
    lets through are what [exists()] raises on the target (the call is
    outside the [try]), what listing the target raises unless that is a
    [PermissionError] ([NotADirectoryError] when the target is a file),
    the [ValueError] of [relative_to] on an item that is not hidden, and
    what [is_dir], [is_file] or [stat] raise on such an item unless that is
    a [PermissionError].  Every entry returned comes from an item of the
    listing that is not hidden and on which those calls succeed: a
    directory, listed under its name without size or time, or a regular
    file whose name is the name of the entry followed by [.md], listed
    with its size and time; so a target that is missing or may not be
    listed gives the empty list. *)
Theorem list_files_entries (target : Target) :
  (∀ c m, list_files target ≠ HTTPException c m) ∧
  (∀ x, list_files target = Unhandled x →
     target = ExistsRaises x ∨
     (target = IterdirRaises x ∧ x ≠ "PermissionError") ∨
     ∃ items item, target = Listing items ∧ item ∈ items ∧
       String.prefix "." (item_name item) = false ∧
       ((item_relative item = None ∧ x = "ValueError") ∨
        (is_Some (item_relative item) ∧ item_raises item = Some x ∧
         x ≠ "PermissionError"))) ∧
  ∀ entries e, list_files target = Responds entries → e ∈ entries →
    ∃ items item, target = Listing items ∧ item ∈ items ∧
      String.prefix "." (item_name item) = false ∧
      item_raises item = None ∧
      item_relative item = Some (fe_path e) ∧
      ((item_node item = Folder ∧ fe_name e = item_name item ∧
        fe_type e = "directory" ∧ fe_size e = None ∧ fe_modified e = None) ∨
       (∃ content mtime,
          item_node item = File content mtime ∧
          fe_name e +:+ ".md" = item_name item ∧
          fe_type e = "file" ∧ fe_size e = Some (st_size content) ∧
          fe_modified e = Some mtime)).
Proof.
  assert (∀ l acc,
            (∀ c m, list_loop l acc ≠ HTTPException c m) ∧
            (∀ x, list_loop l acc = Unhandled x →
               ∃ item, item ∈ l ∧
                 String.prefix "." (item_name item) = false ∧
                 ((item_relative item = None ∧ x = "ValueError") ∨
                  (is_Some (item_relative item) ∧ item_raises item = Some x ∧
                   x ≠ "PermissionError")))) as Hloop.
  { induction l as [|item rest IH]; intros acc; simpl; [done|].
    assert (∀ acc',
      (∀ c m, list_loop rest acc' ≠ HTTPException c m) ∧
      (∀ x, list_loop rest acc' = Unhandled x →
         ∃ item0, item0 ∈ item :: rest ∧
           String.prefix "." (item_name item0) = false ∧
           ((item_relative item0 = None ∧ x = "ValueError") ∨
            (is_Some (item_relative item0) ∧ item_raises item0 = Some x ∧
             x ≠ "PermissionError")))) as IH'.
    { intros acc'. destruct (IH acc') as [H1 H2]. split; [done|].
      intros x Hx. destruct (H2 x Hx) as (i & Hi & ?).
      exists i. split; [by right|done]. }
    destruct (String.prefix "." (item_name item)) eqn:Hdot; [done|].
    destruct (item_relative item) as [rel|] eqn:Hrel.
    - destruct (item_raises item) as [y|] eqn:Hy.
      + case_decide as Hperm; [done|]. split; [done|]. intros x [= <-].
        exists item. split; [left|]. split; [done|]. right.
        rewrite Hrel. eauto.
      + destruct (item_node item); [case_decide|..]; done.
    - split; [done|]. intros x [= <-].
      exists item. split; [left|]. split; [done|]. by left. }
  split_and!.
  - destruct target as [e| |e|items]; simpl; try done; [by case_decide|].
    apply Hloop.
  - destruct target as [e| |e|items]; simpl; intros x Hx.
    + left. congruence.
    + done.
    + right; left. case_decide; [done|]. by simplify_eq.
    + right; right. destruct (Hloop items []) as [_ H2].
      destruct (H2 x Hx) as (item & ?). eauto.
  - intros entries e Hl He.
    destruct target as [x| |x|items]; simpl in Hl; try done.
    { injection Hl as <-. by apply elem_of_nil in He. }
    { case_decide; [|done]. injection Hl as <-. by apply elem_of_nil in He. }
    destruct (list_loop_sound _ _ _ Hl) as (more & -> & Hsound).
    destruct (Hsound e He) as (item & Hin & Hdot & Hok & rel & Hrel & Hitem).
    exists items, item.
    destruct (item_node item) as [content mtime| | |] eqn:Hnode; try done.
    + destruct Hitem as [Hmd ->]. simpl. split_and!; try done.
      right. exists content, mtime. split_and!; try done.
      rewrite <- Hmd. apply path_stem_suffix.
    + subst e. simpl. split_and!; try done. by left.
Qed.

(* ===================================================================== *)
(** ** A session of [async_main] *)
(* ===================================================================== *)

Lemma bind_returns {A B} (m : M A) (k : A → M B) s a s' :
  m s = (Return a, s') → (m ≫= k) s = k a s'.
Proof. intros H. unfold mbind, M_bind. by rewrite H. Qed.

Lemma bind_raises {A B} (m : M A) (k : A → M B) s e s' :
  m s = (Raise e, s') → (m ≫= k) s = (Raise e, s').
Proof. intros H. unfold mbind, M_bind. by rewrite H. Qed.

Lemma suspend_run bs ends s :
  suspend bs ends s =
  (match ends with Some e => Raise e | None => Return () end,
   run (background <$> bs) s).
Proof. unfold suspend. rewrite bind_modify. by destruct ends. Qed.

Lemma run_app ops1 ops2 s : run (ops1 ++ ops2) s = run ops2 (run ops1 s).
Proof. apply foldl_app. Qed.

Lemma reachable_run ops s : reachable s → reachable (run ops s).
Proof.
  revert s. induction ops as [|op ops IH]; intros s Hs; [done|].
  apply IH. by constructor.
Qed.

(** The two services are started through the coroutines of the manager. *)
Lemma session_sync_start args env :
  as_start (session_sync args env) =
  Some ("mrmd-sync",
        start_npx_process "mrmd-sync" "mrmd-sync"
          (Some ["--port"; pretty (sync_port args); docs_dir_of args env])
          None None (Some log_debug) (host_at_sync env)).
Proof. reflexivity. Qed.

Lemma session_runtime_start args env :
  as_start (session_runtime args env) =
  Some ("mrmd-python",
        start_python_process "mrmd-python" "mrmd_python.cli"
          (Some ["--port"; pretty (runtime_port args)])
          (Some (project_root env)) None None (Some log_debug)
          (host_at_runtime env)).
Proof. reflexivity. Qed.

Lemma run_cons op ops s : run (op :: ops) s = run ops (run_op op s).
Proof. reflexivity. Qed.

(** The [finally] clause of [async_main]: [stop_all] runs unless the
    [print()] before it raises, and then that exception replaces the
    outcome of the body. *)
Lemma try_finally_shutdown {A} (body : M A) raises timeout w s r s' :
  body s = (r, s') →
  try_finally body (print raises;; stop_all timeout w) s =
    match raises with
    | Some e => (Raise e, s')
    | None => (r, run_op (StopAll timeout w) s')
    end.
Proof.
  intros Hb. unfold try_finally. rewrite Hb.
  destruct raises as [e|]; [done|].
  rewrite (bind_returns _ _ _ () s') by reflexivity.
  destruct (stop_all_returns timeout w s') as [Hs _].
  cbn [run_op]. by rewrite Hs.
Qed.

(** The body of [async_main], step by step. *)
Lemma async_main_body args env :
  (start_npx_process "mrmd-sync" "mrmd-sync"
     (Some ["--port"; pretty (sync_port args); docs_dir_of args env])
     None None (Some log_debug) (host_at_sync env);;
   suspend (while_sleeping env) (sleep_raises env);;
   (if no_runtime args then mret ()
    else
      start_python_process "mrmd-python" "mrmd_python.cli"
        (Some ["--port"; pretty (runtime_port args)])
        (Some (project_root env)) None None (Some log_debug)
        (host_at_runtime env);;
      mret ());;
   suspend (while_serving env) (serving_raises env)) __init__ =
  (session_result env, run (session_body args env) __init__).
Proof.
  unfold session_body, session_result.
  rewrite run_cons, !run_app.
  destruct (start_returns_bool _ _ _ __init__ (session_sync_start args env)
              eq_refl)
    as (b & s1 & Hs1 & _).
  rewrite (run_op_start _ _ _ __init__ (session_sync_start args env)), Hs1.
  cbn [snd].
  set (s2 := run (background <$> while_sleeping env) s1).
  rewrite (bind_returns _ _ _ _ _ Hs1).
  destruct (sleep_raises env) as [e|] eqn:Hsleep.
  { apply bind_raises. apply suspend_run. }
  rewrite (bind_returns _ _ _ () s2) by apply suspend_run.
  rewrite run_app.
  destruct (no_runtime args).
  - rewrite (bind_returns _ _ _ () s2) by reflexivity.
    rewrite suspend_run. by destruct (serving_raises env).
  - destruct (start_returns_bool _ _ _ s2 (session_runtime_start args env)
                eq_refl)
      as (b' & s3 & Hs3 & _).
    rewrite run_cons.
    rewrite (run_op_start _ _ _ s2 (session_runtime_start args env)), Hs3.
    cbn [snd run foldl].
    rewrite (bind_returns _ _ _ () s3)
      by (by rewrite (bind_returns _ _ _ _ _ Hs3)).
    rewrite suspend_run. by destruct (serving_raises env).
Qed.

(** [async_main]: the body, then the [finally] clause. *)
Lemma async_main_run args env :
  setup_raises env = None →
  async_main args env =
    match final_print_raises env with
    | Some e => (Raise e, run (session_body args env) __init__)
    | None =>
        (session_result env,
         run_op (StopAll 5 (while_stopping env))
           (run (session_body args env) __init__))
    end.
Proof.
  intros Hsetup. unfold async_main. rewrite Hsetup. cbv zeta.
  apply try_finally_shutdown, async_main_body.
Qed.

Lemma rtc_touch_launched c s s' :
  rtc (touch c) s s' → launched s' = launched s.
Proof.
  induction 1 as [|s1 s2 s3 H12 _ IH]; [done|].
  rewrite IH. clear IH. destruct H12 as [| | | |h rc s Hh| |]; try done.
  unfold launched. apply list_eq. intros i.
  rewrite !list_lookup_fmap, set_returncode_lookup.
  by destruct (objects s !! i).
Qed.

Lemma background_launched bs s :
  launched (run (background <$> bs) s) = launched s.
Proof.
  revert s. induction bs as [|b bs IH]; intros s; [done|].
  rewrite fmap_cons, run_cons, IH.
  apply (rtc_touch_launched any_scope), run_op_touches.
  by destruct b.
Qed.

Lemma stop_all_launched timeout w s :
  launched (run_op (StopAll timeout w) s) = launched s.
Proof. apply (rtc_touch_launched any_scope), run_op_touches. done. Qed.

Lemma background_keeps_unknown name bs s :
  _processes s !! name = None →
  _processes (run (background <$> bs) s) !! name = None.
Proof.
  apply run_keeps_unknown, Forall_fmap, Forall_forall.
  by intros [] _.
Qed.

(** No step of the body stops anything. *)
Lemma session_body_stops_nothing args env n :
  Forall (λ op, stops n op = false) (session_body args env).
Proof.
  assert (∀ bs, Forall (λ op, stops n op = false) (background <$> bs))
    as Hbg.
  { intros bs. apply Forall_fmap, Forall_forall. by intros [] _. }
  unfold session_body. constructor; [done|].
  apply Forall_app. split; [apply Hbg|].
  destruct (sleep_raises env); [constructor|].
  apply Forall_app. split; [|apply Hbg].
  destruct (no_runtime args); repeat constructor.
Qed.

(** The first service stays registered throughout the body once it is
    spawned. *)
Lemma session_body_keeps_sync args env :
  spawn_ok (host_at_sync env) = true →
  is_Some (_processes (run (session_body args env) __init__) !! "mrmd-sync").
Proof.
  intros Hx.
  pose proof (session_body_stops_nothing args env "mrmd-sync") as Hall.
  unfold session_body in *. rewrite run_cons.
  apply Forall_cons in Hall as [_ Hall].
  set (s1 := run_op (session_sync args env) __init__).
  assert (∃ h, _processes s1 !! "mrmd-sync" = Some h) as [h Hh].
  { unfold s1.
    rewrite (run_op_start _ _ _ __init__ (session_sync_start args env)).
    destruct (start_returns _ _ _ __init__ (session_sync_start args env))
      as (r & s' & -> & H).
    rewrite decide_False in H by (by intros [? ?]).
    cbn [launch_ok session_sync] in H. rewrite Hx in H.
    destruct H as [_ St]. cbn [snd].
    rewrite (started_processes _ _ _ St), lookup_insert_eq. eauto. }
  rewrite (run_keeps_entry _ h _ _ Hall Hh). eauto.
Qed.

(** X22.  [async_main] launches [mrmd-sync] first, as [npx mrmd-sync
    --port] with the sync port and the documents directory and without a
    working directory, and then, unless [--no-runtime] is given or the
    sleep was interrupted, [mrmd-python] as the running interpreter with
    [-m mrmd_python.cli --port] and the runtime port, in the project root;
    it launches nothing else.  The documents directory is [--docs], taken
    under the project root unless absolute, or what [find_docs_dir] gives
    when [--docs] is missing or empty. *)
Theorem async_main_launches (args : Args) (env : Session) (c1 c2 : Z) :
  setup_raises env = None →
  exec_outcome (host_at_sync env) = SpawnOk c1 →
  exec_outcome (host_at_runtime env) = SpawnOk c2 →
  launched (async_main args env).2 =
    (c1, ["npx"; "mrmd-sync"; "--port"; pretty (sync_port args);
          docs_dir_of args env], None) ::
    (if no_runtime args || bool_decide (is_Some (sleep_raises env)) then []
     else [(c2, [sys_executable (host_at_runtime env); "-m";
                 "mrmd_python.cli"; "--port"; pretty (runtime_port args)],
            Some (project_root env))]).
Proof.
  intros Hsetup Hx1 Hx2.
  assert (launched (async_main args env).2 =
          launched (run (session_body args env) __init__)) as ->.
  { rewrite (async_main_run _ _ Hsetup).
    destruct (final_print_raises env); [done|]. apply stop_all_launched. }
  unfold session_body. rewrite run_cons, !run_app.
  set (s1 := run_op (session_sync args env) __init__).
  set (s2 := run (background <$> while_sleeping env) s1).
  assert (launched s1 =
          [(c1, ["npx"; "mrmd-sync"; "--port"; pretty (sync_port args);
                 docs_dir_of args env], None)]) as Hl1.
  { unfold launched, s1.
    rewrite (run_op_start _ _ _ __init__ (session_sync_start args env)).
    rewrite (start_npx_process_object _ _ _ _ _ _ _ c1); [reflexivity..|done]. }
  assert (_processes s1 !! "mrmd-python" = None) as Hfree1.
  { apply run_op_keeps_unknown; reflexivity. }
  assert (launched s2 = launched s1) as Hl2 by apply background_launched.
  assert (_processes s2 !! "mrmd-python" = None) as Hfree2
    by (by apply background_keeps_unknown).
  destruct (sleep_raises env) as [e|].
  { rewrite orb_true_r. change (run [] ?s) with s. by rewrite Hl2, Hl1. }
  rewrite orb_false_r, run_app, background_launched.
  destruct (no_runtime args).
  { change (run [] ?s) with s. by rewrite Hl2, Hl1. }
  rewrite run_cons. change (run [] ?s) with s.
  rewrite (run_op_start _ _ _ s2 (session_runtime_start args env)).
  unfold launched in *.
  rewrite (start_python_process_object _ _ _ _ _ _ _ _ c2) by done.
  rewrite fmap_app, Hl2, Hl1. reflexivity.
Qed.

(* ===================================================================== *)
(** ** What the steps keep *)
(* ===================================================================== *)

(** The loop of a drain task writes to the buffer of its own name only,
    and leaves the table of tasks alone. *)
Lemma read_loop_own_buffer name (cb : option Callback) stream s m :
  m ≠ name →
  let Q := λ s' : ProcessManager,
    _output_buffers s' !! m = _output_buffers s !! m ∧
    loop_tasks s' = loop_tasks s in
  outcome (read_loop name cb stream) s (λ _, Q) (λ _, Q).
Proof.
  intros Hne Q.
  assert (∀ s1, Q s1 →
            outcome (read_loop name cb stream) s1 (λ _, Q) (λ _, Q)) as H;
    [|by apply H].
  induction stream as [|r rest IH]; intros s1 Q1; [done|].
  cbn [read_loop]. apply outcome_bind.
  destruct r as [text|e]; [|done]. apply outcome_ret.
  case_decide; [done|].
  apply outcome_bind. unfold outcome at 1, buffer_append.
  destruct (_output_buffers s1 !! name) as [d|] eqn:Hd; [|done].
  assert (Q (set_output_buffers (<[name := deque_append (rstrip text) d]>) s1))
    as Q2.
  { destruct Q1 as [Hb Ht]. split; [|done]. simpl.
    by rewrite lookup_insert_ne. }
  apply outcome_bind. destruct cb as [f|].
  - unfold call. apply outcome_bind, outcome_modify.
    assert (Q (set_events (λ l, l ++ [EvCallback name (rstrip text)])
                 (set_output_buffers
                    (<[name := deque_append (rstrip text) d]>) s1))) as Q3
      by done.
    destruct (f (rstrip text)); [done|]. apply outcome_ret. by apply IH.
  - apply outcome_ret. by apply IH.
Qed.

Lemma set_task_state_other t st s t' :
  t' ≠ t → loop_tasks (set_task_state t st s).2 !! t' = loop_tasks s !! t'.
Proof.
  intros Hne. simpl. destruct (loop_tasks s !! t); [|done].
  by rewrite list_lookup_insert_ne.
Qed.

Lemma read_output_own_buffer name process (cb : option Callback) stream s m :
  m ≠ name →
  outcome (_read_output name process cb stream) s
    (λ _ s', _output_buffers s' !! m = _output_buffers s !! m ∧
             loop_tasks s' = loop_tasks s)
    never.
Proof.
  intros Hne. unfold _read_output. apply outcome_try.
  eapply outcome_mono; [by apply read_loop_own_buffer| |]; cbv beta.
  - done.
  - by intros [|e] s' Q.
Qed.

Lemma resume_own_buffer t stream s k m :
  loop_tasks s !! t = Some k → m ≠ t_name k →
  outcome (resume t stream) s
    (λ _ s', _output_buffers s' !! m = _output_buffers s !! m ∧
             ∀ t', t' ≠ t → loop_tasks s' !! t' = loop_tasks s !! t')
    never.
Proof.
  intros Hk Hne. unfold outcome at 1, resume. rewrite Hk.
  destruct (t_state k); [|done].
  pose proof (read_output_own_buffer (t_name k) (t_process k) (t_callback k)
                stream s m Hne) as Hout.
  unfold outcome in Hout.
  destruct (_read_output (t_name k) (t_process k) (t_callback k) stream s)
    as [[[]|e] s2]; [| |done]; destruct Hout as [Hb Hl].
  - split; [done|]. intros t' _. by rewrite Hl.
  - pose proof (set_task_state_other t Done s2) as Hother.
    simpl in Hother |- *. split; [done|]. intros t' Ht'.
    by rewrite Hother, Hl.
Qed.

(** X23.  A step of a drain task changes no buffer but the one under
    its own name and no task but itself; it leaves the registry, the task
    registry and the process objects as they are and sends no signal. *)
Theorem drain_task_writes_only_its_buffer (s : ProcessManager) (t : nat)
    (k : Task) (stream : list ReadResult) :
  loop_tasks s !! t = Some k →
  let s' := run_op (Drain t stream) s in
  (∀ m, m ≠ t_name k → _output_buffers s' !! m = _output_buffers s !! m) ∧
  (∀ t', t' ≠ t → loop_tasks s' !! t' = loop_tasks s !! t') ∧
  _processes s' = _processes s ∧
  _output_tasks s' = _output_tasks s ∧
  objects s' = objects s ∧
  signals (events s') = signals (events s).
Proof.
  intros Hk s'.
  destruct (resume_undisturbed t stream s) as (s1 & Hr & [U1 U2 U3 U4]).
  assert (s' = s1) as -> by (unfold s'; simpl; by rewrite Hr).
  assert (String "000" (t_name k) ≠ t_name k) as Hfresh.
  { intros Heq. apply (f_equal String.length) in Heq. simpl in Heq. lia. }
  split_and!; try done.
  - intros m Hne.
    pose proof (resume_own_buffer t stream s k m Hk Hne) as Hout.
    unfold outcome in Hout. rewrite Hr in Hout. by destruct Hout.
  - pose proof (resume_own_buffer t stream s k _ Hk Hfresh) as Hout.
    unfold outcome in Hout. rewrite Hr in Hout. by destruct Hout.
Qed.

Lemma rtc_touch_exited c s s' h p :
  rtc (touch c) s s' →
  objects s !! h = Some p → is_Some (returncode p) →
  ∃ p', objects s' !! h = Some p' ∧ is_Some (returncode p').
Proof.
  intros Ht. revert p. induction Ht as [|s1 s2 s3 H12 _ IH]; intros p Hp Hrc;
    [eauto|].
  destruct H12 as [| | | |h0 rc s Hh| |]; try (by eapply IH).
  apply (IH (mkProcess (pid p)
               (if decide (h = h0) then Some rc else returncode p)
               (p_cmd p) (p_cwd p) (p_env p))).
  - by rewrite set_returncode_lookup, Hp.
  - simpl. by case_decide.
Qed.

(** X24.  No step of the manager removes or reorders a process
    object: the list of the children launched (pid, command line, working
    directory) only grows at its end, and a child that has a return code
    keeps having one. *)
Theorem process_objects_are_kept (op : Op) (s : ProcessManager) :
  launched s `prefix_of` launched (run_op op s) ∧
  (length (objects s) ≤ length (objects (run_op op s)))%nat ∧
  ∀ h p, objects s !! h = Some p → is_Some (returncode p) →
         ∃ p', objects (run_op op s) !! h = Some p' ∧
               is_Some (returncode p').
Proof.
  assert ((∃ p, objects (run_op op s) = objects s ++ [p]) ∨
          rtc (touch any_scope) s (run_op op s)) as [[p Hp]|Ht].
  { destruct (run_op_cases op s) as [(name & St & _)|Ht']; [left|by right].
    destruct (started_objects _ _ _ St) as (p & Hp & _). eauto. }
  - split_and!.
    + unfold launched. rewrite Hp, fmap_app. by eexists.
    + rewrite Hp, length_app. lia.
    + intros h p0 Hh Hrc. exists p0. split; [|done].
      rewrite Hp. by apply lookup_app_l_Some.
  - split_and!.
    + by rewrite (rtc_touch_launched _ _ _ Ht).
    + pose proof (f_equal length (rtc_touch_launched _ _ _ Ht)) as Hl.
      unfold launched in Hl. rewrite !length_fmap in Hl. lia.
    + intros h p Hh Hrc. by eapply rtc_touch_exited.
Qed.

(* ===================================================================== *)
(** ** Shutdown *)
(* ===================================================================== *)

(** A start signals nothing but the spawn: one when it succeeds, none
    when it fails. *)
Lemma start_signals op name m s :
  as_start op = Some (name, m) →
  signals (events (run_op op s)) = signals (events s) ∨
  ∃ h, signals (events (run_op op s)) = signals (events s) ++ [EvSpawn h].
Proof.
  intros Hop. rewrite (run_op_start _ _ _ _ Hop).
  destruct (start_returns _ _ _ s Hop) as (b & s' & -> & H). cbn [snd].
  destruct (decide (is_Some (_processes s !! name))).
  { left. by destruct H as [_ ->]. }
  destruct (launch_ok op).
  - right. destruct H as [_ St]. eexists.
    by rewrite (started_events _ _ _ St), signals_snoc.
  - left. by destruct H as [_ [->|(? & ? & ? & -> & _)]].
Qed.

Lemma background_undisturbed b s :
  signals (events (run_op (background b) s)) = signals (events s) ∧
  _processes (run_op (background b) s) = _processes s ∧
  ∀ h, is_Some (objects (run_op (background b) s) !! h) ↔
       is_Some (objects s !! h).
Proof.
  destruct b as [t stream|h rc]; cbn [background run_op].
  - destruct (resume_undisturbed t stream s) as (s' & -> & [U1 U2 U3 U4]).
    cbn [snd]. by rewrite U1, U2, U3.
  - destruct (objects s !! h) as [[? [?|] ? ? ?]|] eqn:Hh; try done.
    split_and!; try done. intros h'. rewrite set_returncode_lookup.
    by rewrite fmap_is_Some.
Qed.

Lemma background_signals bs s :
  signals (events (run (background <$> bs) s)) = signals (events s).
Proof.
  revert s. induction bs as [|b bs IH]; intros s; [done|].
  rewrite fmap_cons, run_cons, IH. apply background_undisturbed.
Qed.

Lemma Forall_is_spawn_snoc l h :
  Forall is_spawn l → Forall is_spawn (l ++ [EvSpawn h]).
Proof. intros Hl. apply Forall_app. split; [done|]. by constructor. Qed.

(** The body of [async_main] signals nothing but the spawns. *)
Lemma session_body_signals args env :
  Forall is_spawn (signals (events (run (session_body args env) __init__))).
Proof.
  assert (∀ op name m s, as_start op = Some (name, m) →
            Forall is_spawn (signals (events s)) →
            Forall is_spawn (signals (events (run_op op s)))) as Hstart.
  { intros op name m s Hop Hs.
    destruct (start_signals op name m s Hop) as [->|[h ->]]; [done|].
    by apply Forall_is_spawn_snoc. }
  unfold session_body. rewrite run_cons, run_app.
  assert (Forall is_spawn
            (signals (events (run (background <$> while_sleeping env)
                                (run_op (session_sync args env) __init__)))))
    as H1.
  { rewrite background_signals.
    apply (Hstart _ _ _ _ (session_sync_start args env)). constructor. }
  destruct (sleep_raises env); [done|].
  rewrite run_app, background_signals.
  destruct (no_runtime args); [done|].
  rewrite run_cons. change (run [] ?s) with s.
  by apply (Hstart _ _ _ _ (session_runtime_start args env)).
Qed.

(** X25.  Before its [finally] clause [async_main] sends no signal
    to any child: the manager enters the clause in a state of its own
    history in which the only events besides the callback calls are the
    spawns, and [async_main] leaves it as [stop_all] does from that
    state, or in that very state when the [print()] that opens the clause
    raises. *)
Theorem services_are_signalled_at_shutdown_only (args : Args)
    (env : Session) :
  setup_raises env = None →
  ∃ s, reachable s ∧
       Forall is_spawn (signals (events s)) ∧
       (async_main args env).2 =
         match final_print_raises env with
         | Some _ => s
         | None => (stop_all 5 (while_stopping env) s).2
         end.
Proof.
  intros Hsetup. exists (run (session_body args env) __init__). split_and!.
  - apply reachable_run. constructor.
  - apply session_body_signals.
  - rewrite (async_main_run _ _ Hsetup).
    by destruct (final_print_raises env).
Qed.

(** X21.  When the [print()] that opens the [finally] clause returns,
    [stop_all] runs, whether the body returned or raised, during the sleep
    or while serving: the registry is empty when [async_main] exits, and
    what the body raised is what [async_main] raises.  When that [print()]
    raises, its exception is what [async_main] raises and [stop_all] does
    not run: no child has been signalled, and [mrmd-sync], once spawned,
    is still registered. *)
Theorem async_main_stops_the_services (args : Args) (env : Session) :
  setup_raises env = None →
  reachable (async_main args env).2 ∧
  (final_print_raises env = None →
     (async_main args env).1 = session_result env ∧
     _processes (async_main args env).2 = ∅) ∧
  (∀ e, final_print_raises env = Some e →
     (async_main args env).1 = Raise e ∧
     Forall is_spawn (signals (events (async_main args env).2)) ∧
     (spawn_ok (host_at_sync env) = true →
      is_Some (_processes (async_main args env).2 !! "mrmd-sync"))).
Proof.
  intros Hsetup. rewrite (async_main_run _ _ Hsetup).
  assert (reachable (run (session_body args env) __init__)) as Hs
    by (apply reachable_run; constructor).
  split_and!.
  - destruct (final_print_raises env); [done|]. by constructor.
  - intros ->. cbn [fst snd run_op]. split; [done|].
    destruct (stop_all_returns 5 (while_stopping env)
                (run (session_body args env) __init__)) as [Hret Hempty].
    rewrite Hret. exact Hempty.
  - intros e ->. cbn [fst snd]. split_and!; [done| |].
    + apply session_body_signals.
    + apply session_body_keeps_sync.
Qed.

(** [stop] leaves the child with a return code when the signals reach
    it. *)
Lemma stop_exits n timeout w s h :
  reachable s →
  _processes s !! n = Some h →
  reaches w →
  exited h (stop n timeout w s).2.
Proof.
  intros Hs Hn [Hv Hk].
  destruct (wf_handle s (reachable_wf s Hs) n h Hn) as [p Hp].
  destruct (returncode p) as [rc|] eqn:Hrc.
  - rewrite (stop_exited n timeout w s h rc Hn) by (rewrite Hp; exact Hrc).
    exists p. split; [done|]. rewrite Hrc. eauto.
  - destruct (reachable_tidy s Hs n) as [t Ht]; [eauto|].
    destruct (stop_running_child s n h t p timeout w Hn Hp Hrc Hv Ht)
      as [_ Hexit].
    cbv zeta in Hexit. unfold exit_status in Hexit. rewrite Hk in Hexit.
    unfold exited.
    destruct (objects (stop n timeout w s).2 !! h) as [p'|]; simpl in Hexit.
    + exists p'. split; [done|]. rewrite Hexit.
      destruct (exits_within w); eauto.
    + by destruct (exits_within w).
Qed.

Lemma reachable_stop n timeout w s :
  reachable s → reachable (stop n timeout w s).2.
Proof. intros Hs. exact (reachable_step s (Stop n timeout w) Hs). Qed.

Lemma stop_in_turn_exits timeout w names s n h :
  reachable s →
  (∀ m, reaches (w m)) →
  n ∈ names →
  _processes s !! n = Some h →
  exited h (stop_in_turn timeout w names s).
Proof.
  intros Hs Hw. revert s Hs.
  induction names as [|m names IH]; intros s Hs Hin Hn;
    [by apply elem_of_nil in Hin|].
  rewrite stop_in_turn_cons.
  destruct (decide (n = m)) as [->|Hne].
  - destruct (stop_exits m timeout (w m) s h Hs Hn (Hw m)) as (p & Hp & Hrc).
    by apply (rtc_touch_exited _ _ _ _ _
                (stop_in_turn_touches timeout w names _) Hp).
  - apply IH.
    + by apply reachable_stop.
    + apply elem_of_cons in Hin as [?|?]; [done|done].
    + destruct (stop_returns m timeout (w m) s) as (s' & -> & St). cbn [snd].
      by rewrite (stopped_processes _ _ _ _ St), lookup_delete_ne.
Qed.

Lemma stop_all_exits timeout w s n h :
  reachable s →
  (∀ m, reaches (w m)) →
  _processes s !! n = Some h →
  exited h (stop_all timeout w s).2.
Proof.
  intros Hs Hw Hn.
  destruct (stop_all_returns timeout w s) as [-> _]. cbn [snd].
  apply (stop_in_turn_exits _ _ _ _ n); try done.
  apply registered_names. eauto.
Qed.

(** X26.  When the signals reach the children ([terminate] and
    [kill] find them), [stop_all] in a reachable state leaves every child
    that was registered with a return code, and [is_running] false for
    its name. *)
Theorem stop_all_leaves_no_child_running (timeout : Q)
    (w : string → StopEnv) (s : ProcessManager) (n : string) (h : nat) :
  reachable s →
  (∀ m, terminate_vanished (w m) = false ∧ kill_vanished (w m) = false) →
  _processes s !! n = Some h →
  ∃ p, objects (stop_all timeout w s).2 !! h = Some p ∧
       is_Some (returncode p) ∧
       is_running n (stop_all timeout w s).2 = false.
Proof.
  intros Hs Hw Hn.
  destruct (stop_all_exits timeout w s n h Hs Hw Hn) as (p & Hp & Hrc).
  exists p. split_and!; try done.
  destruct (stop_all_returns timeout w s) as [Hret Hempty].
  unfold is_running. rewrite Hret. cbn [snd]. by rewrite Hempty, lookup_empty.
Qed.

(** A start and a background step keep every process object registered. *)
Lemma start_covered op name m s :
  as_start op = Some (name, m) → covered s → covered (run_op op s).
Proof.
  intros Hop Hc. rewrite (run_op_start _ _ _ _ Hop).
  destruct (start_returns _ _ _ s Hop) as (b & s' & -> & H). cbn [snd].
  destruct (decide (is_Some (_processes s !! name))) as [|Hfree].
  { by destruct H as [_ ->]. }
  destruct (launch_ok op).
  - destruct H as [_ St]. intros h [p Hh].
    destruct (started_objects _ _ _ St) as (p0 & Ho & _).
    rewrite Ho in Hh. rewrite (started_processes _ _ _ St).
    apply lookup_app_Some in Hh as [Hh|[Hlen Hh]].
    + destruct (Hc h) as [n Hn]; [eauto|]. exists n.
      rewrite lookup_insert_ne; [done|]. intros <-. apply Hfree. eauto.
    + exists name. rewrite lookup_insert_eq. f_equal.
      apply lookup_lt_Some in Hh. simpl in Hh. lia.
  - by destruct H as [_ [->|(? & ? & ? & -> & _)]].
Qed.

Lemma background_covered bs s :
  covered s → covered (run (background <$> bs) s).
Proof.
  revert s. induction bs as [|b bs IH]; intros s Hc; [done|].
  rewrite fmap_cons, run_cons. apply IH.
  destruct (background_undisturbed b s) as (_ & Hp & Ho).
  intros h Hh. rewrite Hp. apply Hc. by apply Ho.
Qed.

(** X27.  When the [print()] that opens the [finally] clause returns
    and the signals reach the children, every child that [async_main] has
    launched has a return code when [async_main] exits, however its body
    ended. *)
Theorem async_main_leaves_no_child_running (args : Args) (env : Session)
    (h : nat) (p : Process) :
  setup_raises env = None →
  final_print_raises env = None →
  (∀ n, terminate_vanished (while_stopping env n) = false ∧
        kill_vanished (while_stopping env n) = false) →
  objects (async_main args env).2 !! h = Some p →
  is_Some (returncode p).
Proof.
  intros Hsetup Hprint Hw. rewrite (async_main_run _ _ Hsetup), Hprint.
  cbn [snd].
  assert (covered (run (session_body args env) __init__)) as Hc.
  { unfold session_body.
    assert (covered __init__) as H0 by (by intros h' [? ?]).
    rewrite run_cons, run_app.
    pose proof (start_covered _ _ _ __init__
                  (session_sync_start args env) H0) as H1.
    apply (background_covered (while_sleeping env)) in H1.
    destruct (sleep_raises env); [done|].
    rewrite run_app. apply background_covered.
    destruct (no_runtime args); [done|].
    rewrite run_cons.
    by apply (start_covered _ _ _ _ (session_runtime_start args env)). }
  cbn [run_op]. set (s := run (session_body args env) __init__) in *.
  intros Hh.
  assert (reachable s) as Hs by (apply reachable_run; constructor).
  assert (is_Some (objects s !! h)) as Hbefore.
  { pose proof (f_equal length
                  (rtc_touch_launched _ _ _
                     (run_op_touches (StopAll 5 (while_stopping env)) s
                        (λ _ _ H, match H with eq_refl => I end)))) as Hl.
    revert Hl. unfold launched. rewrite !length_fmap. cbn [run_op].
    intros Hl. apply lookup_lt_is_Some. rewrite <- Hl.
    by eapply lookup_lt_Some. }
  destruct (Hc h Hbefore) as [n Hn].
  destruct (stop_all_exits 5 (while_stopping env) s n h Hs Hw Hn)
    as (p' & Hp' & Hrc).
  rewrite Hh in Hp'. by injection Hp' as <-.
Qed.

(* ===================================================================== *)
(** ** The order of a listing *)
(* ===================================================================== *)

(** The entries follow the order of the items. *)
Lemma list_loop_order l acc entries :
  list_loop l acc = Responds entries →
  ∃ more, entries = acc ++ more ∧
          (fe_path <$> more) `sublist_of` omap item_relative l.
Proof.
  revert acc. induction l as [|item rest IH]; intros acc; cbn [list_loop].
  { intros [= <-]. exists []. by rewrite app_nil_r. }
  assert (∀ new,
            (fe_path <$> new) `sublist_of`
              from_option (λ r, [r]) [] (item_relative item) →
            list_loop rest (acc ++ new) = Responds entries →
            ∃ more, entries = acc ++ more ∧
                    (fe_path <$> more) `sublist_of`
                      omap item_relative (item :: rest)) as Hstep.
  { intros new Hnew Hl. destruct (IH _ Hl) as (more & -> & Hmore).
    exists (new ++ more). split; [by rewrite app_assoc|].
    rewrite fmap_app. cbn [omap list_omap].
    destruct (item_relative item) as [rel|]; simpl in Hnew.
    - change (rel :: omap item_relative rest)
        with ([rel] ++ omap item_relative rest).
      by apply sublist_app.
    - apply sublist_nil_r in Hnew. apply fmap_nil_inv in Hnew as ->.
      done. }
  assert (list_loop rest acc = Responds entries →
          ∃ more, entries = acc ++ more ∧
                  (fe_path <$> more) `sublist_of`
                    omap item_relative (item :: rest)) as Hskip.
  { intros Hl. apply (Hstep []); [apply sublist_nil_l|].
    by rewrite app_nil_r. }
  destruct (String.prefix "." (item_name item)); [exact Hskip|].
  destruct (item_relative item) as [rel|] eqn:Hrel; [|done].
  cbn [from_option] in Hstep.
  destruct (item_raises item) as [x|].
  { case_decide; [|done]. intros [= <-]. exists [].
    split; [by rewrite app_nil_r|]. apply sublist_nil_l. }
  destruct (item_node item) as [content mtime| | |].
  - case_decide; [|exact Hskip]. by apply Hstep.
  - by apply Hstep.
  - exact Hskip.
  - intros [= <-]. exists []. split; [by rewrite app_nil_r|].
    apply sublist_nil_l.
Qed.

Lemma iterdir_sorted_names d :
  omap item_relative (iterdir_sorted d) =
  (merge_sort name_le (map_to_list d)).*1.
Proof.
  unfold iterdir_sorted. induction (merge_sort name_le (map_to_list d))
    as [|x l IH]; [done|].
  cbn [fmap list_fmap omap list_omap item_relative]. by rewrite <- IH.
Qed.

(** X28.  The listing that [get_files] returns for the root of the
    documents directory follows the names of the directory in ascending
    order: the paths of its entries are a sublist of the sorted names. *)
Theorem listing_follows_the_sorted_directory (d : gmap string Node)
    (subdir : string → Target) (docs_dir : string)
    (files : list FileEntry) :
  get_files subdir docs_dir EmptyString (Some d) =
    (Responds (files, EmptyString, docs_dir), Some d) →
  ∃ names, names ≡ₚ (map_to_list d).*1 ∧
           Sorted (λ a b, String.leb a b = true) names ∧
           (fe_path <$> files) `sublist_of` names.
Proof.
  unfold get_files. change (default ∅ (Some d)) with d. cbv zeta.
  rewrite decide_True by done. cbn [list_files].
  destruct (list_loop (iterdir_sorted d) []) as [entries| |] eqn:Hl;
    [|intros [=]..].
  intros Hfiles. simplify_eq.
  exists (merge_sort name_le (map_to_list d)).*1. split_and!.
  - by rewrite merge_sort_Permutation.
  - assert (Total name_le) as Htotal
      by (intros x y; apply String.leb_total).
    apply (Sorted_fmap _ name_le); [done|].
    apply (@Sorted_merge_sort _ name_le _ Htotal).
  - destruct (list_loop_order _ _ _ Hl) as (more & -> & Hsub).
    cbn [app]. rewrite <- iterdir_sorted_names. exact Hsub.
Qed.

(* ===================================================================== *)
(** ** The further statements at sample runs *)
(* ===================================================================== *)

(** Two calls of [stop "sync"] that overlap: the first one runs to its
    end while the second waits for the child; when the second goes on, the
    entry is gone and its [del] raises. *)
Lemma overlapping_stop_raises :
  (stop_from_wait "sync" 0 5 graceful
     (stop "sync" 5 graceful s_two_lines).2).1 =
  Raise (Exc (mkException KeyError "sync")).
Proof. vm_compute. reflexivity. Qed.

(** [GET /api/files?path=a.md] on a documents directory that holds the
    note [a.md]: the listing of a regular file raises, and the handler does
    not catch it. *)
Lemma get_files_of_a_note :
  get_files (λ _, Missing) "/project/docs" "a.md" (Some notes_dir) =
  (Unhandled "NotADirectoryError", Some notes_dir).
Proof. vm_compute. reflexivity. Qed.

Lemma reachable_s_started : reachable s_started.
Proof. exact (reachable_step _ _ reachable_init). Qed.

Lemma reachable_s_two_lines : reachable s_two_lines.
Proof. exact (reachable_step _ _ reachable_s_started). Qed.

Lemma reachable_s_both : reachable s_both.
Proof. exact (reachable_step _ _ (reachable_step _ _ reachable_init)). Qed.

Lemma registered_name_is_complete_witness :
  reachable s_both ∧
  _processes s_both !! "runtime" = Some 1%nat ∧
  is_Some (objects s_both !! 1%nat) ∧
  is_Some (_output_buffers s_both !! "runtime") ∧
  ∃ t k, _output_tasks s_both !! "runtime" = Some t ∧
         loop_tasks s_both !! t = Some k ∧
         t_name k = "runtime" ∧ t_process k = 1%nat.
Proof.
  assert (_processes s_both !! "runtime" = Some 1%nat) as Hn
    by (vm_compute; reflexivity).
  split; [exact reachable_s_both|]. split; [exact Hn|].
  exact (registered_name_is_complete s_both "runtime" 1 reachable_s_both Hn).
Defined.

Lemma names_do_not_share_a_process_witness :
  reachable s_both ∧
  _processes s_both !! "sync" = Some 0%nat ∧
  "sync" = "sync".
Proof.
  assert (_processes s_both !! "sync" = Some 0%nat) as Hn
    by (vm_compute; reflexivity).
  split; [exact reachable_s_both|]. split; [exact Hn|].
  exact (names_do_not_share_a_process s_both "sync" "sync" 0
           reachable_s_both Hn Hn).
Defined.

Lemma drain_task_finds_its_buffer_witness :
  reachable s_two_lines ∧
  ∃ d, _output_buffers s_two_lines !! "sync" = Some d ∧
       buffer_append "sync" "more" s_two_lines =
         (Return (),
          set_output_buffers (<["sync" := deque_append "more" d]>)
            s_two_lines).
Proof.
  split; [exact reachable_s_two_lines|].
  refine (drain_task_finds_its_buffer s_two_lines 0
            (mkTask "sync" 0 None Running) "more" reachable_s_two_lines _).
  vm_compute. reflexivity.
Defined.

Lemma captured_lines_are_stripped_witness :
  reachable s_two_lines ∧
  "ready" ∈ get_output "sync" 50 s_two_lines ∧
  rstrip "ready" = "ready" ∧
  ("ready" = "read" +:+ "y" → is_space "y" = false).
Proof.
  assert ("ready" ∈ get_output "sync" 50 s_two_lines) as Hin
    by (vm_compute; left).
  split; [exact reachable_s_two_lines|]. split; [exact Hin|].
  exact (captured_lines_are_stripped s_two_lines "sync" 50 "ready" "read" "y"
           reachable_s_two_lines Hin).
Defined.

Lemma get_status_is_consistent_witness :
  reachable s_both ∧
  (get_status s_both !! "sync" = None ↔ _processes s_both !! "sync" = None) ∧
  ∀ st, get_status s_both !! "sync" = Some st →
    st_running st = is_running "sync" s_both ∧
    (st_running st = true ↔ st_returncode st = None) ∧
    (st_running st = true ↔ is_Some (st_pid st)).
Proof.
  split; [exact reachable_s_both|].
  exact (get_status_is_consistent s_both "sync" reachable_s_both).
Defined.

Lemma stop_leaves_the_others_alone_witness :
  reachable s_both ∧ "runtime" ≠ "sync" ∧
  _processes (stop "sync" 5 graceful s_both).2 !! "runtime" =
    _processes s_both !! "runtime" ∧
  _output_tasks (stop "sync" 5 graceful s_both).2 !! "runtime" =
    _output_tasks s_both !! "runtime" ∧
  ∃ evs, events (stop "sync" 5 graceful s_both).2 = events s_both ++ evs ∧
         Forall (λ e, aimed_at "sync" s_both e ∨ is_callback e) evs ∧
         Forall (λ e, ¬ aimed_at "runtime" s_both e) evs.
Proof.
  assert ("runtime" ≠ "sync") as Hne by discriminate.
  split; [exact reachable_s_both|]. split; [exact Hne|].
  exact (stop_leaves_the_others_alone s_both "sync" "runtime" 5 graceful
           reachable_s_both Hne).
Defined.

Lemma exited_child_stays_registered_witness :
  _processes s_two_lines !! "sync" = Some 0%nat ∧
  objects s_two_lines !! 0%nat = Some sync_child ∧
  is_running "sync" s_two_lines = true ∧
  is_running "sync" s_exited = false ∧
  _processes s_exited !! "sync" = Some 0%nat ∧
  get_status s_exited !! "sync" = Some (mkStatus false None (Some 0%Z)) ∧
  (start_node_process "sync" "sync.js" None None None None host_ok
     s_exited).1 = Return false.
Proof.
  assert (_processes s_two_lines !! "sync" = Some 0%nat) as Hn
    by (vm_compute; reflexivity).
  assert (objects s_two_lines !! 0%nat = Some sync_child) as Hp
    by (vm_compute; reflexivity).
  split; [exact Hn|]. split; [exact Hp|].
  exact (exited_child_stays_registered s_two_lines "sync" 0 sync_child 0
           restart_sync
           (start_node_process "sync" "sync.js" None None None None host_ok)
           Hn Hp eq_refl eq_refl).
Defined.

Lemma successful_start_registers_afresh_witness :
  start_npx_process "sync" "mrmd-sync" (Some ["--port"; "4444"; "docs"])
    None None None host_ok __init__ = (Return true, s_started) ∧
  _processes __init__ !! "sync" = None ∧
  (∃ h t k,
     _processes s_started !! "sync" = Some h ∧
     objects __init__ !! h = None ∧ is_Some (objects s_started !! h) ∧
     _output_tasks s_started !! "sync" = Some t ∧
     loop_tasks __init__ !! t = None ∧ loop_tasks s_started !! t = Some k ∧
     t_name k = "sync" ∧ t_process k = h ∧ t_state k = Running) ∧
  (∀ k, get_output "sync" k s_started = []) ∧
  (∀ n', n' ≠ "sync" →
     _processes s_started !! n' = _processes __init__ !! n' ∧
     _output_tasks s_started !! n' = _output_tasks __init__ !! n').
Proof.
  assert (start_npx_process "sync" "mrmd-sync"
            (Some ["--port"; "4444"; "docs"]) None None None host_ok __init__
          = (Return true, s_started)) as Hm by (vm_compute; reflexivity).
  split; [exact Hm|].
  exact (successful_start_registers_afresh __init__ s_started (start_sync None)
           "sync"
           (start_npx_process "sync" "mrmd-sync"
              (Some ["--port"; "4444"; "docs"]) None None None host_ok)
           eq_refl Hm).
Defined.

Lemma get_output_window_witness :
  reachable s_two_lines ∧
  _output_buffers s_two_lines !! "sync" =
    Some (mkDeque 1000 ["ready"; "listening on 4444"]) ∧
  ((0 < 1)%Z → get_output "sync" 1 s_two_lines =
               last_n (Z.to_nat 1) ["ready"; "listening on 4444"]) ∧
  ((1 < 0)%Z → get_output "sync" 1 s_two_lines =
               drop (Z.to_nat (- 1)) ["ready"; "listening on 4444"]) ∧
  (length (get_output "sync" 1 s_two_lines) ≤ 1000)%nat ∧
  get_output "sync" 1 s_two_lines `suffix_of` ["ready"; "listening on 4444"].
Proof.
  assert (_output_buffers s_two_lines !! "sync" =
          Some (mkDeque 1000 ["ready"; "listening on 4444"])) as Hd
    by (vm_compute; reflexivity).
  split; [exact reachable_s_two_lines|]. split; [exact Hd|].
  exact (get_output_window s_two_lines "sync"
           (mkDeque 1000 ["ready"; "listening on 4444"]) 1
           reachable_s_two_lines Hd).
Defined.

Lemma captured_output_is_the_recent_tail_witness :
  start_npx_process "sync" "mrmd-sync" (Some ["--port"; "4444"; "docs"])
    None None None host_ok __init__ = (Return true, s_started) ∧
  get_output "sync" 1
    (run_op (Drain 0 (Line <$> ["ready
"; "listening on 4444
"])) s_started) =
    last_n 1 (last_n 1000 (rstrip <$> ["ready
"; "listening on 4444
"])) ∧
  get_output "sync" 1
    (run_op (Drain 0 (Line <$> ["ready
"; "listening on 4444
"])) s_started) `suffix_of` (rstrip <$> ["ready
"; "listening on 4444
"]).
Proof.
  assert (start_npx_process "sync" "mrmd-sync"
            (Some ["--port"; "4444"; "docs"]) None None None host_ok __init__
          = (Return true, s_started)) as Hm by (vm_compute; reflexivity).
  split; [exact Hm|].
  refine (captured_output_is_the_recent_tail __init__ s_started
            (start_sync None) "sync"
            (start_npx_process "sync" "mrmd-sync"
               (Some ["--port"; "4444"; "docs"]) None None None host_ok)
            ["ready
"; "listening on 4444
"] 1 eq_refl Hm _ eq_refl).
  intros task Ht. vm_compute in Ht. injection Ht as <-.
  repeat constructor; discriminate.
Defined.

Lemma drain_loop_endings_witness :
  _output_buffers s_started !! "sync" = Some (mkDeque 1000 []) ∧
  ∃ s', _read_output "sync" 0 None (Line <$> ["ready
"]) s_started = (Return Suspended, s') ∧
        _output_buffers s' !! "sync" =
          Some (deque_extend (mkDeque 1000 []) (rstrip <$> ["ready
"])) ∧
        log s' = log s_started ∧
        _read_output "sync" 0 None
          ((Line <$> ["ready
"]) ++ Line EmptyString :: []) s_started = (Return Returned, s') ∧
        _read_output "sync" 0 None
          ((Line <$> ["ready
"]) ++ Fails CancelledError :: []) s_started = (Return Returned, s') ∧
        ∀ e, _read_output "sync" 0 None
               ((Line <$> ["ready
"]) ++ Fails (Exc e) :: []) s_started =
               (Return Returned,
                set_log (λ l, l ++ [read_error "sync" e]) s').
Proof.
  assert (_output_buffers s_started !! "sync" = Some (mkDeque 1000 [])) as Hd
    by (vm_compute; reflexivity).
  split; [exact Hd|].
  refine (drain_loop_endings "sync" 0 None ["ready
"] [] s_started (mkDeque 1000 []) Hd _).
  repeat constructor; discriminate.
Defined.


Lemma created_file_name_is_safe_witness :
  create_file ascii_isalnum 0 new_note None =
    (Responds ("week1 plan", "week1 plan.md"),
     Some {[ "week1 plan.md" := File (default_content "week1 plan") 0 ]}) ∧
  ("/"%char ∉ list_ascii_of_string "week1 plan.md").
Proof.
  assert (create_file ascii_isalnum 0 new_note None =
          (Responds ("week1 plan", "week1 plan.md"),
           Some {[ "week1 plan.md" := File (default_content "week1 plan") 0 ]}))
    as Hc by (vm_compute; reflexivity).
  split; [exact Hc|].
  destruct (created_file_name_is_safe ascii_isalnum 0 new_note None _ _ _ Hc)
    as (_ & _ & _ & _ & _ & Hslash & _).
  exact (Hslash eq_refl).
Defined.

Lemma repeated_create_file_conflicts_witness :
  create_file ascii_isalnum 0 new_note None =
    (Responds ("week1 plan", "week1 plan.md"),
     Some {[ "week1 plan.md" := File (default_content "week1 plan") 0 ]}) ∧
  create_file ascii_isalnum 1 {[ "name" := Str "week1 plan" ]}
    (Some {[ "week1 plan.md" := File (default_content "week1 plan") 0 ]}) =
    (HTTPException 409 "File 'week1 plan' already exists",
     Some {[ "week1 plan.md" := File (default_content "week1 plan") 0 ]}).
Proof.
  assert (create_file ascii_isalnum 0 new_note None =
          (Responds ("week1 plan", "week1 plan.md"),
           Some {[ "week1 plan.md" := File (default_content "week1 plan") 0 ]}))
    as Hc by (vm_compute; reflexivity).
  split; [exact Hc|].
  exact (repeated_create_file_conflicts ascii_isalnum 0 1 new_note
           {[ "name" := Str "week1 plan" ]} None _ _ _ Hc
           (or_intror eq_refl)).
Defined.

Lemma created_file_is_listed_witness :
  create_file ascii_isalnum 0 new_note None =
    (Responds ("week1 plan", "week1 plan.md"),
     Some {[ "week1 plan.md" := File (default_content "week1 plan") 0 ]}) ∧
  ∃ files content,
    get_files (λ _, Missing) "/project/docs" EmptyString
      (Some {[ "week1 plan.md" := File (default_content "week1 plan") 0 ]}) =
      (Responds (files, EmptyString, "/project/docs"),
       Some {[ "week1 plan.md" := File (default_content "week1 plan") 0 ]}) ∧
    mkFileEntry "week1 plan" "week1 plan.md" "file" (Some (st_size content))
      (Some 0%Q) ∈ files.
Proof.
  assert (create_file ascii_isalnum 0 new_note None =
          (Responds ("week1 plan", "week1 plan.md"),
           Some {[ "week1 plan.md" := File (default_content "week1 plan") 0 ]}))
    as Hc by (vm_compute; reflexivity).
  split; [exact Hc|].
  destruct (created_file_is_listed ascii_isalnum 0 new_note None _ _ _
              "/project/docs" (λ _, Missing) Hc)
    as (files & content & Hget & _ & Hin & _).
  - intros f Hf. apply lookup_singleton_Some in Hf as [_ Hf]. discriminate.
  - exists files, content. split; [exact Hget|]. exact (Hin eq_refl).
Defined.

Lemma async_main_launches_witness :
  launched (async_main plain_args plain_session).2 =
    [(4242%Z, ["npx"; "mrmd-sync"; "--port"; "4444"; "/project/notes"], None);
     (4242%Z, ["/usr/bin/python3"; "-m"; "mrmd_python.cli"; "--port"; "8765"],
      Some "/project")].
Proof.
  exact (async_main_launches plain_args plain_session 4242 4242
           eq_refl eq_refl eq_refl).
Defined.

Lemma drain_task_writes_only_its_buffer_witness :
  loop_tasks s_both !! 0%nat = Some (mkTask "sync" 0 None Running) ∧
  (∀ m, m ≠ "sync" →
     _output_buffers (run_op (Drain 0 [Line "ready
"]) s_both) !! m = _output_buffers s_both !! m) ∧
  (∀ t', t' ≠ 0%nat →
     loop_tasks (run_op (Drain 0 [Line "ready
"]) s_both) !! t' = loop_tasks s_both !! t') ∧
  _processes (run_op (Drain 0 [Line "ready
"]) s_both) = _processes s_both ∧
  _output_tasks (run_op (Drain 0 [Line "ready
"]) s_both) = _output_tasks s_both ∧
  objects (run_op (Drain 0 [Line "ready
"]) s_both) = objects s_both ∧
  signals (events (run_op (Drain 0 [Line "ready
"]) s_both)) = signals (events s_both).
Proof.
  assert (loop_tasks s_both !! 0%nat = Some (mkTask "sync" 0 None Running))
    as Hk by (vm_compute; reflexivity).
  split; [exact Hk|].
  exact (drain_task_writes_only_its_buffer s_both 0
           (mkTask "sync" 0 None Running) [Line "ready
"] Hk).
Defined.

Lemma stop_all_leaves_no_child_running_witness :
  reachable s_both ∧
  _processes s_both !! "sync" = Some 0%nat ∧
  ∃ p, objects (stop_all 5 (λ _, graceful) s_both).2 !! 0%nat = Some p ∧
       is_Some (returncode p) ∧
       is_running "sync" (stop_all 5 (λ _, graceful) s_both).2 = false.
Proof.
  assert (_processes s_both !! "sync" = Some 0%nat) as Hn
    by (vm_compute; reflexivity).
  split; [exact reachable_s_both|]. split; [exact Hn|].
  exact (stop_all_leaves_no_child_running 5 (λ _, graceful) s_both "sync" 0
           reachable_s_both (λ _, conj eq_refl eq_refl) Hn).
Defined.

Lemma async_main_leaves_no_child_running_witness :
  objects (async_main plain_args plain_session).2 !! 0%nat =
    Some (mkProcess 4242 (Some 0%Z)
            ["npx"; "mrmd-sync"; "--port"; "4444"; "/project/notes"] None ∅) ∧
  is_Some (returncode
             (mkProcess 4242 (Some 0%Z)
                ["npx"; "mrmd-sync"; "--port"; "4444"; "/project/notes"]
                None ∅)).
Proof.
  assert (objects (async_main plain_args plain_session).2 !! 0%nat =
          Some (mkProcess 4242 (Some 0%Z)
                  ["npx"; "mrmd-sync"; "--port"; "4444"; "/project/notes"]
                  None ∅)) as Hh by (vm_compute; reflexivity).
  split; [exact Hh|].
  exact (async_main_leaves_no_child_running plain_args plain_session 0 _
           eq_refl eq_refl (λ _, conj eq_refl eq_refl) Hh).
Defined.

Lemma async_main_stops_the_services_witness :
  (async_main plain_args cut_off_session).1 = Raise broken_pipe ∧
  is_Some (_processes (async_main plain_args cut_off_session).2 !! "mrmd-sync").
Proof.
  destruct (async_main_stops_the_services plain_args cut_off_session eq_refl)
    as (_ & _ & H).
  destruct (H broken_pipe eq_refl) as (Hr & _ & Hk).
  split; [exact Hr|exact (Hk eq_refl)].
Defined.

Lemma services_are_signalled_at_shutdown_only_witness :
  ∃ s, reachable s ∧
       Forall is_spawn (signals (events s)) ∧
       (async_main plain_args plain_session).2 =
         (stop_all 5 (λ _, graceful) s).2.
Proof.
  exact (services_are_signalled_at_shutdown_only plain_args plain_session
           eq_refl).
Defined.

Lemma listing_follows_the_sorted_directory_witness :
  get_files (λ _, Missing) "/project/docs" EmptyString (Some notes_dir) =
    (Responds (notes_listing, EmptyString, "/project/docs"), Some notes_dir) ∧
  ∃ names, names ≡ₚ (map_to_list notes_dir).*1 ∧
           Sorted (λ a b, String.leb a b = true) names ∧
           (fe_path <$> notes_listing) `sublist_of` names.
Proof.
  assert (get_files (λ _, Missing) "/project/docs" EmptyString (Some notes_dir) =
          (Responds (notes_listing, EmptyString, "/project/docs"),
           Some notes_dir)) as Hget by (vm_compute; reflexivity).
  split; [exact Hget|].
  exact (listing_follows_the_sorted_directory notes_dir (λ _, Missing)
           "/project/docs" notes_listing Hget).
Defined.
